(** * A sliding-window message protocol over a byte stream

    Shallow embedding of [API.py], [Server.py] and [Client.py]: the header
    codec, the request separator and the receiver's buffer on the server
    side, the message divider and the send loop on the client side.

    Python integers are [Z], [bytes] are lists of [Byte.byte], [str] is a
    list of Unicode code points, a raised exception is the [Raise] branch of
    [result], and the thread-local object of a connection is a record that
    every function receives and returns. *)

From Stdlib Require Import ZArith Lia QArith.
From Stdlib.Strings Require Import Byte.
From stdpp Require Import base tactics option list strings sorting.

Open Scope Z_scope.

(** ** Python values *)

Abbreviation bytes := (list Byte.byte).

(** A [str] is a sequence of code points. *)
Abbreviation str := (list Z).

(** [len(x)] *)
Definition len {A} (l : list A) : Z := Z.of_nat (length l).

Inductive exn : Type :=
| ValueError (msg : string)
| struct_error
| UnicodeError
| ZeroDivisionError
| UnboundLocalError
| IndexError
| socket_timeout
| MessageClientError (cause : exn)
| OtherError (msg : string).

Inductive result (A : Type) : Type :=
| Ok (a : A)
| Raise (e : exn).
Arguments Ok {A} a.
Arguments Raise {A} e.

#[global] Instance result_ret : MRet result := fun _ a => Ok a.
#[global] Instance result_bind : MBind result := fun _ _ f m =>
  match m with
  | Ok a => f a
  | Raise e => Raise e
  end.
#[global] Instance result_fmap : FMap result := fun _ _ f m =>
  match m with
  | Ok a => Ok (f a)
  | Raise e => Raise e
  end.

(** [[f(x) for x in l]], stopping at the first exception. *)
Fixpoint mapR {A B} (f : A -> result B) (l : list A) : result (list B) :=
  match l with
  | [] => Ok []
  | x :: l' => y ← f x; ys ← mapR f l'; Ok (y :: ys)
  end.

Definition is_ok {A} (r : result A) : bool :=
  match r with Ok _ => true | Raise _ => false end.

(** ** [struct] with the formats [B] and [!H] *)

Definition byte_to_Z (b : Byte.byte) : Z := Z.of_N (Byte.to_N b).

Definition byte_of_Z (z : Z) : option Byte.byte :=
  if 0 <=? z then Byte.of_N (Z.to_N z) else None.

(** [struct.pack('B', v)]: [struct.error] outside [0..255]. *)
Definition pack_B (v : Z) : result bytes :=
  match byte_of_Z v with
  | Some b => Ok [b]
  | None => Raise struct_error
  end.

(** [struct.pack('!H', v)]: big-endian, [struct.error] outside [0..65535]. *)
Definition pack_H (v : Z) : result bytes :=
  if (0 <=? v) && (v <? 65536) then
    hi ← pack_B (v / 256); lo ← pack_B (v mod 256); Ok (hi ++ lo)
  else Raise struct_error.

Definition unpack_H (hi lo : Byte.byte) : Z := byte_to_Z hi * 256 + byte_to_Z lo.

(** ** The [utf-8] codec of [str.encode] and [bytes.decode] *)

Definition is_cont (b : Byte.byte) : bool :=
  (128 <=? byte_to_Z b) && (byte_to_Z b <? 192).

Definition cont_bits (b : Byte.byte) : Z := byte_to_Z b - 128.

Definition is_surrogate (cp : Z) : bool := (55296 <=? cp) && (cp <=? 57343).

Fixpoint utf8_decode (bs : bytes) : result str :=
  match bs with
  | [] => Ok []
  | b0 :: r0 =>
    let v0 := byte_to_Z b0 in
    if v0 <? 128 then cons v0 <$> utf8_decode r0
    else if (192 <=? v0) && (v0 <? 224) then
      match r0 with
      | b1 :: r1 =>
        let cp := (v0 - 192) * 64 + cont_bits b1 in
        if is_cont b1 && (128 <=? cp) then cons cp <$> utf8_decode r1
        else Raise UnicodeError
      | _ => Raise UnicodeError
      end
    else if (224 <=? v0) && (v0 <? 240) then
      match r0 with
      | b1 :: b2 :: r2 =>
        let cp := (v0 - 224) * 4096 + cont_bits b1 * 64 + cont_bits b2 in
        if is_cont b1 && is_cont b2 && (2048 <=? cp) && negb (is_surrogate cp)
        then cons cp <$> utf8_decode r2
        else Raise UnicodeError
      | _ => Raise UnicodeError
      end
    else if (240 <=? v0) && (v0 <? 248) then
      match r0 with
      | b1 :: b2 :: b3 :: r3 =>
        let cp := (v0 - 240) * 262144 + cont_bits b1 * 4096
                  + cont_bits b2 * 64 + cont_bits b3 in
        if is_cont b1 && is_cont b2 && is_cont b3
           && (65536 <=? cp) && (cp <=? 1114111)
        then cons cp <$> utf8_decode r3
        else Raise UnicodeError
      | _ => Raise UnicodeError
      end
    else Raise UnicodeError
  end.

Definition utf8_encode_char (cp : Z) : result bytes :=
  if (0 <=? cp) && (cp <? 128) then pack_B cp
  else if (128 <=? cp) && (cp <? 2048) then
    a ← pack_B (192 + cp / 64); b ← pack_B (128 + cp mod 64); Ok (a ++ b)
  else if (2048 <=? cp) && (cp <? 65536) then
    if is_surrogate cp then Raise UnicodeError
    else
      a ← pack_B (224 + cp / 4096);
      b ← pack_B (128 + (cp / 64) mod 64);
      c ← pack_B (128 + cp mod 64);
      Ok (a ++ b ++ c)
  else if (65536 <=? cp) && (cp <=? 1114111) then
    a ← pack_B (240 + cp / 262144);
    b ← pack_B (128 + (cp / 4096) mod 64);
    c ← pack_B (128 + (cp / 64) mod 64);
    d ← pack_B (128 + cp mod 64);
    Ok (a ++ b ++ c ++ d)
  else Raise UnicodeError.

Fixpoint utf8_encode (s : str) : result bytes :=
  match s with
  | [] => Ok []
  | cp :: s' => b ← utf8_encode_char cp; bs ← utf8_encode s'; Ok (b ++ bs)
  end.

(** ** API.py *)

Module API.

Definition MESSAGE_BUFFER_SIZE : Z := 2 ^ 16 - 1.
Definition ACK_BUFFER_SIZE : Z := 3.
Definition MAX_MSG_SIZE : Z := 2 ^ 16 - 5.

(** *** class MessageHeader *)

(** [struct.calcsize('!HHBB')] *)
Definition HEADER_MIN_LENGTH : Z := 6.
Definition DEFAULT_HEADER_MAX_LENGTH : Z := 2 ^ 16 - 1.
Definition DEFAULT_MAX_WINDOW_SIZE : Z := 2 ^ 7.
Definition DEFAULT_MAX_MSG_SIZE : Z := DEFAULT_HEADER_MAX_LENGTH - 4.

Record MessageHeader : Type := mkMessageHeader {
  total_length : Z;
  max_msg_size : Z;
  actual_window_size : Z;
  window_size : Z;
  package_num : Z;
  data : bytes
}.

(** [MessageHeader.__init__].  The first component tells whether
    [warnings.warn] was called; the warning is issued before the range
    checks, so it is reported also when the constructor raises. *)
Definition MessageHeader_init (total_length : option Z) (window_size : Z)
    (package_num : Z) (max_msg_size : Z) (data : bytes)
  : bool * result MessageHeader :=
  let '(total_length, warned) :=
    match total_length with
    | None => (HEADER_MIN_LENGTH + len data, false)
    | Some t =>
      if negb (t =? HEADER_MIN_LENGTH + len data)
      then (HEADER_MIN_LENGTH + len data, true)
      else (t, false)
    end in
  let max_msg_size :=
    if (max_msg_size <=? DEFAULT_MAX_MSG_SIZE) && (0 <? max_msg_size)
    then max_msg_size else DEFAULT_MAX_MSG_SIZE in
  (warned,
   if negb ((HEADER_MIN_LENGTH <=? total_length) && (total_length <=? max_msg_size))
   then Raise (ValueError "invalid total length")
   else if (window_size <? 1) || (DEFAULT_MAX_WINDOW_SIZE <? window_size)
   then Raise (ValueError "invalid window size")
   else
     let actual_window_size := window_size in
     let window_size := window_size - 1 in
     let max_package_num := 2 * actual_window_size in
     if (package_num <? 0) || (max_package_num <=? package_num)
     then Raise (ValueError "invalid package number")
     else
       let max_data_size := max_msg_size - HEADER_MIN_LENGTH in
       if max_data_size <? len data
       then Raise (ValueError "invalid data size")
       else Ok (mkMessageHeader total_length max_msg_size actual_window_size
                                window_size package_num data)).

(** [MessageHeader.pack]: [struct.pack('!HHBB', ...) + self.data] *)
Definition MessageHeader_pack (self : MessageHeader) : result bytes :=
  a ← pack_H (total_length self);
  b ← pack_H (max_msg_size self);
  c ← pack_B (window_size self);
  d ← pack_B (package_num self);
  Ok (a ++ b ++ c ++ d ++ data self).

(** [MessageHeader.unpack] *)
Definition MessageHeader_unpack (data : bytes) : bool * result MessageHeader :=
  if len data <? HEADER_MIN_LENGTH
  then (false, Raise (ValueError "data is too short to be a header"))
  else
    match data with
    | t1 :: t0 :: m1 :: m0 :: w :: p :: payload =>
      MessageHeader_init (Some (unpack_H t1 t0)) (byte_to_Z w + 1)
                         (byte_to_Z p) (unpack_H m1 m0) payload
    | _ => (false, Raise struct_error)
    end.

(** [data_to_message]: every failure of the decoding is turned into a
    [ValueError]. *)
Definition data_to_message (header : MessageHeader) : result str :=
  match utf8_decode (data header) with
  | Ok message_str => Ok message_str
  | Raise _ => Raise (ValueError "the data wasn't a message")
  end.

(** [unpack_total_message_size] *)
Definition unpack_total_message_size (data : bytes) : result Z :=
  if len data <? HEADER_MIN_LENGTH
  then Raise (ValueError "data too short to be a header")
  else
    match data with
    | t1 :: t0 :: _ => Ok (unpack_H t1 t0)
    | _ => Raise struct_error
    end.

(** *** class AckHeader *)

(** [struct.calcsize('!HB')] *)
Definition HEADER_LENGTH : Z := 3.

Record AckHeader : Type := mkAckHeader {
  ack_max_msg_size : Z;
  ack_number : Z
}.

(** [AckHeader.__init__] *)
Definition AckHeader_init (ack_number : Z) (max_msg_size : Z) : result AckHeader :=
  if (max_msg_size <? 0) || (2 ^ 16 <=? max_msg_size)
  then Raise (ValueError "invalid ack number, expected a number between 0 and 65535")
  else if (ack_number <? 0) || (2 ^ 8 <=? ack_number)
  then Raise (ValueError "invalid ack number")
  else Ok (mkAckHeader max_msg_size ack_number).

(** [AckHeader.pack] *)
Definition AckHeader_pack (self : AckHeader) : result bytes :=
  a ← pack_H (ack_max_msg_size self);
  b ← pack_B (ack_number self);
  Ok (a ++ b).

(** [AckHeader.unpack] *)
Definition AckHeader_unpack (data : bytes) : result AckHeader :=
  if negb (len data =? HEADER_LENGTH)
  then Raise (ValueError "data is not the correct length")
  else
    match data with
    | [m1; m0; a] => AckHeader_init (byte_to_Z a) (unpack_H m1 m0)
    | _ => Raise struct_error
    end.

End API.

(** ** Server.py *)

Module Server.
Import API.

(** The attributes that [client_handler] stores in [threading.local()]. *)
Record local_thread : Type := mk_local_thread {
  decided_size : bool;
  max_message_length : Z;
  window_size : Z;
  last_acked : Z;
  message : str;
  buffer : list MessageHeader
}.

Definition set_buffer (b : list MessageHeader) (lt : local_thread) : local_thread :=
  mk_local_thread (decided_size lt) (max_message_length lt) (window_size lt)
                  (last_acked lt) (message lt) b.

Definition set_message (m : str) (lt : local_thread) : local_thread :=
  mk_local_thread (decided_size lt) (max_message_length lt) (window_size lt)
                  (last_acked lt) m (buffer lt).

Definition set_last_acked (n : Z) (lt : local_thread) : local_thread :=
  mk_local_thread (decided_size lt) (max_message_length lt) (window_size lt)
                  n (message lt) (buffer lt).

(** The values [client_handler] gives the attributes before its loop. *)
Definition new_local_thread : local_thread :=
  mk_local_thread false MESSAGE_BUFFER_SIZE (-1) (-1) [] [].

(** *** separate_requests *)

(** [separated[index] += bytes([byte])] *)
Definition append_at (index : nat) (byte : Byte.byte) (separated : list bytes)
  : result (list bytes) :=
  match separated !! index with
  | Some s => Ok (<[index := s ++ [byte]]> separated)
  | None => Raise IndexError
  end.

(** The body of [for byte in data].  The loop runs over the bytes object
    that [data] names when the loop starts ([iter]); the assignments to
    [data] inside the body rebind the name only.  The total length comes
    out of two unsigned bytes, so the slice [data[total:]] never has a
    negative bound. *)
Fixpoint separate_loop (iter : bytes) (data : bytes) (total_length_of_package : Z)
    (separated : list bytes) (counter : Z) (index : nat) : result (list bytes) :=
  match iter with
  | [] => Ok separated
  | byte :: iter' =>
    if counter <? total_length_of_package then
      separated ← append_at index byte separated;
      separate_loop iter' data total_length_of_package separated (counter + 1) index
    else
      let data := drop (Z.to_nat total_length_of_package) data in
      total_length_of_package ←
        (if 0 <? len data then unpack_total_message_size data
         else Ok total_length_of_package);
      let separated := separated ++ [[]] in
      let index := S index in
      separated ← append_at index byte separated;
      separate_loop iter' data total_length_of_package separated 1 index
  end.

Definition separate_requests (data : bytes) : result (list bytes) :=
  total_length_of_package ← unpack_total_message_size data;
  if total_length_of_package <? len data then
    separate_loop data data total_length_of_package [[]] 0 0%nat
  else Ok [data].

(** *** buffer_request *)

(** The test that opens [buffer_request]: the package was already acked. *)
Definition already_acked (last_acked window_size request_number : Z) : bool :=
  ((last_acked - window_size <? request_number) && (request_number <=? last_acked))
  || (last_acked + window_size <=? request_number).

(** [list.insert(i, x)] *)
Definition list_insert_at {A} (i : nat) (x : A) (l : list A) : list A :=
  take i l ++ x :: drop i l.

(** The loop [for i in range(0, len(buffer))]; [rest] holds the packages
    at the positions [i, i+1, ...].  The result is [Some] of the buffer
    when the loop left with [buffered_request = True]. *)
Fixpoint buffer_loop (last_acked window_size : Z) (request : MessageHeader)
    (buffer : list MessageHeader) (i : nat) (rest : list MessageHeader)
  : option (list MessageHeader) :=
  match rest with
  | [] => None
  | package :: rest' =>
    let request_number := package_num request in
    let package_number := package_num package in
    if request_number =? package_num package then Some buffer
    else if (0 <=? last_acked) && (last_acked <? window_size) then
      if (last_acked <? request_number) && (request_number <? package_number)
      then Some (list_insert_at i request buffer)
      else buffer_loop last_acked window_size request buffer (S i) rest'
    else
      if ((last_acked <? request_number) && (request_number <? package_number))
         || ((package_number <? last_acked) && (last_acked <? request_number))
         || ((request_number <? package_number) && (package_number <? last_acked))
      then Some (list_insert_at i request buffer)
      else buffer_loop last_acked window_size request buffer (S i) rest'
  end.

Definition buffer_request (lt : local_thread) (request : MessageHeader) : local_thread :=
  let request_number := package_num request in
  if already_acked (last_acked lt) (window_size lt) request_number then lt
  else
    match buffer_loop (last_acked lt) (window_size lt) request (buffer lt) 0 (buffer lt) with
    | Some b => set_buffer b lt
    | None => set_buffer (buffer lt ++ [request]) lt
    end.

(** *** process_request *)

(** [for package in local_thread.buffer], with the list iterator of
    Python written out: it keeps a position [i], yields [buffer[i]] while
    [i < len(buffer)] and then moves to [i + 1], whatever the body did
    to the list.  [MessageHeader] defines no [__eq__] and every buffered
    package is an object of its own, so [buffer.remove(package)] deletes
    the entry the iterator just yielded.  [fuel] bounds the number of
    rounds; [len(buffer)] rounds are never exceeded. *)
Fixpoint drain_loop (fuel : nat) (i : nat) (lt : local_thread)
  : local_thread * result unit :=
  match fuel with
  | O => (lt, Ok ())
  | S fuel' =>
    match buffer lt !! i with
    | None => (lt, Ok ())
    | Some package =>
      let package_number := package_num package in
      if 2 * window_size lt =? 0 then (lt, Raise ZeroDivisionError)
      else if package_number =? (last_acked lt + 1) mod (2 * window_size lt) then
        let lt := set_buffer (delete i (buffer lt)) lt in
        match data_to_message package with
        | Raise e => (lt, Raise e)
        | Ok text =>
          let lt := set_message (message lt ++ text) lt in
          let lt := set_last_acked package_number lt in
          drain_loop fuel' (S i) lt
        end
      else (lt, Ok ())
    end
  end.

(** The first request of a connection: the console (or the file it
    names) supplies the maximum message length; [policy] is what that
    dialogue produced, an exception when the answer was no number. *)
Definition decide_size (policy : result Z) (lt : local_thread) (request : MessageHeader)
  : local_thread * result unit :=
  if negb (decided_size lt) then
    match policy with
    | Raise e => (lt, Raise e)
    | Ok max_message_length =>
      (mk_local_thread true max_message_length (API.window_size request + 1)
                       (last_acked lt) (message lt) (buffer lt), Ok ())
    end
  else (lt, Ok ()).

Definition process_request (policy : result Z) (lt : local_thread)
    (request : MessageHeader) : local_thread * result AckHeader :=
  match decide_size policy lt request with
  | (lt, Raise e) => (lt, Raise e)
  | (lt, Ok _) =>
    let lt := buffer_request lt request in
    match (if 0 <? len (buffer lt) then drain_loop (length (buffer lt)) 0 lt
           else (lt, Ok ())) with
    | (lt, Raise e) => (lt, Raise e)
    | (lt, Ok _) => (lt, AckHeader_init (last_acked lt) (max_message_length lt))
    end
  end.

(** *** client_handler *)

(** The inner [try]: separate the requests and unpack each of them. *)
Definition unpack_requests (data : bytes) : result (list MessageHeader) :=
  match (separated ← separate_requests data;
         mapR (fun separate => snd (MessageHeader_unpack separate)) separated) with
  | Ok requests => Ok requests
  | Raise e => Raise (MessageClientError e)
  end.

(** [for request in requests: response = process_request(...)] *)
Fixpoint process_requests (policy : result Z) (lt : local_thread)
    (requests : list MessageHeader) (response : option AckHeader)
  : local_thread * result (option AckHeader) :=
  match requests with
  | [] => (lt, Ok response)
  | request :: requests' =>
    match process_request policy lt request with
    | (lt, Raise e) => (lt, Raise e)
    | (lt, Ok response) => process_requests policy lt requests' (Some response)
    end
  end.

(** What one round of the [while True] loop leaves behind. *)
Inductive round_result : Type :=
| Closed
| Served (lt : local_thread) (sent : option bytes).

(** One round of the loop of [client_handler] on the bytes that [recv]
    returned: the thread-local state afterwards and the response that
    was sent, if one was. *)
Definition client_handler_round (policy : result Z) (lt : local_thread) (data : bytes)
  : round_result :=
  if len data =? 0 then Closed
  else
    match unpack_requests data with
    | Raise _ => Served lt None
    | Ok requests =>
      match process_requests policy lt requests None with
      | (lt, Raise _) => Served lt None
      | (lt, Ok None) => Served lt None
      | (lt, Ok (Some response)) =>
        match AckHeader_pack response with
        | Raise _ => Served lt None
        | Ok response => Served lt (Some response)
        end
      end
    end.

(** The [while True] loop over the successive results of [recv], up to
    the empty read that closes the connection: the state that
    [print_message] sees and, per round, the response that was sent. *)
Fixpoint client_handler_loop (policy : result Z) (lt : local_thread) (reads : list bytes)
  : local_thread * list (option bytes) :=
  match reads with
  | [] => (lt, [])
  | data :: reads' =>
    match client_handler_round policy lt data with
    | Closed => (lt, [])
    | Served lt sent =>
      let '(lt, responses) := client_handler_loop policy lt reads' in
      (lt, sent :: responses)
    end
  end.

End Server.

(** ** Client.py *)

Module Client.
Import API.

(** *** divide_msg *)

(** The body of [for char in message]. *)
Fixpoint divide_loop (message : str) (max_size : Z) (divided_msgs : list str)
    (index : nat) : result (list str) :=
  match message with
  | [] => Ok divided_msgs
  | char :: message' =>
    match divided_msgs !! index with
    | None => Raise IndexError
    | Some part =>
      if len part <? max_size then
        divide_loop message' max_size (<[index := part ++ [char]]> divided_msgs) index
      else
        divide_loop message' max_size (divided_msgs ++ [[char]]) (S index)
    end
  end.

Definition divide_msg (message : str) (max_size : Z) : result (list str) :=
  divide_loop message max_size [[]] 0%nat.

(** *** client *)

(** The local variables of [client] that live across the rounds of its
    [while] loop; [first_msg_sent] is unbound until its first assignment. *)
Record client_state : Type := mk_client_state {
  divided_msgs : list str;
  sliding_window : list MessageHeader;
  package_number : Z;
  first_msg_sent : option Q
}.

(** What the world answers during one round: the draw of
    [random.randint(0,2)], the readings of [time()] where the window
    gets its first package, before [recv] and where the clock is reset,
    and what [recv] returns or raises. *)
Record environment : Type := mk_environment {
  randint : Z;
  time_first : Q;
  time_check : Q;
  recv : result bytes;
  time_reset : Q
}.

(** [int(x)] of a float: truncation towards zero.  The readings of the
    clock are rationals, so that the difference of two readings is exact;
    the rounding of the subtraction of floats is not modelled. *)
Definition int_of (x : Q) : Z := Z.quot (Qnum x) (Z.pos (Qden x)).

(** The opening of [client]: the size request, the ack that answers it
    and the division of the message.  The bytes sent come first. *)
Definition client_connect (message : str) (window_size : Z) (size_response : result bytes)
  : list bytes * result client_state :=
  match snd (MessageHeader_init None window_size 0 (-1) []) with
  | Raise e => ([], Raise e)
  | Ok size_request =>
    match MessageHeader_pack size_request with
    | Raise e => ([], Raise e)
    | Ok packed =>
      ([packed],
       size_response ← size_response;
       size_response ← AckHeader_unpack size_response;
       divided_msgs ← divide_msg message (ack_max_msg_size size_response);
       Ok (mk_client_state divided_msgs [] 0 None))
    end
  end.

(** Lines 112-141: a new package enters the sliding window.  With
    [send_out_of_order] the package is sent only when the draw is not 0,
    without it always. *)
Definition send_phase (window_size : Z) (send_out_of_order : bool)
    (env : environment) (st : client_state) : list bytes * result client_state :=
  let after_send : list bytes * result client_state :=
    if (len (sliding_window st) <? window_size) && (0 <? len (divided_msgs st)) then
      if 2 * window_size =? 0 then ([], Raise ZeroDivisionError)
      else
        let package_number := (package_number st + 1) mod (2 * window_size) in
        match divided_msgs st with
        | [] => ([], Raise IndexError)
        | part :: divided_msgs =>
          match utf8_encode part with
          | Raise e => ([], Raise e)
          | Ok msg_part =>
            match snd (MessageHeader_init (Some (HEADER_MIN_LENGTH + len msg_part))
                                          window_size package_number (-1) msg_part) with
            | Raise e => ([], Raise e)
            | Ok package =>
              let st := mk_client_state divided_msgs (sliding_window st ++ [package])
                                        package_number (first_msg_sent st) in
              if send_out_of_order && (randint env =? 0) then ([], Ok st)
              else
                match MessageHeader_pack package with
                | Raise e => ([], Raise e)
                | Ok packed => ([packed], Ok st)
                end
            end
          end
        end
    else ([], Ok st) in
  match after_send with
  | (sent, Raise e) => (sent, Raise e)
  | (sent, Ok st) =>
    if len (sliding_window st) =? 1
    then (sent, Ok (mk_client_state (divided_msgs st) (sliding_window st)
                                    (package_number st) (Some (time_first env))))
    else (sent, Ok st)
  end.

(** The [while len(sliding_window) > 0] loop that follows an ack: the
    window afterwards, and whether [first_msg_sent = time()] ran. *)
Fixpoint retire (window_size ack_number : Z) (sliding_window : list MessageHeader)
  : list MessageHeader * bool :=
  match sliding_window with
  | [] => ([], false)
  | package :: rest =>
    if ((package_num package - window_size <=? ack_number)
        && (ack_number <? package_num package))
       || (package_num package + window_size <=? ack_number)
    then (sliding_window, false)
    else if package_num package =? ack_number then (rest, 0 <? len rest)
    else retire window_size ack_number rest
  end.

(** [for package in sliding_window: client_socket.send(package.pack())] *)
Fixpoint resend (sliding_window : list MessageHeader) : list bytes * result unit :=
  match sliding_window with
  | [] => ([], Ok ())
  | package :: rest =>
    match MessageHeader_pack package with
    | Raise e => ([], Raise e)
    | Ok packed => let '(sent, r) := resend rest in (packed :: sent, r)
    end
  end.

(** The body of the [try] of lines 145-172. *)
Definition await_ack (window_size timeout : Z) (env : environment) (st : client_state)
  : result client_state :=
  first ← match first_msg_sent st with
          | Some t => Ok t
          | None => Raise UnboundLocalError
          end;
  if timeout <? int_of (time_check env - first)%Q then Raise socket_timeout
  else
    response ← recv env;
    response ← AckHeader_unpack response;
    let '(window, reset) := retire window_size (ack_number response) (sliding_window st) in
    Ok (mk_client_state (divided_msgs st) window (package_number st)
          (if reset then Some (time_reset env) else first_msg_sent st)).

(** Lines 145-181: the [try] and its [except socket.timeout]. *)
Definition ack_phase (window_size timeout : Z) (env : environment) (st : client_state)
  : list bytes * result client_state :=
  match await_ack window_size timeout env st with
  | Ok st => ([], Ok st)
  | Raise socket_timeout =>
    let st := mk_client_state (divided_msgs st) (sliding_window st)
                              (package_number st) (Some (time_reset env)) in
    let '(sent, r) := resend (sliding_window st) in
    (sent, match r with Ok _ => Ok st | Raise e => Raise e end)
  | Raise e => ([], Raise e)
  end.

(** One round of [while len(divided_msgs) > 0 or len(sliding_window) > 0]. *)
Definition client_round (window_size timeout : Z) (send_out_of_order : bool)
    (env : environment) (st : client_state) : list bytes * result client_state :=
  match send_phase window_size send_out_of_order env st with
  | (sent, Raise e) => (sent, Raise e)
  | (sent, Ok st) =>
    let '(resent, r) := ack_phase window_size timeout env st in
    (sent ++ resent, r)
  end.

(** How a run of the loop of [client] ends: the loop is left, the answers
    of the world are used up while the loop still runs, or an exception
    takes the run to the [except] of [client]. *)
Inductive outcome : Type :=
| Finished (st : client_state)
| Pending (st : client_state)
| Aborted (e : exn).

(** [while len(divided_msgs) > 0 or len(sliding_window) > 0], with one
    environment for every round. *)
Fixpoint client_loop (window_size timeout : Z) (send_out_of_order : bool)
    (envs : list environment) (st : client_state) : list bytes * outcome :=
  if (0 <? len (divided_msgs st)) || (0 <? len (sliding_window st)) then
    match envs with
    | [] => ([], Pending st)
    | env :: envs' =>
      match client_round window_size timeout send_out_of_order env st with
      | (sent, Raise e) => (sent, Aborted e)
      | (sent, Ok st') =>
        let '(more, o) := client_loop window_size timeout send_out_of_order envs' st' in
        (sent ++ more, o)
      end
    end
  else ([], Finished st).

(** [client], once the socket is connected: the opening,
    [client_socket.settimeout(timeout)], which raises for a negative
    timeout, and the loop. *)
Definition client (message : str) (window_size timeout : Z) (send_out_of_order : bool)
    (size_response : result bytes) (envs : list environment) : list bytes * outcome :=
  match client_connect message window_size size_response with
  | (sent, Raise e) => (sent, Aborted e)
  | (sent, Ok st) =>
    if timeout <? 0 then (sent, Aborted (ValueError "Timeout value out of range"))
    else
      let '(more, o) := client_loop window_size timeout send_out_of_order envs st in
      (sent ++ more, o)
  end.

End Client.

(** ** The objects that the constructors let through *)

(** The attributes of a [MessageHeader] after a constructor call that did
    not raise. *)
Definition valid_segment (m : API.MessageHeader) : Prop :=
  1 <= API.actual_window_size m <= 128
  /\ API.window_size m = API.actual_window_size m - 1
  /\ 0 <= API.package_num m < 2 * API.actual_window_size m
  /\ 0 < API.max_msg_size m <= API.DEFAULT_MAX_MSG_SIZE
  /\ len (API.data m) <= API.max_msg_size m - API.HEADER_MIN_LENGTH
  /\ API.total_length m = API.HEADER_MIN_LENGTH + len (API.data m).

(** The attributes of an [AckHeader] after a constructor call that did not
    raise. *)
Definition valid_ack (a : API.AckHeader) : Prop :=
  0 <= API.ack_max_msg_size a <= 65535 /\ 0 <= API.ack_number a <= 255.

(** A read that holds whole messages: every message but the last is as
    long as its first two bytes say, the last is at most that long. *)
Inductive framed : list bytes -> Prop :=
| framed_last (r : bytes) (t : Z) :
    API.unpack_total_message_size r = Ok t -> len r <= t -> framed [r]
| framed_cons (m : bytes) (msgs : list bytes) :
    API.unpack_total_message_size m = Ok (len m) -> framed msgs -> framed (m :: msgs).

(** A read that the inner [try] of [client_handler] gives up on: the
    separation raises, or one of the separated requests does not unpack. *)
Definition fails_to_decode (data : bytes) : Prop :=
  (exists e, Server.separate_requests data = Raise e)
  \/ (exists separated,
        Server.separate_requests data = Ok separated
        /\ Exists (fun separate => exists e, snd (API.MessageHeader_unpack separate) = Raise e)
                  separated).

(** The sender's retransmission clock has run out: the manual check of the
    clock fires, or [recv] raises the timeout of the socket. *)
Definition timeout_fires (timeout : Z) (env : Client.environment) (first : Q) : Prop :=
  timeout < Client.int_of (Client.time_check env - first)%Q
  \/ Client.recv env = Raise socket_timeout.

(** ** Packages and states of the scenarios *)

(** The object that [MessageHeader(total_length=None, window_size=w,
    package_num=n, data=payload)] builds. *)
Definition segment (w n : Z) (payload : bytes) : API.MessageHeader :=
  API.mkMessageHeader (API.HEADER_MIN_LENGTH + len payload) API.DEFAULT_MAX_MSG_SIZE
                      w (w - 1) n payload.

(** The size request that opens a connection. *)
Definition size_request (w : Z) : API.MessageHeader := segment w 0 [].

(** A connection with window size 4 whose size request was answered. *)
Definition after_handshake : Server.local_thread :=
  Server.mk_local_thread true 100 4 0 [] [].




(** The bytes of a package, the empty bytes object if it cannot be packed. *)
Definition wire (m : API.MessageHeader) : bytes :=
  match API.MessageHeader_pack m with
  | Ok b => b
  | Raise _ => []
  end.

(** Two whole packages of 10 and 14 bytes. *)
Definition ten_bytes : bytes := wire (segment 4 1 [x61; x62; x63; x64]).
Definition fourteen_bytes : bytes :=
  wire (segment 4 2 [x65; x66; x67; x68; x69; x6a; x6b; x6c]).

(** The reads of a connection with window size 4: the size request, then
    the packages 2, 1 and 3 in this order of arrival. *)
Definition arrival_2_1_3 : list bytes :=
  [wire (size_request 4); wire (segment 4 2 [x62]); wire (segment 4 1 [x61]);
   wire (segment 4 3 [x63])].

(** The reads up to the arrival of package 1, and package 1 once more. *)
Definition arrival_2_1 : list bytes :=
  [wire (size_request 4); wire (segment 4 2 [x62]); wire (segment 4 1 [x61])].

(** The answer of the console to the question for the maximum size. *)
Definition console_100 : result Z := Ok 100.

(** A read of 15 bytes whose first two bytes announce 20. *)
Definition short_read : bytes :=
  [x00; x14; xff; xfb; x03; x01; x61; x62; x63; x64; x65; x66; x67; x68; x69].

(** A header of six bytes whose window field is out of range. *)
Definition bad_window : bytes := [x00; x06; xff; xfb; xc8; x00].

(** The message [abcdefgh]. *)
Definition abcdefgh : str := [97; 98; 99; 100; 101; 102; 103; 104].

(** Its encoding. *)
Definition abcdefgh_bytes : bytes := [x61; x62; x63; x64; x65; x66; x67; x68].

(** The sender after the size request of a window of 2 was answered with
    the ceiling 8. *)
Definition connected : Client.client_state :=
  Client.mk_client_state [abcdefgh] [] 0 None.

(** The ack [AckHeader(0, 8)] in bytes. *)
Definition ack_ceiling_8 : bytes := [x00; x08; x00].

(** The ack [AckHeader(0, 3)] in bytes. *)
Definition ack_ceiling_3 : bytes := [x00; x03; x00].

(** A sender with window size 2 that waits for the acks of packages 1 and 2. *)
Definition two_outstanding : Client.client_state :=
  Client.mk_client_state [] [segment 2 1 [x61]; segment 2 2 [x62]] 2 (Some (10 # 1)%Q).

(** A round in which [recv] runs into the socket timeout. *)
Definition silence : Client.environment :=
  Client.mk_environment 1 (11 # 1)%Q (12 # 1)%Q (Raise socket_timeout) (13 # 1)%Q.

(** ** The order of the buffer *)

(** The test of [buffer_request] that places a request before a package:
    [request_number] comes before [package_number] in the cycle of the
    numbers that starts behind [last_acked]. *)
Definition goes_before (last_acked window_size request_number package_number : Z) : bool :=
  if (0 <=? last_acked) && (last_acked <? window_size) then
    (last_acked <? request_number) && (request_number <? package_number)
  else
    ((last_acked <? request_number) && (request_number <? package_number))
    || ((package_number <? last_acked) && (last_acked <? request_number))
    || ((request_number <? package_number) && (package_number <? last_acked)).

(** A number that the connection can still take: it lies in the cycle of
    the numbers and is not taken for already acked. *)
Definition fresh (lt : Server.local_thread) (n : Z) : Prop :=
  0 <= n < 2 * Server.window_size lt
  /\ Server.already_acked (Server.last_acked lt) (Server.window_size lt) n = false.

(** The buffer of a connection is in order when every package goes before
    the packages behind it. *)
Definition in_order (lt : Server.local_thread) : Prop :=
  StronglySorted
    (fun p q => goes_before (Server.last_acked lt) (Server.window_size lt)
                            (API.package_num p) (API.package_num q) = true)
    (Server.buffer lt).

(** What holds of a connection once its first request was processed. *)
Definition receiver_invariant (lt : Server.local_thread) : Prop :=
  Server.decided_size lt = true
  /\ 1 <= Server.window_size lt
  /\ -1 <= Server.last_acked lt < 2 * Server.window_size lt
  /\ Forall (fun p => fresh lt (API.package_num p)) (Server.buffer lt)
  /\ in_order lt.

(** The requests carry the numbers that follow [last_acked], one after the
    other. *)
Fixpoint numbered (last_acked window_size : Z) (requests : list API.MessageHeader) : Prop :=
  match requests with
  | [] => True
  | request :: requests' =>
    API.package_num request = (last_acked + 1) mod (2 * window_size)
    /\ numbered (API.package_num request) window_size requests'
  end.

(** ** The sender and the two sides together *)

(** What holds of the sender between two rounds of its loop: the packages
    of the window were let through by the constructor and carry the
    window size of the sender, they are no more than the window size, the
    clock is set while packages wait, and the last number lies in the
    cycle of the numbers. *)
Definition sender_invariant (window_size : Z) (st : Client.client_state) : Prop :=
  1 <= window_size <= 128
  /\ Forall (fun p => valid_segment p /\ API.actual_window_size p = window_size)
            (Client.sliding_window st)
  /\ len (Client.sliding_window st) <= window_size
  /\ (Client.sliding_window st <> [] -> Client.first_msg_sent st <> None)
  /\ 0 <= Client.package_number st < 2 * window_size.

(** A package that carries one of the parts of the message: its data are
    the bytes of the part, it has the default maximum message size and
    its data fit below it. *)
Definition carries_part (parts : list str) (package : API.MessageHeader) : Prop :=
  (exists part, part ∈ parts /\ utf8_encode part = Ok (API.data package))
  /\ API.max_msg_size package = API.DEFAULT_MAX_MSG_SIZE
  /\ len (API.data package) <= API.DEFAULT_MAX_MSG_SIZE - API.HEADER_MIN_LENGTH.

(** Bytes on the wire that are such a package. *)
Definition segment_of (parts : list str) (packed : bytes) : Prop :=
  exists package, API.MessageHeader_pack package = Ok packed /\ carries_part parts package.

(** The parts that are still to be sent are the last of the parts, and
    the window holds packages that carry parts. *)
Definition sends_parts (parts : list str) (st : Client.client_state) : Prop :=
  Client.divided_msgs st `suffix_of` parts
  /\ Forall (carries_part parts) (Client.sliding_window st).

(** A round in which [recv] returns [response] at once: every reading of
    the clock is 0. *)
Definition prompt (response : bytes) : Client.environment :=
  Client.mk_environment 1 (0 # 1)%Q (0 # 1)%Q (Ok response) (0 # 1)%Q.

(** One round of the sender over a channel that loses nothing: the one
    package that the round sends reaches the receiver as one read, and
    the response of the receiver is what [recv] returns in this round.
    A round that does not go this way has no result. *)
Definition exchange_round (window_size timeout : Z) (policy : result Z)
    (st : Client.client_state) (lt : Server.local_thread)
  : option (Client.client_state * Server.local_thread) :=
  match fst (Client.send_phase window_size false (prompt []) st) with
  | [packed] =>
    match Server.client_handler_round policy lt packed with
    | Server.Served lt' (Some response) =>
      match Client.client_round window_size timeout false (prompt response) st with
      | (_, Ok st') => Some (st', lt')
      | (_, Raise _) => None
      end
    | _ => None
    end
  | _ => None
  end.

(** So many rounds, one after the other. *)
Fixpoint exchange (rounds : nat) (window_size timeout : Z) (policy : result Z)
    (st : Client.client_state) (lt : Server.local_thread)
  : option (Client.client_state * Server.local_thread) :=
  match rounds with
  | O => Some (st, lt)
  | S rounds' =>
    match exchange_round window_size timeout policy st lt with
    | Some (st', lt') => exchange rounds' window_size timeout policy st' lt'
    | None => None
    end
  end.

(** The opening over the same channel: the size request reaches a new
    connection, and its response is what the sender receives. *)
Definition open_session (message : str) (window_size : Z) (policy : result Z)
  : option (Client.client_state * Server.local_thread) :=
  match fst (Client.client_connect message window_size (Raise socket_timeout)) with
  | [packed] =>
    match Server.client_handler_round policy Server.new_local_thread packed with
    | Server.Served lt (Some response) =>
      match snd (Client.client_connect message window_size (Ok response)) with
      | Ok st => Some (st, lt)
      | Raise _ => None
      end
    | _ => None
    end
  | _ => None
  end.

(** A text that [encode] takes. *)
Definition encodable (s : str) : Prop :=
  Forall (fun cp => 0 <= cp <= 1114111 /\ is_surrogate cp = false) s.

(** * Properties *)

(** Comparisons that the code evaluates to a boolean, read as propositions. *)
Ltac prop_of_bool :=
  repeat match goal with
  | H : negb _ = true |- _ => apply negb_true_iff in H
  | H : negb _ = false |- _ => apply negb_false_iff in H
  | H : _ && _ = true |- _ => apply andb_true_iff in H; destruct H
  | H : _ || _ = false |- _ => apply orb_false_iff in H; destruct H
  | H : _ && _ = false |- _ => apply andb_false_iff in H; destruct H
  | H : _ || _ = true |- _ => apply orb_true_iff in H; destruct H
  | H : (_ <? _) = true |- _ => apply Z.ltb_lt in H
  | H : (_ <? _) = false |- _ => apply Z.ltb_ge in H
  | H : (_ <=? _) = true |- _ => apply Z.leb_le in H
  | H : (_ <=? _) = false |- _ => apply Z.leb_gt in H
  | H : (_ =? _) = true |- _ => apply Z.eqb_eq in H
  | H : (_ =? _) = false |- _ => apply Z.eqb_neq in H
  end.

(** Linear arithmetic with the quotients and remainders of [//] and [%]. *)
Ltac lia_div := Z.to_euclidean_division_equations; lia.

(** Decide a comparison of the code from what is known about its operands. *)
Ltac decide_test b :=
  let E := fresh "E" in
  destruct b eqn:E; prop_of_bool; try (exfalso; lia).

(** ** Bytes and [struct] *)

Section Struct.

Lemma len_nonneg {A} (l : list A) : 0 <= len l.
Proof. unfold len. lia. Qed.

Lemma len_cons {A} (x : A) (l : list A) : len (x :: l) = 1 + len l.
Proof. unfold len. simpl. lia. Qed.

Lemma len_app {A} (l k : list A) : len (l ++ k) = len l + len k.
Proof. unfold len. rewrite length_app. lia. Qed.

Lemma len_nil {A} : len (@nil A) = 0.
Proof. reflexivity. Qed.

Lemma byte_to_Z_range b : 0 <= byte_to_Z b < 256.
Proof. unfold byte_to_Z. pose proof (Byte.to_N_bounded b). lia. Qed.

Lemma byte_of_to_Z b : byte_of_Z (byte_to_Z b) = Some b.
Proof.
  unfold byte_of_Z, byte_to_Z. rewrite N2Z.id, Byte.of_to_N.
  decide_test (0 <=? Z.of_N (Byte.to_N b)). reflexivity.
Qed.

Lemma pack_B_ok v : 0 <= v < 256 -> exists b, pack_B v = Ok [b] /\ byte_to_Z b = v.
Proof.
  intros Hv. unfold pack_B, byte_of_Z.
  decide_test (0 <=? v).
  destruct (Byte.of_N (Z.to_N v)) as [b|] eqn:Eb.
  - exists b. split; [reflexivity|].
    apply Byte.to_of_N in Eb. unfold byte_to_Z. lia.
  - apply Byte.of_N_None_iff in Eb. exfalso. lia.
Qed.

Lemma pack_H_ok v :
  0 <= v < 65536 -> exists hi lo, pack_H v = Ok [hi; lo] /\ unpack_H hi lo = v.
Proof.
  intros Hv. unfold pack_H.
  decide_test ((0 <=? v) && (v <? 65536)).
  destruct (pack_B_ok (v / 256)) as (hi & Hhi & Ehi); [lia_div|].
  destruct (pack_B_ok (v mod 256)) as (lo & Hlo & Elo); [lia_div|].
  exists hi, lo. rewrite Hhi, Hlo. split; [reflexivity|].
  unfold unpack_H. rewrite Ehi, Elo. lia_div.
Qed.

Lemma unpack_H_range hi lo : 0 <= unpack_H hi lo < 65536.
Proof.
  unfold unpack_H.
  pose proof (byte_to_Z_range hi). pose proof (byte_to_Z_range lo). lia.
Qed.

End Struct.

(** ** The header codec *)

Section Codec.
Import API.

(** What a successful call of the constructor has checked. *)
Lemma MessageHeader_init_inv tl w pn mms d m :
  snd (MessageHeader_init tl w pn mms d) = Ok m ->
  m = mkMessageHeader (HEADER_MIN_LENGTH + len d) (max_msg_size m) w (w - 1) pn d
  /\ 1 <= w <= 128 /\ 0 <= pn < 2 * w
  /\ 0 < max_msg_size m <= 65531
  /\ HEADER_MIN_LENGTH + len d <= max_msg_size m.
Proof.
  unfold MessageHeader_init, DEFAULT_MAX_MSG_SIZE, DEFAULT_HEADER_MAX_LENGTH,
    DEFAULT_MAX_WINDOW_SIZE, HEADER_MIN_LENGTH.
  set (mms' := if (mms <=? 2 ^ 16 - 1 - 4) && (0 <? mms) then mms else 2 ^ 16 - 1 - 4).
  assert (Hm : 0 < mms' <= 65531).
  { subst mms'. destruct ((mms <=? 2 ^ 16 - 1 - 4) && (0 <? mms)) eqn:E;
      prop_of_bool; lia. }
  assert (Ht : exists wn,
    (match tl with
     | Some t => if negb (t =? 6 + len d) then (6 + len d, true) else (t, false)
     | None => (6 + len d, false)
     end) = (6 + len d, wn)).
  { destruct tl as [t|]; [|eauto].
    destruct (negb (t =? 6 + len d)) eqn:E; prop_of_bool; subst; eauto. }
  destruct Ht as [wn ->]. simpl.
  repeat case_match; try discriminate; prop_of_bool.
  intros [= <-]. simpl. repeat split; try lia.
Qed.

(** The constructor on arguments that pass its checks. *)
Lemma MessageHeader_init_valid w pn mms d :
  1 <= w <= 128 -> 0 <= pn < 2 * w -> 0 < mms <= 65531 ->
  HEADER_MIN_LENGTH + len d <= mms ->
  MessageHeader_init (Some (HEADER_MIN_LENGTH + len d)) w pn mms d
  = (false, Ok (mkMessageHeader (HEADER_MIN_LENGTH + len d) mms w (w - 1) pn d)).
Proof.
  intros Hw Hpn Hmms Hd. pose proof (len_nonneg d) as Hl.
  unfold MessageHeader_init, DEFAULT_MAX_MSG_SIZE, DEFAULT_HEADER_MAX_LENGTH,
    DEFAULT_MAX_WINDOW_SIZE, HEADER_MIN_LENGTH in *.
  rewrite Z.eqb_refl. simpl negb. cbv iota.
  decide_test ((mms <=? 2 ^ 16 - 1 - 4) && (0 <? mms)).
  decide_test (negb ((6 <=? 6 + len d) && (6 + len d <=? mms))).
  decide_test ((w <? 1) || (2 ^ 7 <? w)).
  decide_test ((pn <? 0) || (2 * w <=? pn)).
  decide_test (mms - 6 <? len d).
  reflexivity.
Qed.

Lemma MessageHeader_unpack_cons t1 t0 m1 m0 w p payload :
  MessageHeader_unpack (t1 :: t0 :: m1 :: m0 :: w :: p :: payload)
  = MessageHeader_init (Some (unpack_H t1 t0)) (byte_to_Z w + 1)
                       (byte_to_Z p) (unpack_H m1 m0) payload.
Proof.
  unfold MessageHeader_unpack, HEADER_MIN_LENGTH.
  rewrite !len_cons. pose proof (len_nonneg payload).
  decide_test (1 + (1 + (1 + (1 + (1 + (1 + len payload))))) <? 6).
  reflexivity.
Qed.

Lemma MessageHeader_round_trip_of_inv m :
  m = mkMessageHeader (HEADER_MIN_LENGTH + len (data m)) (max_msg_size m)
                      (actual_window_size m) (actual_window_size m - 1)
                      (package_num m) (data m) ->
  1 <= actual_window_size m <= 128 ->
  0 <= package_num m < 2 * actual_window_size m ->
  0 < max_msg_size m <= 65531 ->
  HEADER_MIN_LENGTH + len (data m) <= max_msg_size m ->
  exists b, MessageHeader_pack m = Ok b /\ MessageHeader_unpack b = (false, Ok m).
Proof.
  intros Hm Hw Hpn Hmms Hd. pose proof (len_nonneg (data m)) as Hl.
  unfold HEADER_MIN_LENGTH in *.
  destruct (pack_H_ok (6 + len (data m))) as (t1 & t0 & Ht & Et); [lia|].
  destruct (pack_H_ok (max_msg_size m)) as (m1 & m0 & Hmm & Emm); [lia|].
  destruct (pack_B_ok (actual_window_size m - 1)) as (w & Hwb & Ew); [lia|].
  destruct (pack_B_ok (package_num m)) as (p & Hp & Ep); [lia|].
  exists (t1 :: t0 :: m1 :: m0 :: w :: p :: data m). split.
  - unfold MessageHeader_pack. rewrite Hm. simpl.
    unfold HEADER_MIN_LENGTH. rewrite Ht, Hmm, Hwb, Hp. reflexivity.
  - rewrite MessageHeader_unpack_cons, Et, Emm, Ew, Ep.
    replace (actual_window_size m - 1 + 1) with (actual_window_size m) by lia.
    pose proof (MessageHeader_init_valid (actual_window_size m) (package_num m)
                  (max_msg_size m) (data m) Hw Hpn Hmms Hd) as Hv.
    unfold HEADER_MIN_LENGTH in Hv. rewrite Hv, <- Hm. reflexivity.
Qed.

End Codec.

Section CodecClaims.
Import API.

Lemma constructed_valid tl w pn mms d m :
  snd (MessageHeader_init tl w pn mms d) = Ok m -> valid_segment m.
Proof.
  intros H. apply MessageHeader_init_inv in H.
  destruct H as (Hm & Hw & Hpn & Hmms & Hd).
  unfold valid_segment, DEFAULT_MAX_MSG_SIZE, DEFAULT_HEADER_MAX_LENGTH,
    HEADER_MIN_LENGTH in *.
  rewrite Hm. simpl. rewrite Hm in Hmms, Hd. simpl in Hmms, Hd. lia.
Qed.

Lemma valid_segment_eta m :
  valid_segment m ->
  m = mkMessageHeader (HEADER_MIN_LENGTH + len (data m)) (max_msg_size m)
                      (actual_window_size m) (actual_window_size m - 1)
                      (package_num m) (data m).
Proof.
  intros (_ & Hws & _ & _ & _ & Htl). destruct m; simpl in *. congruence.
Qed.

Lemma valid_constructed m :
  valid_segment m ->
  MessageHeader_init None (actual_window_size m) (package_num m)
                     (max_msg_size m) (data m) = (false, Ok m).
Proof.
  intros Hv. pose proof (valid_segment_eta m Hv) as Hm.
  destruct Hv as (Hw & _ & Hpn & Hmms & Hd & _).
  unfold DEFAULT_MAX_MSG_SIZE, DEFAULT_HEADER_MAX_LENGTH in Hmms.
  pose proof (MessageHeader_init_valid (actual_window_size m) (package_num m)
                (max_msg_size m) (data m) Hw Hpn) as Hi.
  rewrite <- Hm in Hi. rewrite <- Hi; [|lia|lia].
  unfold MessageHeader_init. rewrite Z.eqb_refl. reflexivity.
Qed.

Lemma AckHeader_init_inv an mms a :
  AckHeader_init an mms = Ok a -> a = mkAckHeader mms an /\ valid_ack a.
Proof.
  unfold AckHeader_init, valid_ack.
  repeat case_match; try discriminate; prop_of_bool.
  intros [= <-]. simpl. split; [reflexivity | lia].
Qed.

Lemma AckHeader_init_valid an mms :
  0 <= mms <= 65535 -> 0 <= an <= 255 ->
  AckHeader_init an mms = Ok (mkAckHeader mms an).
Proof.
  intros Hm Ha. unfold AckHeader_init.
  decide_test ((mms <? 0) || (2 ^ 16 <=? mms)).
  decide_test ((an <? 0) || (2 ^ 8 <=? an)).
  reflexivity.
Qed.

Lemma MessageHeader_round_trip m :
  valid_segment m ->
  exists b, MessageHeader_pack m = Ok b /\ MessageHeader_unpack b = (false, Ok m).
Proof.
  intros Hv. pose proof (valid_segment_eta m Hv) as Hm.
  destruct Hv as (Hw & _ & Hpn & Hmms & Hd & _).
  unfold DEFAULT_MAX_MSG_SIZE, DEFAULT_HEADER_MAX_LENGTH in Hmms.
  apply MessageHeader_round_trip_of_inv; try assumption; lia.
Qed.

Lemma AckHeader_round_trip a :
  valid_ack a -> exists b, AckHeader_pack a = Ok b /\ AckHeader_unpack b = Ok a.
Proof.
  intros [Hm Ha].
  destruct (pack_H_ok (ack_max_msg_size a)) as (m1 & m0 & Hp & Em); [lia|].
  destruct (pack_B_ok (ack_number a)) as (n & Hn & En); [lia|].
  exists [m1; m0; n]. split.
  - unfold AckHeader_pack. rewrite Hp, Hn. reflexivity.
  - unfold AckHeader_unpack. simpl. rewrite Em, En.
    rewrite AckHeader_init_valid by assumption. destruct a; reflexivity.
Qed.

(** C3.  Packing a valid data segment and unpacking the bytes gives the
    segment back, with the same total length, maximum message size,
    window size, package number and payload, and no warning; packing a
    valid ack and unpacking the bytes gives the ack back. *)
Theorem codec_round_trip :
  (forall m, valid_segment m ->
     exists b, MessageHeader_pack m = Ok b /\ MessageHeader_unpack b = (false, Ok m))
  /\ (forall a, valid_ack a ->
       exists b, AckHeader_pack a = Ok b /\ AckHeader_unpack b = Ok a).
Proof.
  split; [exact MessageHeader_round_trip | exact AckHeader_round_trip].
Qed.

End CodecClaims.

Lemma codec_round_trip_witness :
  valid_segment (segment 4 2 [x62])
  /\ valid_ack (API.mkAckHeader 100 3)
  /\ (exists b, API.MessageHeader_pack (segment 4 2 [x62]) = Ok b
                /\ API.MessageHeader_unpack b = (false, Ok (segment 4 2 [x62])))
  /\ (exists b, API.AckHeader_pack (API.mkAckHeader 100 3) = Ok b
                /\ API.AckHeader_unpack b = Ok (API.mkAckHeader 100 3)).
Proof.
  assert (Hs : valid_segment (segment 4 2 [x62])).
  { unfold valid_segment. vm_compute. intuition discriminate. }
  assert (Ha : valid_ack (API.mkAckHeader 100 3)).
  { unfold valid_ack. vm_compute. intuition discriminate. }
  split; [exact Hs|]. split; [exact Ha|]. split.
  - exact (proj1 codec_round_trip _ Hs).
  - exact (proj2 codec_round_trip _ Ha).
Defined.

Section UnpackClaims.
Import API.

(** The outcome of the constructor does not depend on the total length
    it is given. *)
Lemma MessageHeader_init_total_length tl tl' w pn mms d :
  snd (MessageHeader_init tl w pn mms d) = snd (MessageHeader_init tl' w pn mms d).
Proof.
  unfold MessageHeader_init.
  destruct tl as [t|], tl' as [t'|]; simpl;
    repeat match goal with
           | |- context [negb (?x =? ?y)] =>
             let E := fresh in destruct (x =? y) eqn:E; prop_of_bool; subst; simpl
           end; reflexivity.
Qed.

(** The warning of the constructor: the total length it is given is not
    the one it computes. *)
Lemma MessageHeader_init_warns t w pn mms d :
  fst (MessageHeader_init (Some t) w pn mms d) = true <-> t <> HEADER_MIN_LENGTH + len d.
Proof.
  unfold MessageHeader_init.
  destruct (t =? HEADER_MIN_LENGTH + len d) eqn:E; prop_of_bool; simpl;
    split; intros; congruence.
Qed.

Lemma MessageHeader_unpack_short b :
  len b < HEADER_MIN_LENGTH ->
  MessageHeader_unpack b = (false, Raise (ValueError "data is too short to be a header")).
Proof.
  intros H. unfold MessageHeader_unpack.
  decide_test (len b <? HEADER_MIN_LENGTH). reflexivity.
Qed.

Lemma six_bytes (b : bytes) :
  HEADER_MIN_LENGTH <= len b ->
  exists t1 t0 m1 m0 w p payload, b = t1 :: t0 :: m1 :: m0 :: w :: p :: payload.
Proof.
  unfold HEADER_MIN_LENGTH, len. intros H.
  destruct b as [|t1 [|t0 [|m1 [|m0 [|w [|p payload]]]]]]; simpl in H; try lia.
  eauto 10.
Qed.

(** C10.  When [MessageHeader.unpack] succeeds on [b], the total length
    of the result is [len(b)] and its payload is [b[6:]]; the total
    length written in the first two bytes only decides whether the
    warning is issued: replacing these two bytes changes neither the
    success of the call nor the segment it returns. *)
Theorem unpack_recomputes_total_length (b : bytes) (warned : bool) (m : MessageHeader) :
  MessageHeader_unpack b = (warned, Ok m) ->
  HEADER_MIN_LENGTH <= len b
  /\ total_length m = len b
  /\ data m = drop 6 b
  /\ (forall t, unpack_total_message_size b = Ok t -> (warned = true <-> t <> len b))
  /\ (forall x y, snd (MessageHeader_unpack (x :: y :: drop 2 b)) = Ok m).
Proof.
  intros H.
  destruct (Z.lt_ge_cases (len b) HEADER_MIN_LENGTH) as [Hs|Hl].
  { rewrite (MessageHeader_unpack_short b Hs) in H. discriminate. }
  split; [exact Hl|].
  destruct (six_bytes b Hl) as (t1 & t0 & m1 & m0 & w & p & payload & ->).
  rewrite MessageHeader_unpack_cons in H.
  pose proof (f_equal snd H) as Hm. simpl in Hm.
  pose proof (f_equal fst H) as Hw. simpl in Hw.
  apply MessageHeader_init_inv in Hm. destruct Hm as (Hm & _).
  split; [|split; [|split]].
  - rewrite Hm. simpl. unfold HEADER_MIN_LENGTH. rewrite !len_cons. lia.
  - rewrite Hm. reflexivity.
  - intros t Ht. unfold unpack_total_message_size in Ht.
    decide_test (len (t1 :: t0 :: m1 :: m0 :: w :: p :: payload) <? HEADER_MIN_LENGTH).
    injection Ht as <-. rewrite <- Hw, MessageHeader_init_warns.
    unfold HEADER_MIN_LENGTH. rewrite !len_cons. split; intros; lia.
  - intros x y. simpl drop. rewrite MessageHeader_unpack_cons.
    rewrite (MessageHeader_init_total_length _ (Some (unpack_H t1 t0))), H.
    reflexivity.
Qed.

End UnpackClaims.

Lemma unpack_recomputes_total_length_witness :
  API.MessageHeader_unpack short_read
  = (true, Ok (API.mkMessageHeader 15 65531 4 3 1 (drop 6 short_read)))
  /\ API.total_length (API.mkMessageHeader 15 65531 4 3 1 (drop 6 short_read))
     = len short_read.
Proof.
  assert (H : API.MessageHeader_unpack short_read
              = (true, Ok (API.mkMessageHeader 15 65531 4 3 1 (drop 6 short_read)))).
  { vm_compute. reflexivity. }
  split; [exact H|].
  exact (proj1 (proj2 (unpack_recomputes_total_length _ _ _ H))).
Defined.

(** ** The separation of the requests of one read *)

Section Separation.
Import API Server.

Lemma unpack_total_message_size_app m x t :
  unpack_total_message_size m = Ok t ->
  unpack_total_message_size (m ++ x) = Ok t /\ HEADER_MIN_LENGTH <= len m.
Proof.
  unfold unpack_total_message_size. rewrite len_app.
  pose proof (len_nonneg x).
  destruct (len m <? HEADER_MIN_LENGTH) eqn:E; [discriminate|]. prop_of_bool.
  decide_test (len m + len x <? HEADER_MIN_LENGTH).
  destruct m as [|t1 [|t0 m']]; try discriminate. simpl. intros ->.
  split; [reflexivity | assumption].
Qed.

Lemma framed_nonempty msgs : framed msgs -> 0 < len (concat msgs).
Proof.
  intros [r t Hr _ | m rest Hm _]; simpl; rewrite len_app.
  - destruct (unpack_total_message_size_app r [] t Hr) as [_ Hl].
    unfold HEADER_MIN_LENGTH, len in *. simpl. lia.
  - destruct (unpack_total_message_size_app m [] _ Hm) as [_ Hl].
    unfold HEADER_MIN_LENGTH in Hl. pose proof (len_nonneg (concat rest)). lia.
Qed.

(** The bytes of the message at hand go to the last entry of [separated]. *)
Lemma separate_loop_fill bs : forall iter data total done cur counter,
  counter + len bs <= total ->
  separate_loop (bs ++ iter) data total (done ++ [cur]) counter (length done)
  = separate_loop iter data total (done ++ [cur ++ bs]) (counter + len bs) (length done).
Proof.
  induction bs as [|b bs IH]; intros iter data total done cur counter Hle.
  - rewrite app_nil_r, len_nil, Z.add_0_r. reflexivity.
  - rewrite len_cons in Hle. pose proof (len_nonneg bs).
    simpl. decide_test (counter <? total).
    unfold append_at. rewrite list_lookup_middle by reflexivity. simpl.
    rewrite insert_app_r_alt by lia. rewrite Nat.sub_diag. simpl.
    rewrite IH by lia. rewrite <- app_assoc, len_cons. simpl.
    f_equal. lia.
Qed.

Lemma separate_loop_fill_end bs data total done cur counter :
  counter + len bs <= total ->
  separate_loop bs data total (done ++ [cur]) counter (length done)
  = Ok (done ++ [cur ++ bs]).
Proof.
  intros Hle.
  pose proof (separate_loop_fill bs [] data total done cur counter Hle) as H.
  rewrite app_nil_r in H. exact H.
Qed.

(** The first byte after a complete message opens a new entry. *)
Lemma separate_loop_next b iter data total done cur total' :
  unpack_total_message_size (drop (Z.to_nat total) data) = Ok total' ->
  separate_loop (b :: iter) data total (done ++ [cur]) total (length done)
  = separate_loop iter (drop (Z.to_nat total) data) total'
                  ((done ++ [cur]) ++ [[b]]) 1 (length (done ++ [cur])).
Proof.
  intros Hu. simpl. rewrite Z.ltb_irrefl.
  destruct (unpack_total_message_size_app _ [] _ Hu) as [_ Hl].
  unfold HEADER_MIN_LENGTH in Hl.
  decide_test (0 <? len (drop (Z.to_nat total) data)).
  rewrite Hu. simpl. unfold append_at.
  replace (S (length done)) with (length (done ++ [cur])) by (rewrite length_app; simpl; lia).
  rewrite list_lookup_middle by reflexivity. simpl.
  rewrite insert_app_r_alt by lia. rewrite Nat.sub_diag. reflexivity.
Qed.

Lemma separate_loop_framed msgs :
  framed msgs -> forall done cur rem,
  separate_loop (rem ++ concat msgs) (cur ++ rem ++ concat msgs) (len (cur ++ rem))
                (done ++ [cur]) (len cur) (length done)
  = Ok (done ++ [cur ++ rem] ++ msgs).
Proof.
  induction 1 as [r t Hr Hle | m msgs Hm Hf IH]; intros done cur rem.
  - rewrite separate_loop_fill by (rewrite len_app; lia).
    rewrite <- len_app. simpl concat. rewrite app_nil_r.
    destruct (unpack_total_message_size_app _ [] _ Hr) as [_ Hl].
    unfold HEADER_MIN_LENGTH in Hl.
    destruct r as [|b r']; [simpl in Hl; unfold len in Hl; simpl in Hl; lia|].
    assert (Hd : drop (Z.to_nat (len (cur ++ rem))) (cur ++ rem ++ b :: r') = b :: r').
    { rewrite app_assoc. apply drop_app_length'. unfold len. lia. }
    rewrite (separate_loop_next b r' _ _ done (cur ++ rem) t) by (rewrite Hd; exact Hr).
    rewrite Hd. rewrite len_cons in Hle.
    rewrite (separate_loop_fill_end r' _ t (done ++ [cur ++ rem]) [b] 1) by lia.
    simpl. rewrite <- !app_assoc. reflexivity.
  - rewrite separate_loop_fill by (rewrite len_app; lia).
    rewrite <- len_app. simpl concat.
    destruct (unpack_total_message_size_app _ (concat msgs) _ Hm) as [Hu Hl].
    unfold HEADER_MIN_LENGTH in Hl.
    destruct m as [|b m']; [unfold len in Hl; simpl in Hl; lia|].
    assert (Hd : drop (Z.to_nat (len (cur ++ rem)))
                      (cur ++ rem ++ b :: m' ++ concat msgs)
                 = b :: m' ++ concat msgs).
    { rewrite app_assoc. apply drop_app_length'. unfold len. lia. }
    rewrite <- !app_comm_cons in *.
    rewrite (separate_loop_next b (m' ++ concat msgs) _ _ done (cur ++ rem) (len (b :: m')))
      by (rewrite Hd; exact Hu).
    rewrite Hd.
    pose proof (IH (done ++ [cur ++ rem]) [b] m') as IH'.
    simpl in IH'. change (len [b]) with 1 in IH'.
    simpl. rewrite IH'. rewrite <- !app_assoc. reflexivity.
Qed.

(** C4, as the code has it.  A read made of whole messages, the last of
    which may be shorter than it announces, is separated into exactly
    these messages, in their order. *)
Theorem separate_requests_framed (msgs : list bytes) :
  framed msgs -> separate_requests (concat msgs) = Ok msgs.
Proof.
  intros Hf. destruct Hf as [r t Hr Hle | m msgs Hm Hf].
  - simpl. rewrite app_nil_r. unfold separate_requests. rewrite Hr. simpl.
    decide_test (t <? len r). reflexivity.
  - simpl. unfold separate_requests.
    destruct (unpack_total_message_size_app _ (concat msgs) _ Hm) as [-> _].
    simpl. pose proof (framed_nonempty msgs Hf). rewrite len_app.
    decide_test (len m <? len m + len (concat msgs)).
    exact (separate_loop_framed msgs Hf [] [] m).
Qed.

End Separation.

Lemma separate_requests_framed_witness :
  framed [ten_bytes; fourteen_bytes]
  /\ len ten_bytes = 10 /\ len fourteen_bytes = 14
  /\ Server.separate_requests (concat [ten_bytes; fourteen_bytes])
     = Ok [ten_bytes; fourteen_bytes]
  /\ framed [ten_bytes; short_read]
  /\ Server.separate_requests (concat [ten_bytes; short_read])
     = Ok [ten_bytes; short_read].
Proof.
  assert (H : framed [ten_bytes; fourteen_bytes]).
  { apply framed_cons; [vm_compute; reflexivity|].
    apply (framed_last fourteen_bytes 14); [vm_compute; reflexivity|].
    vm_compute. discriminate. }
  assert (H' : framed [ten_bytes; short_read]).
  { apply framed_cons; [vm_compute; reflexivity|].
    apply (framed_last short_read 20); [vm_compute; reflexivity|].
    vm_compute. discriminate. }
  split; [exact H|]. split; [reflexivity|]. split; [reflexivity|].
  split; [exact (separate_requests_framed _ H)|].
  split; [exact H'|].
  exact (separate_requests_framed _ H').
Defined.

(** C4, as stated: a read of 15 bytes that announces 20 is not refused;
    it comes back as one request. *)
Lemma separate_requests_short_read :
  len short_read = 15
  /\ API.unpack_total_message_size short_read = Ok 20
  /\ Server.separate_requests short_read = Ok [short_read].
Proof. repeat split; vm_compute; reflexivity. Qed.

(** ** The receiver: admission into the buffer *)

Section Admission.
Import API Server.


End Admission.

(** ** The receiver: draining the buffer *)

Section Drain.
Import API Server.

(** The rounds that [drain_loop] is given are enough: a larger bound
    changes nothing. *)
Lemma drain_loop_enough f1 : forall f2 i lt,
  (length (buffer lt) - i <= f1)%nat -> (length (buffer lt) - i <= f2)%nat ->
  drain_loop f1 i lt = drain_loop f2 i lt.
Proof.
  induction f1 as [|f1 IH]; intros f2 i lt H1 H2.
  - destruct f2 as [|f2]; [reflexivity|]. simpl.
    rewrite lookup_ge_None_2 by lia. reflexivity.
  - destruct f2 as [|f2]; simpl.
    + rewrite lookup_ge_None_2 by lia. reflexivity.
    + destruct (buffer lt !! i) as [package|] eqn:El; [|reflexivity].
      repeat case_match; try reflexivity.
      apply IH; simpl; rewrite length_delete by (rewrite El; eauto); lia.
Qed.

Lemma take_delete_same {A} (l : list A) : forall i, take i (delete i l) = take i l.
Proof. induction l as [|x l IH]; intros [|i]; simpl; f_equal; auto. Qed.

(** The loop never touches the entries before the position of its
    iterator. *)
Lemma drain_loop_prefix fuel : forall i lt,
  take i (buffer (fst (drain_loop fuel i lt))) = take i (buffer lt).
Proof.
  induction fuel as [|fuel IH]; intros i lt; simpl; [reflexivity|].
  destruct (buffer lt !! i) as [package|]; [|reflexivity].
  destruct (2 * window_size lt =? 0); [reflexivity|].
  destruct (package_num package =? (last_acked lt + 1) mod (2 * window_size lt));
    [|reflexivity].
  destruct (data_to_message package) as [text|e]; simpl.
  - pose proof (IH (S i) (set_last_acked (package_num package)
                            (set_message (message lt ++ text)
                               (set_buffer (delete i (buffer lt)) lt)))) as H.
    simpl in H. apply (f_equal (take i)) in H.
    rewrite !take_take, !Nat.min_l in H by lia.
    rewrite H. apply take_delete_same.
  - apply take_delete_same.
Qed.

(** One round of the loop on a package that is the next one in order. *)
Lemma drain_loop_round fuel i lt package text :
  buffer lt !! i = Some package ->
  2 * window_size lt <> 0 ->
  package_num package = (last_acked lt + 1) mod (2 * window_size lt) ->
  data_to_message package = Ok text ->
  drain_loop (S fuel) i lt
  = drain_loop fuel (S i)
      (set_last_acked (package_num package)
         (set_message (message lt ++ text) (set_buffer (delete i (buffer lt)) lt))).
Proof.
  intros Hl HW Hp Ht. simpl. rewrite Hl.
  decide_test (2 * window_size lt =? 0).
  decide_test (package_num package =? (last_acked lt + 1) mod (2 * window_size lt)).
  rewrite Ht. reflexivity.
Qed.

(** After the front of the buffer was drained, the package behind it
    stays in the buffer, also when it is the next one in order. *)
Lemma drain_steps_over_next lt p q rest text :
  buffer lt = p :: q :: rest ->
  2 * window_size lt <> 0 ->
  package_num p = (last_acked lt + 1) mod (2 * window_size lt) ->
  data_to_message p = Ok text ->
  head (buffer (fst (drain_loop (length (buffer lt)) 0 lt))) = Some q.
Proof.
  intros Hb HW Hp Ht.
  replace (length (buffer lt)) with (S (S (length rest))) by (rewrite Hb; reflexivity).
  rewrite (drain_loop_round _ 0%nat lt p text) by (try rewrite Hb; auto).
  set (lt' := set_last_acked _ _).
  pose proof (drain_loop_prefix (S (length rest)) 1%nat lt') as H.
  assert (Hq : take 1 (buffer lt') = [q]) by (subst lt'; simpl; rewrite Hb; reflexivity).
  rewrite Hq in H.
  destruct (buffer (fst (drain_loop (S (length rest)) 1 lt'))) as [|x l];
    simpl in H; [discriminate H|].
  injection H as ->. reflexivity.
Qed.

(** A request that is dropped as already acked leaves the connection as
    it is when no package waits in the buffer. *)
Lemma already_acked_unchanged policy lt request :
  decided_size lt = true ->
  already_acked (last_acked lt) (window_size lt) (package_num request) = true ->
  buffer lt = [] ->
  process_request policy lt request
  = (lt, AckHeader_init (last_acked lt) (max_message_length lt)).
Proof.
  intros Hd Ha Hb. unfold process_request, decide_size.
  rewrite Hd. simpl negb. cbv beta iota zeta.
  unfold buffer_request. rewrite Ha, Hb. reflexivity.
Qed.

(** The size request of a window of two or more packages is drained at
    once: the last ack becomes 0 and the ack carries 0. *)
Lemma size_request_drained (W mml : Z) :
  2 <= W <= 128 ->
  process_request (Ok mml) new_local_thread (size_request W)
  = (mk_local_thread true mml W 0 [] [], AckHeader_init 0 mml).
Proof.
  intros HW. unfold process_request, decide_size. simpl.
  replace (W - 1 + 1) with W by lia.
  unfold buffer_request. simpl.
  decide_test (already_acked (-1) W 0).
  { unfold already_acked in E. prop_of_bool; lia. }
  simpl.
  decide_test (2 * W =? 0).
  reflexivity.
Qed.

(** C1, at the arrival of the packages 2, 1 and 3 after the size request
    of a window of 4: when package 1 arrives only package 1 is drained,
    when package 3 arrives only package 2; the last ack carries 2 and
    package 3 stays in the buffer. *)
Theorem arrival_2_1_3_last_ack :
  client_handler_loop console_100 new_local_thread arrival_2_1_3
  = (mk_local_thread true 100 4 2 [97; 98] [segment 4 3 [x63]],
     [Some [x00; x64; x00]; Some [x00; x64; x00];
      Some [x00; x64; x01]; Some [x00; x64; x02]]).
Proof. vm_compute. reflexivity. Qed.

(** C5, at the size request of a window of one package: the request is
    taken for already acked, the last ack stays -1, the ack cannot be
    built and nothing is sent, whatever the console answered. *)
Theorem size_request_window_1 (policy : result Z) :
  exists lt,
    client_handler_round policy new_local_thread (wire (size_request 1)) = Served lt None
    /\ last_acked lt = -1
    /\ is_ok (snd (process_request policy new_local_thread (size_request 1))) = false.
Proof.
  unfold client_handler_round.
  change (len (wire (size_request 1)) =? 0) with false. cbv iota.
  change (unpack_requests (wire (size_request 1))) with (Ok [size_request 1]).
  cbv iota. unfold process_requests.
  destruct policy as [mml|e].
  - assert (H : process_request (Ok mml) new_local_thread (size_request 1)
                = (mk_local_thread true mml 1 (-1) [] [], AckHeader_init (-1) mml))
      by reflexivity.
    rewrite H. unfold AckHeader_init.
    destruct ((mml <? 0) || (2 ^ 16 <=? mml)); simpl; eauto.
  - simpl. eauto.
Qed.

(** C6, at the state that the arrivals 2 and 1 lead to: package 1 is
    acked and package 2 waits in the buffer; when package 1 arrives once
    more it is dropped as already acked, and yet the last ack moves
    from 1 to 2 and the text of package 2 joins the message. *)
Theorem redelivery_moves_last_ack :
  let lt := fst (client_handler_loop console_100 new_local_thread arrival_2_1) in
  lt = mk_local_thread true 100 4 1 [97] [segment 4 2 [x62]]
  /\ already_acked (last_acked lt) (window_size lt) 1 = true
  /\ client_handler_round console_100 lt (wire (segment 4 1 [x61]))
     = Served (mk_local_thread true 100 4 2 [97; 98] []) (Some [x00; x64; x02]).
Proof. vm_compute. repeat split; reflexivity. Qed.

End Drain.

(** ** The receiver: a read that does not decode *)

Section Abandon.
Import API Server.

Lemma mapR_Exists_Raise {A B} (f : A -> result B) (l : list A) :
  Exists (fun x => exists e, f x = Raise e) l -> exists e, mapR f l = Raise e.
Proof.
  induction 1 as [x l [e He] | x l _ [e IH]]; simpl.
  - rewrite He. eauto.
  - destruct (f x) as [y|e']; simpl; [|eauto]. rewrite IH. eauto.
Qed.

Lemma unpack_requests_fails (data : bytes) :
  fails_to_decode data -> exists e, unpack_requests data = Raise (MessageClientError e).
Proof.
  unfold unpack_requests. intros [[e He] | (separated & Hs & Hex)].
  - rewrite He. simpl. eauto.
  - rewrite Hs. simpl.
    destruct (mapR_Exists_Raise _ _ Hex) as [e He]. rewrite He. eauto.
Qed.

(** C8.  When a read holds a request that does not decode, the round
    processes none of its requests: no response is sent and the state
    of the connection, in particular the last ack and the message, is
    the one from before the read. *)
Theorem failed_read_is_abandoned (policy : result Z) (lt : local_thread) (data : bytes) :
  0 < len data ->
  fails_to_decode data ->
  client_handler_round policy lt data = Served lt None.
Proof.
  intros Hlen Hfail. unfold client_handler_round.
  decide_test (len data =? 0).
  destruct (unpack_requests_fails data Hfail) as [e ->]. reflexivity.
Qed.

End Abandon.

Lemma failed_read_is_abandoned_witness :
  0 < len (ten_bytes ++ bad_window)
  /\ fails_to_decode (ten_bytes ++ bad_window)
  /\ Server.client_handler_round console_100 after_handshake (ten_bytes ++ bad_window)
     = Server.Served after_handshake None.
Proof.
  assert (Hl : 0 < len (ten_bytes ++ bad_window)) by reflexivity.
  assert (Hf : fails_to_decode (ten_bytes ++ bad_window)).
  { right. exists [ten_bytes; bad_window]. split; [vm_compute; reflexivity|].
    apply Exists_cons_tl, Exists_cons_hd.
    exists (ValueError "invalid window size"). vm_compute. reflexivity. }
  split; [exact Hl|]. split; [exact Hf|].
  exact (failed_read_is_abandoned console_100 after_handshake _ Hl Hf).
Defined.

(** ** The sender: the division of the message *)

Section Division.
Import API Client.

Lemma divide_loop_chunks message : forall max_size done cur,
  1 <= max_size ->
  Forall (fun part => len part <= max_size) done ->
  len cur <= max_size ->
  exists parts,
    divide_loop message max_size (done ++ [cur]) (length done) = Ok parts
    /\ Forall (fun part => len part <= max_size) parts
    /\ concat parts = concat done ++ cur ++ message.
Proof.
  induction message as [|char message IH]; intros max_size done cur Hmax Hdone Hcur.
  - exists (done ++ [cur]). split; [reflexivity|]. split.
    + apply Forall_app. split; [assumption|]. by apply Forall_singleton.
    + rewrite concat_app. simpl. reflexivity.
  - simpl. rewrite list_lookup_middle by reflexivity.
    destruct (len cur <? max_size) eqn:E; prop_of_bool.
    + rewrite insert_app_r_alt by lia. rewrite Nat.sub_diag. simpl.
      destruct (IH max_size done (cur ++ [char]) Hmax Hdone) as (parts & Hp & Hf & Hc).
      { rewrite len_app, len_cons, len_nil. lia. }
      exists parts. rewrite Hp, Hc, <- !app_assoc. auto.
    + replace (S (length done)) with (length (done ++ [cur]))
        by (rewrite length_app; simpl; lia).
      destruct (IH max_size (done ++ [cur]) [char] Hmax) as (parts & Hp & Hf & Hc).
      { apply Forall_app. split; [assumption|]. by apply Forall_singleton. }
      { rewrite len_cons, len_nil. lia. }
      exists parts. rewrite Hp, Hc, concat_app. simpl.
      rewrite <- !app_assoc. simpl. auto.
Qed.

Lemma divide_msg_chunks message max_size :
  1 <= max_size ->
  exists parts,
    divide_msg message max_size = Ok parts
    /\ Forall (fun part => len part <= max_size) parts
    /\ concat parts = message.
Proof.
  intros Hmax.
  destruct (divide_loop_chunks message max_size [] [] Hmax) as (parts & Hp & Hf & Hc).
  - constructor.
  - rewrite len_nil. lia.
  - exists parts. auto.
Qed.

(** A package built without a maximum message size carries the default
    one, and its data fit below it. *)
Lemma MessageHeader_init_default tl w pn d m :
  snd (MessageHeader_init tl w pn (-1) d) = Ok m ->
  max_msg_size m = DEFAULT_MAX_MSG_SIZE
  /\ len (data m) <= DEFAULT_MAX_MSG_SIZE - HEADER_MIN_LENGTH.
Proof.
  intros H. pose proof (constructed_valid _ _ _ _ _ _ H) as (_ & _ & _ & _ & Hd & _).
  assert (Hm : max_msg_size m = DEFAULT_MAX_MSG_SIZE).
  { revert H. unfold MessageHeader_init.
    destruct (match tl with
              | Some t => if negb (t =? HEADER_MIN_LENGTH + len d)
                          then (HEADER_MIN_LENGTH + len d, true) else (t, false)
              | None => (HEADER_MIN_LENGTH + len d, false)
              end) as [t wn].
    simpl. repeat case_match; try discriminate. intros [= <-]. reflexivity. }
  rewrite Hm in Hd. auto.
Qed.

End Division.

(** ** The sender: the timeout *)

Section Timeout.
Import API Client.

Lemma resend_valid window :
  Forall valid_segment window ->
  exists sent,
    resend window = (sent, Ok ())
    /\ Forall2 (fun package packed =>
                  MessageHeader_pack package = Ok packed
                  /\ MessageHeader_unpack packed = (false, Ok package)) window sent.
Proof.
  induction 1 as [|package window Hv _ (sent & Hs & Hf)].
  - exists []. split; [reflexivity | constructor].
  - destruct (MessageHeader_round_trip package Hv) as (packed & Hp & Hu).
    exists (packed :: sent). simpl. rewrite Hp, Hs. split; [reflexivity|].
    constructor; auto.
Qed.

Lemma await_ack_timeout window_size timeout env st first :
  first_msg_sent st = Some first ->
  timeout_fires timeout env first ->
  await_ack window_size timeout env st = Raise socket_timeout.
Proof.
  intros Hfirst Hfire. unfold await_ack. rewrite Hfirst. simpl.
  destruct (timeout <? int_of (time_check env - first)%Q) eqn:E; [reflexivity|].
  destruct Hfire as [Hm|Hr]; [prop_of_bool; lia|].
  rewrite Hr. reflexivity.
Qed.

(** C9.  When the timeout fires, every package of the sliding window is
    sent again, in the order of the window and as the bytes that unpack
    to the very package; the window stays as it is and the clock is set
    to the time of the timeout.  With the packages 1 and 2 in the
    window, the bytes of package 1 and then those of package 2 are
    sent. *)
Theorem timeout_resends_window (window_size timeout : Z) (env : environment)
    (st : client_state) (first : Q) :
  Forall valid_segment (sliding_window st) ->
  first_msg_sent st = Some first ->
  timeout_fires timeout env first ->
  exists sent,
    ack_phase window_size timeout env st
    = (sent, Ok (mk_client_state (divided_msgs st) (sliding_window st)
                                 (package_number st) (Some (time_reset env))))
    /\ Forall2 (fun package packed =>
                  MessageHeader_pack package = Ok packed
                  /\ MessageHeader_unpack packed = (false, Ok package))
               (sliding_window st) sent.
Proof.
  intros Hv Hfirst Hfire. unfold ack_phase.
  rewrite (await_ack_timeout _ _ _ _ _ Hfirst Hfire). simpl.
  destruct (resend_valid _ Hv) as (sent & Hs & Hf).
  exists sent. rewrite Hs. auto.
Qed.

End Timeout.

Lemma timeout_resends_window_witness :
  Forall valid_segment (Client.sliding_window two_outstanding)
  /\ Client.first_msg_sent two_outstanding = Some (10 # 1)%Q
  /\ timeout_fires 5 silence (10 # 1)%Q
  /\ Client.ack_phase 2 5 silence two_outstanding
     = ([wire (segment 2 1 [x61]); wire (segment 2 2 [x62])],
        Ok (Client.mk_client_state [] [segment 2 1 [x61]; segment 2 2 [x62]] 2
                                   (Some (13 # 1)%Q)))
  /\ exists sent,
       Client.ack_phase 2 5 silence two_outstanding
       = (sent, Ok (Client.mk_client_state
                      (Client.divided_msgs two_outstanding)
                      (Client.sliding_window two_outstanding)
                      (Client.package_number two_outstanding)
                      (Some (Client.time_reset silence))))
       /\ Forall2 (fun package packed =>
                     API.MessageHeader_pack package = Ok packed
                     /\ API.MessageHeader_unpack packed = (false, Ok package))
                  (Client.sliding_window two_outstanding) sent.
Proof.
  assert (Hv : Forall valid_segment (Client.sliding_window two_outstanding)).
  { repeat constructor; vm_compute; intuition discriminate. }
  assert (Hf : timeout_fires 5 silence (10 # 1)%Q) by (right; reflexivity).
  split; [exact Hv|]. split; [reflexivity|]. split; [exact Hf|].
  split; [vm_compute; reflexivity|].
  exact (timeout_resends_window 2 5 silence two_outstanding _ Hv eq_refl Hf).
Defined.

(** ** More on the header codec *)

Section CodecBytes.
Import API.

Lemma pack_B_byte b : pack_B (byte_to_Z b) = Ok [b].
Proof. unfold pack_B. rewrite byte_of_to_Z. reflexivity. Qed.

Lemma pack_H_unpack_H hi lo : pack_H (unpack_H hi lo) = Ok [hi; lo].
Proof.
  pose proof (byte_to_Z_range hi) as Hh. pose proof (byte_to_Z_range lo) as Hl.
  unfold pack_H, unpack_H.
  decide_test ((0 <=? byte_to_Z hi * 256 + byte_to_Z lo)
               && (byte_to_Z hi * 256 + byte_to_Z lo <? 65536)).
  replace ((byte_to_Z hi * 256 + byte_to_Z lo) / 256) with (byte_to_Z hi) by lia_div.
  replace ((byte_to_Z hi * 256 + byte_to_Z lo) mod 256) with (byte_to_Z lo) by lia_div.
  rewrite !pack_B_byte. reflexivity.
Qed.

Lemma pack_B_len v b : pack_B v = Ok b -> len b = 1.
Proof. unfold pack_B. destruct (byte_of_Z v); intros [= <-]; reflexivity. Qed.

Lemma pack_H_len v b : pack_H v = Ok b -> len b = 2.
Proof.
  unfold pack_H. destruct ((0 <=? v) && (v <? 65536)); [|discriminate].
  destruct (pack_B (v / 256)) as [hi|] eqn:Eh; [|discriminate].
  destruct (pack_B (v mod 256)) as [lo|] eqn:El; [|discriminate].
  simpl. intros [= <-]. rewrite len_app, (pack_B_len _ _ Eh), (pack_B_len _ _ El).
  reflexivity.
Qed.

Lemma MessageHeader_pack_length (m : MessageHeader) (b : bytes) :
  MessageHeader_pack m = Ok b ->
  len b = HEADER_MIN_LENGTH + len (data m)
  /\ drop 6 b = data m
  /\ (valid_segment m ->
      len b = total_length m /\ unpack_total_message_size b = Ok (len b)).
Proof.
  unfold MessageHeader_pack.
  destruct (pack_H (total_length m)) as [a|] eqn:Ea; [|discriminate].
  destruct (pack_H (max_msg_size m)) as [c|] eqn:Ec; [|discriminate].
  destruct (pack_B (window_size m)) as [w|] eqn:Ew; [|discriminate].
  destruct (pack_B (package_num m)) as [p|] eqn:Ep; [|discriminate].
  simpl. intros [= <-].
  pose proof (pack_H_len _ _ Ea) as La. pose proof (pack_H_len _ _ Ec) as Lc.
  pose proof (pack_B_len _ _ Ew) as Lw. pose proof (pack_B_len _ _ Ep) as Lp.
  assert (Hlen : len (a ++ c ++ w ++ p ++ data m) = HEADER_MIN_LENGTH + len (data m)).
  { rewrite !len_app. unfold HEADER_MIN_LENGTH. lia. }
  split; [exact Hlen|]. split.
  - rewrite !app_assoc. apply drop_app_length'.
    unfold len in *. rewrite !length_app. lia.
  - intros Hv. pose proof Hv as (Hw & _ & _ & Hmms & Hd & Htl).
    split; [congruence|].
    destruct (pack_H_ok (total_length m)) as (t1 & t0 & Ht & Et).
    { unfold DEFAULT_MAX_MSG_SIZE, DEFAULT_HEADER_MAX_LENGTH, HEADER_MIN_LENGTH in *.
      pose proof (len_nonneg (data m)). lia. }
    rewrite Ht in Ea. injection Ea as <-.
    unfold unpack_total_message_size. rewrite Hlen.
    pose proof (len_nonneg (data m)).
    decide_test (HEADER_MIN_LENGTH + len (data m) <? HEADER_MIN_LENGTH).
    simpl. rewrite Et. congruence.
Qed.

(** X1.  Whenever a package can be packed, its bytes are the six bytes of
    the header followed by the data; for a package that the constructor
    let through they are as many as its total length says, and this is
    the length that [unpack_total_message_size] reads from them. *)
Theorem packed_length (m : MessageHeader) (b : bytes) :
  MessageHeader_pack m = Ok b ->
  len b = HEADER_MIN_LENGTH + len (data m)
  /\ drop 6 b = data m
  /\ (valid_segment m ->
      len b = total_length m /\ unpack_total_message_size b = Ok (len b)).
Proof. exact (MessageHeader_pack_length m b). Qed.

(** What the constructor does with the maximum message size it is given. *)
Lemma MessageHeader_init_outcome tl w pn mms d :
  let limit := if (mms <=? DEFAULT_MAX_MSG_SIZE) && (0 <? mms)
               then mms else DEFAULT_MAX_MSG_SIZE in
  snd (MessageHeader_init tl w pn mms d)
  = if negb (HEADER_MIN_LENGTH + len d <=? limit)
    then Raise (ValueError "invalid total length")
    else if (w <? 1) || (DEFAULT_MAX_WINDOW_SIZE <? w)
    then Raise (ValueError "invalid window size")
    else if (pn <? 0) || (2 * w <=? pn)
    then Raise (ValueError "invalid package number")
    else Ok (mkMessageHeader (HEADER_MIN_LENGTH + len d) limit w (w - 1) pn d).
Proof.
  intros limit. rewrite (MessageHeader_init_total_length tl None).
  unfold MessageHeader_init. fold limit. simpl.
  pose proof (len_nonneg d). unfold HEADER_MIN_LENGTH in *.
  destruct (6 + len d <=? limit) eqn:E1; simpl.
  - decide_test (6 <=? 6 + len d). simpl.
    destruct ((w <? 1) || (DEFAULT_MAX_WINDOW_SIZE <? w)); [reflexivity|].
    destruct ((pn <? 0) || (2 * w <=? pn)); [reflexivity|].
    prop_of_bool. decide_test (limit - 6 <? len d). reflexivity.
  - destruct (6 <=? 6 + len d); reflexivity.
Qed.

(** X2.  The constructor raises for a total length above the effective
    maximum message size, then for a window size outside 1..128, then for
    a package number outside [0, 2 * window size); in every other case it
    builds the package.  The total length it is given plays no part, and
    the last check of the constructor, the one of the data size, never
    raises. *)
Theorem constructor_checks (tl : option Z) (w pn mms : Z) (d : bytes) :
  let limit := if (mms <=? DEFAULT_MAX_MSG_SIZE) && (0 <? mms)
               then mms else DEFAULT_MAX_MSG_SIZE in
  (is_ok (snd (MessageHeader_init tl w pn mms d)) = true
   <-> HEADER_MIN_LENGTH + len d <= limit /\ 1 <= w <= 128 /\ 0 <= pn < 2 * w)
  /\ (limit < HEADER_MIN_LENGTH + len d ->
      snd (MessageHeader_init tl w pn mms d) = Raise (ValueError "invalid total length"))
  /\ (HEADER_MIN_LENGTH + len d <= limit -> ~ 1 <= w <= 128 ->
      snd (MessageHeader_init tl w pn mms d) = Raise (ValueError "invalid window size"))
  /\ (HEADER_MIN_LENGTH + len d <= limit -> 1 <= w <= 128 -> ~ 0 <= pn < 2 * w ->
      snd (MessageHeader_init tl w pn mms d) = Raise (ValueError "invalid package number"))
  /\ snd (MessageHeader_init tl w pn mms d) <> Raise (ValueError "invalid data size").
Proof.
  intros limit. rewrite (MessageHeader_init_outcome tl w pn mms d). fold limit.
  unfold DEFAULT_MAX_WINDOW_SIZE.
  destruct (HEADER_MIN_LENGTH + len d <=? limit) eqn:E1; simpl;
    destruct ((w <? 1) || (2 ^ 7 <? w)) eqn:E2; simpl;
    destruct ((pn <? 0) || (2 * w <=? pn)) eqn:E3; simpl;
    prop_of_bool;
    (repeat split; intros; try discriminate; try reflexivity; try lia;
     repeat match goal with H : _ /\ _ |- _ => destruct H end; try lia).
Qed.

(** X3.  Bytes unpack as an ack exactly when they are three; the ack then
    packs to these very bytes. *)
Theorem ack_bytes (b : bytes) :
  (is_ok (AckHeader_unpack b) = true <-> len b = HEADER_LENGTH)
  /\ (forall a, AckHeader_unpack b = Ok a -> AckHeader_pack a = Ok b).
Proof.
  unfold AckHeader_unpack, HEADER_LENGTH.
  destruct (len b =? 3) eqn:E; prop_of_bool; simpl.
  - destruct b as [|m1 [|m0 [|n [|x b]]]]; try (unfold len in E; simpl in E; lia).
    pose proof (unpack_H_range m1 m0). pose proof (byte_to_Z_range n).
    rewrite AckHeader_init_valid by lia. simpl. split; [tauto|].
    intros a [= <-]. unfold AckHeader_pack. simpl.
    rewrite pack_H_unpack_H, pack_B_byte. reflexivity.
  - split; [split; [discriminate | contradiction] | discriminate].
Qed.

Lemma unpack_without_warning t1 t0 m1 m0 rest m :
  MessageHeader_unpack (t1 :: t0 :: m1 :: m0 :: rest) = (false, Ok m) ->
  exists w p payload,
    rest = w :: p :: payload
    /\ unpack_H t1 t0 = total_length m
    /\ m = mkMessageHeader (total_length m) (max_msg_size m) (byte_to_Z w + 1)
                           (byte_to_Z w + 1 - 1) (byte_to_Z p) payload.
Proof.
  intros Hu.
  destruct rest as [|w [|p payload]];
    try (rewrite MessageHeader_unpack_short in Hu by (unfold HEADER_MIN_LENGTH, len; simpl; lia);
         discriminate).
  rewrite MessageHeader_unpack_cons in Hu.
  pose proof (f_equal fst Hu) as Hw. pose proof (f_equal snd Hu) as Hm. simpl in Hw, Hm.
  exists w, p, payload. split; [reflexivity|].
  apply MessageHeader_init_inv in Hm. destruct Hm as (Hm & _).
  assert (Ht : unpack_H t1 t0 = HEADER_MIN_LENGTH + len payload).
  { destruct (Z.eq_dec (unpack_H t1 t0) (HEADER_MIN_LENGTH + len payload)) as [|Hne];
      [assumption|].
    pose proof (proj2 (MessageHeader_init_warns (unpack_H t1 t0) (byte_to_Z w + 1)
                         (byte_to_Z p) (unpack_H m1 m0) payload) Hne) as Hwt.
    rewrite Hwt in Hw. discriminate. }
  split; [rewrite Hm; simpl; exact Ht|].
  rewrite Hm at 1. rewrite Hm. simpl. reflexivity.
Qed.

(** X4.  Bytes that unpack without a warning and whose third and fourth
    byte hold the maximum message size of the package they unpack to are
    the bytes that this package packs to. *)
Theorem unpacked_bytes_are_packed (t1 t0 m1 m0 : Byte.byte) (rest : bytes)
    (m : MessageHeader) :
  MessageHeader_unpack (t1 :: t0 :: m1 :: m0 :: rest) = (false, Ok m) ->
  unpack_H m1 m0 = max_msg_size m ->
  MessageHeader_pack m = Ok (t1 :: t0 :: m1 :: m0 :: rest).
Proof.
  intros Hu Hm.
  destruct (unpack_without_warning t1 t0 m1 m0 rest m Hu)
    as (w & p & payload & -> & Ht & Hf).
  unfold MessageHeader_pack. rewrite Hf. simpl.
  rewrite <- Ht, <- Hm, !pack_H_unpack_H.
  replace (byte_to_Z w + 1 - 1) with (byte_to_Z w) by lia.
  rewrite !pack_B_byte. reflexivity.
Qed.

End CodecBytes.

Lemma packed_length_witness :
  API.MessageHeader_pack (segment 4 1 [x61]) = Ok [x00; x07; xff; xfb; x03; x01; x61]
  /\ len [x00; x07; xff; xfb; x03; x01; x61]
     = API.HEADER_MIN_LENGTH + len (API.data (segment 4 1 [x61]))
  /\ drop 6 [x00; x07; xff; xfb; x03; x01; x61] = API.data (segment 4 1 [x61])
  /\ (valid_segment (segment 4 1 [x61]) ->
      len [x00; x07; xff; xfb; x03; x01; x61] = API.total_length (segment 4 1 [x61])
      /\ API.unpack_total_message_size [x00; x07; xff; xfb; x03; x01; x61]
         = Ok (len [x00; x07; xff; xfb; x03; x01; x61])).
Proof.
  assert (H : API.MessageHeader_pack (segment 4 1 [x61])
              = Ok [x00; x07; xff; xfb; x03; x01; x61]) by (vm_compute; reflexivity).
  split; [exact H|]. exact (packed_length _ _ H).
Defined.

Lemma constructor_checks_witness :
  snd (API.MessageHeader_init None 200 0 (-1) [])
  = Raise (ValueError "invalid window size")
  /\ snd (API.MessageHeader_init None 4 8 (-1) [])
     = Raise (ValueError "invalid package number")
  /\ snd (API.MessageHeader_init None 4 8 7 [x61; x62])
     = Raise (ValueError "invalid total length").
Proof.
  split; [|split].
  - apply (proj1 (proj2 (proj2 (constructor_checks None 200 0 (-1) [])))).
    + vm_compute. discriminate.
    + lia.
  - apply (proj1 (proj2 (proj2 (proj2 (constructor_checks None 4 8 (-1) []))))).
    + vm_compute. discriminate.
    + lia.
    + lia.
  - apply (proj1 (proj2 (constructor_checks None 4 8 7 [x61; x62]))).
    vm_compute. reflexivity.
Defined.

Lemma ack_bytes_witness :
  API.AckHeader_unpack [x00; x64; x03] = Ok (API.mkAckHeader 100 3)
  /\ API.AckHeader_pack (API.mkAckHeader 100 3) = Ok [x00; x64; x03]
  /\ is_ok (API.AckHeader_unpack [x00; x64]) = false.
Proof.
  assert (H : API.AckHeader_unpack [x00; x64; x03] = Ok (API.mkAckHeader 100 3))
    by (vm_compute; reflexivity).
  split; [exact H|]. split; [exact (proj2 (ack_bytes _) _ H)|].
  destruct (is_ok (API.AckHeader_unpack [x00; x64])) eqn:E; [|reflexivity].
  apply (proj1 (ack_bytes _)) in E. vm_compute in E. discriminate E.
Defined.

Lemma unpacked_bytes_are_packed_witness :
  API.MessageHeader_unpack [x00; x07; xff; xfb; x03; x01; x61]
  = (false, Ok (segment 4 1 [x61]))
  /\ unpack_H xff xfb = API.max_msg_size (segment 4 1 [x61])
  /\ API.MessageHeader_pack (segment 4 1 [x61]) = Ok [x00; x07; xff; xfb; x03; x01; x61].
Proof.
  assert (H : API.MessageHeader_unpack [x00; x07; xff; xfb; x03; x01; x61]
              = (false, Ok (segment 4 1 [x61]))) by (vm_compute; reflexivity).
  assert (H' : unpack_H xff xfb = API.max_msg_size (segment 4 1 [x61]))
    by (vm_compute; reflexivity).
  split; [exact H|]. split; [exact H'|].
  exact (unpacked_bytes_are_packed _ _ _ _ _ _ H H').
Defined.

(** ** More on the separation of the requests *)

Section SeparationMore.
Import API Server.

(** A message that is as long as its first two bytes say. *)
Lemma exact_framed msgs :
  msgs <> [] ->
  Forall (fun m => unpack_total_message_size m = Ok (len m)) msgs ->
  framed msgs.
Proof.
  induction msgs as [|m msgs IH]; intros Hne Hall; [contradiction|].
  apply Forall_cons in Hall. destruct Hall as [Hm Hall].
  destruct msgs as [|m' msgs].
  - apply (framed_last m (len m)); [assumption | lia].
  - apply framed_cons; [assumption|]. apply IH; [discriminate | assumption].
Qed.

Lemma separate_requests_whole (msgs : list bytes) :
  framed msgs -> separate_requests (concat msgs) = Ok msgs.
Proof.
  intros Hf. destruct Hf as [r t Hr Hle | m msgs Hm Hf].
  - simpl. rewrite app_nil_r. unfold separate_requests. rewrite Hr. simpl.
    decide_test (t <? len r). reflexivity.
  - simpl. unfold separate_requests.
    destruct (unpack_total_message_size_app _ (concat msgs) _ Hm) as [-> _].
    simpl. pose proof (framed_nonempty msgs Hf). rewrite len_app.
    decide_test (len m <? len m + len (concat msgs)).
    exact (separate_loop_framed msgs Hf [] [] m).
Qed.

Lemma concat_insert_last (separated : list bytes) (index : nat) (s : bytes) (b : Byte.byte) :
  S index = length separated ->
  separated !! index = Some s ->
  concat (<[index := s ++ [b]]> separated) = concat separated ++ [b].
Proof.
  intros Hi Hl. rewrite <- (take_drop_middle separated index s Hl).
  rewrite (drop_ge separated (S index)) by lia.
  rewrite insert_app_r_alt by (rewrite length_take; lia).
  rewrite length_take, Nat.min_l, Nat.sub_diag by lia. simpl.
  rewrite !concat_app. simpl. rewrite !app_nil_r, app_assoc. reflexivity.
Qed.

Lemma separate_loop_concat iter : forall data total separated counter index parts,
  S index = length separated ->
  separate_loop iter data total separated counter index = Ok parts ->
  concat parts = concat separated ++ iter.
Proof.
  induction iter as [|byte iter IH];
    intros data total separated counter index parts Hi; simpl.
  - intros [= <-]. rewrite app_nil_r. reflexivity.
  - destruct (counter <? total).
    + unfold append_at. destruct (separated !! index) as [s|] eqn:El; [|discriminate].
      simpl. intros H. apply IH in H; [|rewrite length_insert; exact Hi].
      rewrite H, (concat_insert_last _ _ _ _ Hi El), <- app_assoc. reflexivity.
    + destruct (if 0 <? len (drop (Z.to_nat total) data)
                then unpack_total_message_size (drop (Z.to_nat total) data)
                else Ok total) as [total'|]; [|discriminate].
      simpl. unfold append_at.
      assert (El : (separated ++ [[]]) !! S index = Some [])
        by (rewrite Hi; apply list_lookup_middle; reflexivity).
      rewrite El. simpl. intros H.
      apply IH in H; [|rewrite length_insert, length_app; simpl; lia].
      assert (Hlen : S (S index) = length (separated ++ [[]]))
        by (rewrite length_app; simpl; lia).
      pose proof (concat_insert_last (separated ++ [[]]) (S index) [] byte Hlen El) as Hc.
      simpl in Hc. rewrite H, Hc.
      rewrite concat_app. simpl. rewrite <- !app_assoc. reflexivity.
Qed.

Lemma separate_requests_concat (data : bytes) (parts : list bytes) :
  separate_requests data = Ok parts -> concat parts = data.
Proof.
  unfold separate_requests.
  destruct (unpack_total_message_size data) as [total|]; [|discriminate]. simpl.
  destruct (total <? len data).
  - intros H. apply separate_loop_concat in H; [exact H | reflexivity].
  - intros [= <-]. simpl. apply app_nil_r.
Qed.

Lemma unpack_total_message_size_short (b : bytes) :
  len b < HEADER_MIN_LENGTH ->
  unpack_total_message_size b = Raise (ValueError "data too short to be a header").
Proof.
  intros H. unfold unpack_total_message_size.
  decide_test (len b <? HEADER_MIN_LENGTH). reflexivity.
Qed.

Lemma separate_loop_fragment msgs frag :
  Forall (fun m => unpack_total_message_size m = Ok (len m)) msgs ->
  0 < len frag < HEADER_MIN_LENGTH ->
  forall done cur rem,
  separate_loop (rem ++ concat msgs ++ frag) (cur ++ rem ++ concat msgs ++ frag)
                (len (cur ++ rem)) (done ++ [cur]) (len cur) (length done)
  = Raise (ValueError "data too short to be a header").
Proof.
  intros Hall Hfrag. induction Hall as [|m msgs Hm _ IH]; intros done cur rem.
  - simpl concat. simpl app at 2 4.
    rewrite separate_loop_fill by (rewrite len_app; lia).
    rewrite <- len_app.
    destruct frag as [|b frag']; [unfold len in Hfrag; simpl in Hfrag; lia|].
    assert (Hd : drop (Z.to_nat (len (cur ++ rem))) (cur ++ rem ++ b :: frag') = b :: frag').
    { rewrite app_assoc. apply drop_app_length'. unfold len. lia. }
    simpl. rewrite Z.ltb_irrefl, Hd.
    decide_test (0 <? len (b :: frag')).
    rewrite unpack_total_message_size_short by lia. reflexivity.
  - rewrite separate_loop_fill by (rewrite len_app; lia).
    rewrite <- len_app. simpl concat.
    destruct (unpack_total_message_size_app _ (concat msgs ++ frag) _ Hm) as [Hu Hl].
    unfold HEADER_MIN_LENGTH in Hl.
    destruct m as [|b m']; [unfold len in Hl; simpl in Hl; lia|].
    rewrite <- !app_assoc.
    assert (Hd : drop (Z.to_nat (len (cur ++ rem)))
                      (cur ++ rem ++ b :: m' ++ concat msgs ++ frag)
                 = b :: m' ++ concat msgs ++ frag).
    { rewrite app_assoc. apply drop_app_length'. unfold len. lia. }
    rewrite <- !app_comm_cons in *.
    rewrite (separate_loop_next b (m' ++ concat msgs ++ frag) _ _ done (cur ++ rem)
               (len (b :: m'))) by (rewrite Hd; exact Hu).
    rewrite Hd.
    pose proof (IH (done ++ [cur ++ rem]) [b] m') as IH'.
    simpl in IH'. change (len [b]) with 1 in IH'. exact IH'.
Qed.

Lemma separate_requests_fragment msgs frag :
  Forall (fun m => unpack_total_message_size m = Ok (len m)) msgs ->
  0 < len frag < HEADER_MIN_LENGTH ->
  separate_requests (concat msgs ++ frag)
  = Raise (ValueError "data too short to be a header").
Proof.
  intros Hall Hfrag. destruct Hall as [|m msgs Hm Hall].
  - simpl. unfold separate_requests.
    rewrite unpack_total_message_size_short by lia. reflexivity.
  - simpl. rewrite <- app_assoc. unfold separate_requests.
    destruct (unpack_total_message_size_app _ (concat msgs ++ frag) _ Hm) as [-> _].
    simpl. rewrite !len_app. pose proof (len_nonneg (concat msgs)).
    decide_test (len m <? len m + (len (concat msgs) + len frag)).
    exact (separate_loop_fragment msgs frag Hall Hfrag [] [] m).
Qed.

(** X5.  A separation that does not raise hands out every byte of the
    read, in order: the requests put together are the read. *)
Theorem separation_keeps_bytes (data : bytes) (parts : list bytes) :
  separate_requests data = Ok parts -> concat parts = data.
Proof. exact (separate_requests_concat data parts). Qed.

(** X6.  A read in which one to five bytes follow whole messages, or make
    up the read, raises the [ValueError] of [unpack_total_message_size]:
    what is left is too short to be a header. *)
Theorem fragment_raises (msgs : list bytes) (frag : bytes) :
  Forall (fun m => unpack_total_message_size m = Ok (len m)) msgs ->
  0 < len frag < HEADER_MIN_LENGTH ->
  separate_requests (concat msgs ++ frag)
  = Raise (ValueError "data too short to be a header").
Proof. exact (separate_requests_fragment msgs frag). Qed.

End SeparationMore.

Lemma separation_keeps_bytes_witness :
  Server.separate_requests (ten_bytes ++ fourteen_bytes) = Ok [ten_bytes; fourteen_bytes]
  /\ concat [ten_bytes; fourteen_bytes] = ten_bytes ++ fourteen_bytes.
Proof.
  assert (H : Server.separate_requests (ten_bytes ++ fourteen_bytes)
              = Ok [ten_bytes; fourteen_bytes]) by (vm_compute; reflexivity).
  split; [exact H|]. exact (separation_keeps_bytes _ _ H).
Defined.

Lemma fragment_raises_witness :
  API.unpack_total_message_size ten_bytes = Ok (len ten_bytes)
  /\ len [x00; x07; xff] = 3
  /\ Server.separate_requests (concat [ten_bytes] ++ [x00; x07; xff])
     = Raise (ValueError "data too short to be a header").
Proof.
  assert (H : API.unpack_total_message_size ten_bytes = Ok (len ten_bytes))
    by (vm_compute; reflexivity).
  split; [exact H|]. split; [reflexivity|].
  apply (fragment_raises [ten_bytes] [x00; x07; xff]).
  - constructor; [exact H | constructor].
  - vm_compute. split; reflexivity.
Defined.

(** ** The receiver: the order of the buffer *)

Section Order.
Import API Server.

(** The tests of the order, unfolded and read as propositions. *)
Ltac order_cases :=
  unfold fresh, goes_before, already_acked in *;
  repeat match goal with
  | H : _ /\ _ |- _ => destruct H
  end;
  repeat match goal with
  | H : context [if ?b then _ else _] |- _ => destruct b eqn:?
  | |- context [if ?b then _ else _] => destruct b eqn:?
  end;
  prop_of_bool;
  repeat match goal with
  | |- _ /\ _ => split
  | |- (_ && _) = true => apply andb_true_iff; split
  | |- (_ || _) = false => apply orb_false_iff; split
  | |- (_ <? _) = true => apply Z.ltb_lt
  | |- (_ <=? _) = true => apply Z.leb_le
  | |- (_ <? _) = false => apply Z.ltb_ge
  | |- (_ <=? _) = false => apply Z.leb_gt
  end;
  try lia.

Lemma goes_before_total lt a b :
  1 <= window_size lt -> -1 <= last_acked lt < 2 * window_size lt ->
  fresh lt a -> fresh lt b -> a <> b ->
  goes_before (last_acked lt) (window_size lt) a b = false ->
  goes_before (last_acked lt) (window_size lt) b a = true.
Proof.
  intros HW Hla Ha Hb Hne H.
  destruct (goes_before (last_acked lt) (window_size lt) b a) eqn:E; [reflexivity|].
  exfalso. order_cases.
Qed.

Lemma goes_before_trans lt a b c :
  1 <= window_size lt -> -1 <= last_acked lt < 2 * window_size lt ->
  fresh lt a -> fresh lt b -> fresh lt c ->
  goes_before (last_acked lt) (window_size lt) a b = true ->
  goes_before (last_acked lt) (window_size lt) b c = true ->
  goes_before (last_acked lt) (window_size lt) a c = true.
Proof.
  intros HW Hla Ha Hb Hc H1 H2.
  destruct (goes_before (last_acked lt) (window_size lt) a c) eqn:E; [reflexivity|].
  exfalso. order_cases.
Qed.

Lemma goes_before_irrefl la W a : goes_before la W a a = false.
Proof.
  destruct (goes_before la W a a) eqn:E; [|reflexivity]. exfalso. order_cases.
Qed.

(** The number that follows the last ack. *)
Lemma next_cases la W :
  1 <= W -> -1 <= la < 2 * W ->
  (la + 1 < 2 * W /\ (la + 1) mod (2 * W) = la + 1)
  \/ (la = 2 * W - 1 /\ (la + 1) mod (2 * W) = 0).
Proof.
  intros HW Hla. destruct (Z.eq_dec la (2 * W - 1)) as [->|Hne].
  - right. split; [reflexivity|].
    replace (2 * W - 1 + 1) with (2 * W) by lia. apply Z.mod_same. lia.
  - left. split; [lia|]. apply Z.mod_small. lia.
Qed.

(** A fresh number never goes before the number that follows the last
    ack. *)
Lemma nothing_before_next lt b :
  1 <= window_size lt -> -1 <= last_acked lt < 2 * window_size lt ->
  fresh lt b ->
  goes_before (last_acked lt) (window_size lt) b
              ((last_acked lt + 1) mod (2 * window_size lt)) = false.
Proof.
  intros HW Hla Hb.
  destruct (next_cases _ _ HW Hla) as [[Hlt ->]|[He ->]];
    match goal with |- ?g = false => destruct g eqn:E; [|reflexivity] end;
    exfalso; order_cases.
Qed.

(** When the last ack moves to the next number, the numbers behind it
    stay fresh and keep their order. *)
Lemma advance_fresh lt lt' q :
  1 <= window_size lt -> -1 <= last_acked lt < 2 * window_size lt ->
  window_size lt' = window_size lt ->
  last_acked lt' = (last_acked lt + 1) mod (2 * window_size lt) ->
  fresh lt q -> q <> last_acked lt' ->
  fresh lt' q.
Proof.
  intros HW Hla HW' Hla' Hq Hne.
  destruct (next_cases _ _ HW Hla) as [[Hlt He]|[He1 He]]; rewrite He in Hla';
    unfold fresh in *; rewrite HW', Hla' in *; order_cases.
Qed.

Lemma advance_order lt lt' q r :
  1 <= window_size lt -> -1 <= last_acked lt < 2 * window_size lt ->
  window_size lt' = window_size lt ->
  last_acked lt' = (last_acked lt + 1) mod (2 * window_size lt) ->
  fresh lt q -> fresh lt r -> q <> last_acked lt' ->
  goes_before (last_acked lt) (window_size lt) q r = true ->
  goes_before (last_acked lt') (window_size lt') q r = true.
Proof.
  intros HW Hla HW' Hla' Hq Hr Hne H.
  destruct (next_cases _ _ HW Hla) as [[Hlt He]|[He1 He]]; rewrite He in Hla';
    rewrite HW', Hla' in *;
    match goal with |- ?g = true => destruct g eqn:E; [reflexivity|] end;
    exfalso; order_cases.
Qed.

(** A request that is not dropped is fresh. *)
Lemma goes_before_ne la W a b : goes_before la W a b = true -> a <> b.
Proof. intros H ->. rewrite goes_before_irrefl in H. discriminate. Qed.


Lemma buffer_loop_cons la W request buffer i package rest :
  buffer_loop la W request buffer i (package :: rest)
  = if package_num request =? package_num package then Some buffer
    else if goes_before la W (package_num request) (package_num package)
    then Some (list_insert_at i request buffer)
    else buffer_loop la W request buffer (S i) rest.
Proof.
  simpl. unfold goes_before.
  destruct (package_num request =? package_num package); [reflexivity|].
  destruct ((0 <=? la) && (la <? W)); reflexivity.
Qed.

Lemma list_insert_at_app {A} (pre rest : list A) (x : A) :
  list_insert_at (length pre) x (pre ++ rest) = pre ++ x :: rest.
Proof. unfold list_insert_at. rewrite take_app_length, drop_app_length. reflexivity. Qed.

(** Where the loop of [buffer_request] leaves the request: nowhere when a
    package with its number is met, else before the first package that it
    goes before, else (the loop ends without a decision) at the end. *)
Lemma buffer_loop_split la W request : forall rest pre,
  match buffer_loop la W request (pre ++ rest) (length pre) rest with
  | Some b =>
    (b = pre ++ rest /\ exists p, p ∈ rest /\ package_num p = package_num request)
    \/ (exists mid p rest',
          rest = mid ++ p :: rest'
          /\ b = pre ++ mid ++ request :: p :: rest'
          /\ Forall (fun q => package_num q <> package_num request
                              /\ goes_before la W (package_num request) (package_num q) = false)
                    mid
          /\ goes_before la W (package_num request) (package_num p) = true)
  | None =>
    Forall (fun q => package_num q <> package_num request
                     /\ goes_before la W (package_num request) (package_num q) = false) rest
  end.
Proof.
  induction rest as [|package rest IH]; intros pre.
  - simpl. constructor.
  - rewrite buffer_loop_cons.
    destruct (package_num request =? package_num package) eqn:Eq; prop_of_bool.
    { left. split; [reflexivity|]. exists package. split; [apply elem_of_cons; by left | auto]. }
    destruct (goes_before la W (package_num request) (package_num package)) eqn:Eg.
    { right. exists [], package, rest. rewrite list_insert_at_app. simpl.
      repeat split; auto. }
    specialize (IH (pre ++ [package])).
    rewrite <- app_assoc in IH. simpl in IH.
    replace (length (pre ++ [package])) with (S (length pre)) in IH
      by (rewrite length_app; simpl; lia).
    destruct (buffer_loop la W request (pre ++ package :: rest) (S (length pre)) rest) as [b|].
    + destruct IH as [[-> (p & Hp & Hn)] | (mid & p & rest' & -> & -> & Hmid & Hg)].
      * left. split; [reflexivity|]. exists p. split; [apply elem_of_cons; by right | auto].
      * right. exists (package :: mid), p, rest'. rewrite <- !app_assoc. simpl.
        repeat split; auto; constructor; auto.
    + constructor; auto.
Qed.


Lemma set_buffer_same lt : set_buffer (buffer lt) lt = lt.
Proof. destruct lt; reflexivity. Qed.

(** [buffer_request] leaves the connection as it is or puts the request
    at one place of the buffer. *)
Lemma buffer_request_cases lt request :
  buffer_request lt request = lt
  \/ (already_acked (last_acked lt) (window_size lt) (package_num request) = false
      /\ exists pre post,
           buffer lt = pre ++ post
           /\ buffer_request lt request = set_buffer (pre ++ request :: post) lt
           /\ Forall (fun q => package_num q <> package_num request
                               /\ goes_before (last_acked lt) (window_size lt)
                                              (package_num request) (package_num q) = false)
                     pre
           /\ (post = []
               \/ exists p post', post = p :: post'
                    /\ goes_before (last_acked lt) (window_size lt)
                                   (package_num request) (package_num p) = true)).
Proof.
  unfold buffer_request.
  destruct (already_acked _ _ _) eqn:Ea; [by left|].
  pose proof (buffer_loop_split (last_acked lt) (window_size lt) request (buffer lt) []) as H.
  simpl in H.
  destruct (buffer_loop _ _ _ _ _ _) as [b|].
  - destruct H as [[-> _] | (mid & p & rest' & Hb & -> & Hmid & Hg)].
    + left. apply set_buffer_same.
    + right. split; [reflexivity|]. exists mid, (p :: rest'). eauto 10.
  - right. split; [reflexivity|]. exists (buffer lt), [].
    rewrite app_nil_r. auto.
Qed.

Lemma StronglySorted_weaken {A} (R R' : relation A) (P : A -> Prop) (l : list A) :
  Forall P l -> (forall x y, P x -> P y -> R x y -> R' x y) ->
  StronglySorted R l -> StronglySorted R' l.
Proof.
  intros HP Himp HS. induction HS as [|x l HS IH Hx]; [constructor|].
  apply Forall_cons in HP. destruct HP as [Px Pl].
  constructor; [auto|].
  rewrite Forall_forall in *. intros y Hy. auto.
Qed.

(** The order of the buffer survives [buffer_request]. *)
Lemma buffer_request_invariant lt request :
  receiver_invariant lt ->
  0 <= package_num request < 2 * window_size lt ->
  receiver_invariant (buffer_request lt request).
Proof.
  intros (Hd & HW & Hla & Hf & Ho) Hn.
  destruct (buffer_request_cases lt request)
    as [-> | (Ha & pre & post & Hb & -> & Hpre & Hpost)].
  { exact (conj Hd (conj HW (conj Hla (conj Hf Ho)))). }
  assert (Hr : fresh lt (package_num request)) by (split; assumption).
  unfold receiver_invariant, in_order in *. simpl.
  rewrite Hb in Hf, Ho.
  apply Forall_app in Hf. destruct Hf as [Hfpre Hfpost].
  apply StronglySorted_app in Ho. destruct Ho as (Hcross & Hspre & Hspost).
  split; [assumption|]. split; [assumption|]. split; [assumption|]. split.
  - apply Forall_app. split; [assumption|]. constructor; assumption.
  - apply StronglySorted_app_2.
    + intros x y Hx Hy. apply elem_of_cons in Hy. destruct Hy as [->|Hy]; [|auto].
      rewrite Forall_forall in Hpre, Hfpre.
      destruct (Hpre x Hx) as [Hne Hg].
      apply (goes_before_total lt); auto.
    + assumption.
    + destruct Hpost as [-> | (p & post' & -> & Hg)]; [repeat constructor|].
      apply StronglySorted_cons in Hspost. destruct Hspost as [Hp Hsp].
      apply Forall_cons in Hfpost. destruct Hfpost as [Hfp Hfpost].
      constructor; [constructor; assumption|].
      constructor; [assumption|].
      rewrite Forall_forall in *. intros r Hin.
      apply (goes_before_trans lt _ (package_num p)); auto.
Qed.


Lemma invariant_tail lt p rest :
  receiver_invariant lt -> buffer lt = p :: rest ->
  receiver_invariant (set_buffer rest lt).
Proof.
  intros (Hd & HW & Hla & Hf & Ho) Hb.
  unfold receiver_invariant, in_order in *. simpl. rewrite Hb in Hf, Ho.
  apply Forall_cons in Hf. apply StronglySorted_cons in Ho. tauto.
Qed.

Lemma invariant_after_front lt p rest m :
  receiver_invariant lt -> buffer lt = p :: rest ->
  package_num p = (last_acked lt + 1) mod (2 * window_size lt) ->
  receiver_invariant (set_last_acked (package_num p) (set_message m (set_buffer rest lt))).
Proof.
  intros (Hd & HW & Hla & Hf & Ho) Hb Hp.
  unfold in_order in Ho. rewrite Hb in Hf, Ho.
  apply Forall_cons in Hf. destruct Hf as [Hfp Hf].
  apply StronglySorted_cons in Ho. destruct Ho as [Hbefore Ho].
  set (lt' := set_last_acked (package_num p) (set_message m (set_buffer rest lt))).
  assert (Hne : Forall (fun q => package_num q <> last_acked lt') rest).
  { rewrite Forall_forall in *. intros q Hq. simpl.
    intros Heq. apply (goes_before_ne _ _ _ _ (Hbefore q Hq)). congruence. }
  assert (Hf' : Forall (fun q => fresh lt' (package_num q)) rest).
  { rewrite Forall_forall in *. intros q Hq.
    apply (advance_fresh lt lt'); auto. }
  split; [exact Hd|]. split; [exact HW|]. split; [destruct Hfp; simpl; lia|].
  split; [exact Hf'|].
  unfold in_order. simpl buffer.
  refine (StronglySorted_weaken _ _
            (fun q => fresh lt (package_num q) /\ package_num q <> last_acked lt')
            rest _ _ Ho).
  - rewrite Forall_forall in *. auto.
  - intros x y [Hx Hxn] [Hy Hyn] Hxy. apply (advance_order lt lt'); auto.
Qed.

(** Under the order of the buffer the second position never holds the
    number that follows the last ack. *)
Lemma drain_loop_second fuel lt :
  receiver_invariant lt -> drain_loop fuel 1 lt = (lt, Ok ()).
Proof.
  intros (Hd & HW & Hla & Hf & Ho).
  destruct fuel as [|fuel]; [reflexivity|]. simpl.
  destruct (buffer lt) as [|b [|c rest]] eqn:Hb; try reflexivity. simpl.
  decide_test (2 * window_size lt =? 0).
  unfold in_order in Ho. rewrite Hb in Ho.
  apply StronglySorted_cons in Ho. destruct Ho as [Hbefore _].
  apply Forall_cons in Hbefore. destruct Hbefore as [Hbc _].
  apply Forall_cons in Hf. destruct Hf as [Hfb _].
  pose proof (nothing_before_next lt _ HW Hla Hfb) as Hnext.
  destruct (package_num c =? (last_acked lt + 1) mod (2 * window_size lt)) eqn:Ec;
    [|reflexivity].
  prop_of_bool. rewrite Ec in Hbc. congruence.
Qed.

Lemma drain_if_nonempty lt :
  (if 0 <? len (buffer lt) then drain_loop (length (buffer lt)) 0 lt else (lt, Ok ()))
  = drain_loop (length (buffer lt)) 0 lt.
Proof. destruct (buffer lt); reflexivity. Qed.

(** Under the order of the buffer, the drain of one call takes the front
    package when it carries the next number, and nothing else. *)
Lemma drain_loop_cases lt :
  receiver_invariant lt ->
  drain_loop (length (buffer lt)) 0 lt = (lt, Ok ())
  \/ exists p rest,
       buffer lt = p :: rest
       /\ package_num p = (last_acked lt + 1) mod (2 * window_size lt)
       /\ ((exists text,
              data_to_message p = Ok text
              /\ drain_loop (length (buffer lt)) 0 lt
                 = (set_last_acked (package_num p)
                      (set_message (message lt ++ text) (set_buffer rest lt)), Ok ()))
           \/ (exists e,
                 data_to_message p = Raise e
                 /\ drain_loop (length (buffer lt)) 0 lt = (set_buffer rest lt, Raise e))).
Proof.
  intros Hinv. pose proof Hinv as (Hd & HW & Hla & Hf & Ho).
  destruct (buffer lt) as [|p rest] eqn:Hb; [by left|].
  destruct (package_num p =? (last_acked lt + 1) mod (2 * window_size lt)) eqn:Ep.
  - right. exists p, rest. prop_of_bool. split; [reflexivity|]. split; [assumption|].
    destruct (data_to_message p) as [text|e] eqn:Et.
    + left. exists text. split; [reflexivity|].
      change (length (p :: rest)) with (S (length rest)).
      rewrite (drain_loop_round _ 0%nat lt p text) by (try rewrite Hb; auto; lia).
      rewrite Hb. simpl delete.
      apply drain_loop_second. apply (invariant_after_front lt p rest); assumption.
    + right. exists e. split; [reflexivity|].
      simpl. rewrite Hb. simpl.
      decide_test (2 * window_size lt =? 0).
      decide_test (package_num p =? (last_acked lt + 1) mod (2 * window_size lt)).
      rewrite Et. reflexivity.
  - left. simpl. rewrite Hb. simpl.
    decide_test (2 * window_size lt =? 0).
    decide_test (package_num p =? (last_acked lt + 1) mod (2 * window_size lt)).
    reflexivity.
Qed.


Lemma process_request_decided policy lt request :
  decided_size lt = true ->
  process_request policy lt request
  = match drain_loop (length (buffer (buffer_request lt request))) 0
                     (buffer_request lt request) with
    | (lt', Raise e) => (lt', Raise e)
    | (lt', Ok _) => (lt', AckHeader_init (last_acked lt') (max_message_length lt'))
    end.
Proof.
  intros Hd. unfold process_request, decide_size. rewrite Hd. simpl negb. cbv iota.
  rewrite drain_if_nonempty. reflexivity.
Qed.

Lemma buffer_request_fields lt request :
  decided_size (buffer_request lt request) = decided_size lt
  /\ max_message_length (buffer_request lt request) = max_message_length lt
  /\ window_size (buffer_request lt request) = window_size lt
  /\ last_acked (buffer_request lt request) = last_acked lt
  /\ message (buffer_request lt request) = message lt.
Proof.
  unfold buffer_request.
  destruct (already_acked _ _ _); [tauto|].
  destruct (buffer_loop _ _ _ _ _ _); simpl; tauto.
Qed.

(** What one call of [process_request] does to a connection whose buffer
    is in order. *)
Lemma process_request_cases policy lt request :
  receiver_invariant lt ->
  0 <= package_num request < 2 * window_size lt ->
  let lt1 := buffer_request lt request in
  process_request policy lt request
  = (lt1, AckHeader_init (last_acked lt) (max_message_length lt))
  \/ exists p rest,
       buffer lt1 = p :: rest
       /\ package_num p = (last_acked lt + 1) mod (2 * window_size lt)
       /\ ((exists text,
              data_to_message p = Ok text
              /\ process_request policy lt request
                 = (set_last_acked (package_num p)
                      (set_message (message lt ++ text) (set_buffer rest lt1)),
                    AckHeader_init (package_num p) (max_message_length lt)))
           \/ (exists e,
                 data_to_message p = Raise e
                 /\ process_request policy lt request = (set_buffer rest lt1, Raise e))).
Proof.
  intros Hinv Hn lt1. pose proof Hinv as (Hd & _).
  pose proof (buffer_request_invariant lt request Hinv Hn) as Hinv1. fold lt1 in Hinv1.
  pose proof (buffer_request_fields lt request) as (_ & Hm & HW & Hla & Hmsg).
  fold lt1 in Hm, HW, Hla, Hmsg.
  rewrite (process_request_decided policy lt request Hd). fold lt1.
  destruct (drain_loop_cases lt1 Hinv1)
    as [-> | (p & rest & Hb & Hp & [(text & Ht & ->) | (e & He & ->)])].
  - left. rewrite Hla, Hm. reflexivity.
  - right. exists p, rest. rewrite Hla, HW in Hp. split; [assumption|]. split; [assumption|].
    left. exists text. split; [assumption|]. simpl. rewrite Hm, Hmsg. reflexivity.
  - right. exists p, rest. rewrite Hla, HW in Hp. split; [assumption|]. split; [assumption|].
    right. exists e. auto.
Qed.

Lemma process_request_invariant policy lt request :
  receiver_invariant lt ->
  0 <= package_num request < 2 * window_size lt ->
  receiver_invariant (fst (process_request policy lt request)).
Proof.
  intros Hinv Hn.
  pose proof (buffer_request_invariant lt request Hinv Hn) as Hinv1.
  pose proof (buffer_request_fields lt request) as (_ & Hm & HW & Hla & Hmsg).
  destruct (process_request_cases policy lt request Hinv Hn)
    as [-> | (p & rest & Hb & Hp & [(text & Ht & ->) | (e & He & ->)])]; simpl.
  - assumption.
  - apply (invariant_after_front _ p rest); [assumption..|]. rewrite Hla, HW. exact Hp.
  - apply (invariant_tail _ p rest); assumption.
Qed.

Lemma process_request_first mml request :
  valid_segment request ->
  process_request (Ok mml) new_local_thread request
  = process_request (Ok mml)
      (mk_local_thread true mml (actual_window_size request) (-1) [] []) request
  /\ receiver_invariant (mk_local_thread true mml (actual_window_size request) (-1) [] [])
  /\ 0 <= package_num request < 2 * actual_window_size request.
Proof.
  intros (Hw & Hws & Hn & _). split; [|split; [|exact Hn]].
  - unfold process_request, decide_size. simpl.
    rewrite Hws. replace (actual_window_size request - 1 + 1)
      with (actual_window_size request) by lia. reflexivity.
  - unfold receiver_invariant, in_order. simpl.
    repeat split; try lia; constructor.
Qed.


Lemma next_is_fresh lt :
  2 <= window_size lt -> -1 <= last_acked lt < 2 * window_size lt ->
  fresh lt ((last_acked lt + 1) mod (2 * window_size lt)).
Proof.
  intros HW Hla.
  destruct (next_cases (last_acked lt) (window_size lt)) as [[Hlt ->]|[He ->]];
    try lia; order_cases.
Qed.

(** A package with the next number that finds the buffer empty is
    drained at once. *)
Lemma process_request_next policy lt request text :
  receiver_invariant lt -> buffer lt = [] -> 2 <= window_size lt ->
  package_num request = (last_acked lt + 1) mod (2 * window_size lt) ->
  data_to_message request = Ok text ->
  process_request policy lt request
  = (mk_local_thread true (max_message_length lt) (window_size lt)
                     (package_num request) (message lt ++ text) [],
     AckHeader_init (package_num request) (max_message_length lt)).
Proof.
  intros (Hd & HW1 & Hla & _) Hb HW Hn Ht.
  pose proof (next_is_fresh lt HW Hla) as [_ Hfresh]. rewrite <- Hn in Hfresh.
  assert (H1 : buffer_request lt request = set_buffer [request] lt).
  { unfold buffer_request. rewrite Hfresh, Hb. reflexivity. }
  rewrite (process_request_decided policy lt request Hd), H1.
  change (length (buffer (set_buffer [request] lt))) with 1%nat.
  rewrite (drain_loop_round 0 0%nat _ request text);
    [| reflexivity | simpl; lia | simpl; exact Hn | exact Ht].
  simpl. unfold set_last_acked, set_message, set_buffer. simpl.
  rewrite Hd. reflexivity.
Qed.

Lemma process_requests_numbered policy : forall requests texts lt response,
  receiver_invariant lt -> buffer lt = [] ->
  2 <= window_size lt <= 128 -> 0 <= max_message_length lt <= 65535 ->
  requests <> [] ->
  numbered (last_acked lt) (window_size lt) requests ->
  Forall2 (fun request text => data_to_message request = Ok text) requests texts ->
  exists final,
    last requests = Some final
    /\ process_requests policy lt requests response
       = (mk_local_thread true (max_message_length lt) (window_size lt)
                          (package_num final) (message lt ++ concat texts) [],
          Ok (Some (mkAckHeader (max_message_length lt) (package_num final)))).
Proof.
  induction requests as [|request requests IH];
    intros texts lt response Hinv Hb HW Hm Hne Hnum Hdec; [contradiction|].
  destruct Hnum as [Hn Hnum].
  apply Forall2_cons_inv_l in Hdec. destruct Hdec as (text & texts' & Ht & Hdec & ->).
  pose proof Hinv as (_ & _ & Hla & _).
  pose proof (next_is_fresh lt (proj1 HW) Hla) as [Hrange _]. rewrite <- Hn in Hrange.
  pose proof (process_request_invariant policy lt request Hinv) as Hinv'.
  simpl process_requests.
  rewrite (process_request_next policy lt request text Hinv Hb (proj1 HW) Hn Ht) in *.
  rewrite AckHeader_init_valid by lia.
  simpl in Hinv'.
  destruct requests as [|request' requests'].
  - apply Forall2_nil_inv_l in Hdec. subst texts'.
    exists request. simpl. rewrite app_nil_r. split; reflexivity.
  - specialize (IH texts'
      (mk_local_thread true (max_message_length lt) (window_size lt)
                       (package_num request) (message lt ++ text) [])
      (Some (mkAckHeader (max_message_length lt) (package_num request)))).
    cbn [max_message_length window_size last_acked message buffer decided_size] in IH.
    destruct (IH (Hinv' Hrange) eq_refl HW Hm ltac:(discriminate) Hnum Hdec)
      as (final & Hlast & Hrun).
    exists final. split; [exact Hlast|].
    rewrite Hrun. simpl. rewrite <- app_assoc. reflexivity.
Qed.


(** The drain only takes packages out of the buffer and only adds text
    to the message; what was agreed for the connection stays. *)
Lemma drain_loop_keeps fuel : forall i lt,
  let lt' := fst (drain_loop fuel i lt) in
  decided_size lt' = decided_size lt
  /\ max_message_length lt' = max_message_length lt
  /\ window_size lt' = window_size lt
  /\ message lt `prefix_of` message lt'
  /\ buffer lt' `sublist_of` buffer lt.
Proof.
  induction fuel as [|fuel IH]; intros i lt; simpl.
  { repeat split; reflexivity. }
  destruct (buffer lt !! i) as [package|]; [|repeat split; reflexivity].
  destruct (2 * window_size lt =? 0); [repeat split; reflexivity|].
  destruct (package_num package =? (last_acked lt + 1) mod (2 * window_size lt));
    [|repeat split; reflexivity].
  destruct (data_to_message package) as [text|e]; simpl.
  - specialize (IH (S i) (set_last_acked (package_num package)
                            (set_message (message lt ++ text)
                               (set_buffer (delete i (buffer lt)) lt)))).
    simpl in IH. destruct IH as (Hd & Hm & HW & Hmsg & Hb).
    repeat split; try assumption.
    + etrans; [|exact Hmsg]. by apply prefix_app_r.
    + etrans; [exact Hb|]. apply sublist_delete.
  - repeat split; try reflexivity. apply sublist_delete.
Qed.

Lemma buffer_request_elems lt request :
  Forall (fun p => p ∈ buffer lt \/ p = request) (buffer (buffer_request lt request)).
Proof.
  rewrite Forall_forall. intros p Hp.
  destruct (buffer_request_cases lt request)
    as [E | (_ & pre & post & Hb & E & _)]; rewrite E in Hp; [by left|].
  simpl in Hp. rewrite Hb.
  apply elem_of_app in Hp. destruct Hp as [Hp|Hp].
  - left. apply elem_of_app. by left.
  - apply elem_of_cons in Hp. destruct Hp as [->|Hp]; [by right|].
    left. apply elem_of_app. by right.
Qed.

Lemma process_request_keeps policy lt request :
  decided_size lt = true ->
  let lt' := fst (process_request policy lt request) in
  decided_size lt' = true
  /\ max_message_length lt' = max_message_length lt
  /\ window_size lt' = window_size lt
  /\ message lt `prefix_of` message lt'
  /\ Forall (fun p => p ∈ buffer lt \/ p = request) (buffer lt').
Proof.
  intros Hd lt'. subst lt'.
  rewrite (process_request_decided policy lt request Hd).
  pose proof (drain_loop_keeps (length (buffer (buffer_request lt request))) 0
                               (buffer_request lt request)) as H.
  pose proof (buffer_request_fields lt request) as (Hd1 & Hm1 & HW1 & _ & Hmsg1).
  pose proof (buffer_request_elems lt request) as He.
  destruct (drain_loop _ _ _) as [lt2 [u|e]]; simpl in *;
    destruct H as (Hd2 & Hm2 & HW2 & Hmsg2 & Hb2);
    (split; [congruence|]; split; [congruence|]; split; [congruence|];
     split; [rewrite <- Hmsg1; exact Hmsg2|];
     rewrite Forall_forall in *; intros p Hp; apply He;
     exact (elem_of_sublist _ _ _ Hp Hb2)).
Qed.


(** With a window of one package nothing is ever taken: every request
    counts as already acked and the ack for -1 cannot be built. *)
Lemma process_request_window_1 policy mml text request :
  0 <= package_num request ->
  process_request policy (mk_local_thread true mml 1 (-1) text []) request
  = (mk_local_thread true mml 1 (-1) text [], AckHeader_init (-1) mml)
  /\ is_ok (AckHeader_init (-1) mml) = false.
Proof.
  intros Hn. split.
  - unfold process_request, decide_size, buffer_request. simpl.
    decide_test (already_acked (-1) 1 (package_num request)).
    + reflexivity.
    + unfold already_acked in E. prop_of_bool; lia.
  - unfold AckHeader_init. destruct ((mml <? 0) || (2 ^ 16 <=? mml)); reflexivity.
Qed.

(** X7.  [buffer_request] either leaves the connection as it is or puts
    the request at one place of the buffer: behind packages with other
    numbers that it does not go before, and in front of a package that
    it goes before or at the end.  Nothing else of the connection
    changes. *)
Theorem buffer_request_inserts (lt : local_thread) (request : MessageHeader) :
  buffer_request lt request = lt
  \/ (already_acked (last_acked lt) (window_size lt) (package_num request) = false
      /\ exists pre post,
           buffer lt = pre ++ post
           /\ buffer_request lt request = set_buffer (pre ++ request :: post) lt
           /\ Forall (fun q => package_num q <> package_num request
                               /\ goes_before (last_acked lt) (window_size lt)
                                              (package_num request) (package_num q) = false)
                     pre
           /\ (post = []
               \/ exists p post', post = p :: post'
                    /\ goes_before (last_acked lt) (window_size lt)
                                   (package_num request) (package_num p) = true)).
Proof. exact (buffer_request_cases lt request). Qed.

(** X8.  The first request of a connection, when it is a package that
    the constructor let through and the console gave a number, leaves
    the connection with a buffer in order, all of whose numbers can still
    be taken; every further request whose number lies in the cycle of the
    numbers keeps the connection so, whatever the call returns or
    raises. *)
Theorem buffer_stays_in_order :
  (forall mml request,
     valid_segment request ->
     receiver_invariant (fst (process_request (Ok mml) new_local_thread request)))
  /\ (forall policy lt request,
        receiver_invariant lt ->
        0 <= package_num request < 2 * window_size lt ->
        receiver_invariant (fst (process_request policy lt request))).
Proof.
  split; [|exact process_request_invariant].
  intros mml request Hv.
  destruct (process_request_first mml request Hv) as (-> & Hinv & Hn).
  apply process_request_invariant; assumption.
Qed.

(** X9.  On a connection as [receiver_invariant] describes it (the size
    decided, a window size of at least 1, the last ack in
    [-1, 2 * window size), a buffer in order that holds only numbers of
    [0, 2 * window size) that are not taken for already acked), and for a
    request whose number lies in [0, 2 * window size), one call of
    [process_request] moves the last ack by at most one number: either
    the last ack and the message stay, or a package of the buffer or the
    request carried the next number, the last ack becomes this number and
    the text of this one package is added to the message.  The server
    does not check the number of a request against this range. *)
Theorem one_package_per_call (policy : result Z) (lt : local_thread)
    (request : MessageHeader) :
  receiver_invariant lt ->
  0 <= package_num request < 2 * window_size lt ->
  (last_acked (fst (process_request policy lt request)) = last_acked lt
   /\ message (fst (process_request policy lt request)) = message lt)
  \/ (exists p text,
        (p ∈ buffer lt \/ p = request)
        /\ package_num p = (last_acked lt + 1) mod (2 * window_size lt)
        /\ data_to_message p = Ok text
        /\ last_acked (fst (process_request policy lt request)) = package_num p
        /\ message (fst (process_request policy lt request)) = message lt ++ text).
Proof.
  intros Hinv Hn.
  pose proof (buffer_request_fields lt request) as (_ & _ & _ & Hla & Hmsg).
  pose proof (buffer_request_elems lt request) as He.
  destruct (process_request_cases policy lt request Hinv Hn)
    as [-> | (p & rest & Hb & Hp & [(text & Ht & ->) | (e & He' & ->)])]; simpl.
  - left. auto.
  - right. exists p, text. rewrite Hb in He. apply Forall_cons in He.
    destruct He as [Hin _]. auto.
  - left. auto.
Qed.

(** X10.  On a connection as [receiver_invariant] describes it, with an
    empty buffer, a window size from 2 to 128 and a maximum message
    length from 0 to 65535, packages that arrive, at least one, with the
    numbers that follow the last ack, one after the other, and with data
    that decode to texts, are all drained: the message grows by their
    texts in the order of arrival, the buffer is empty again, and the
    response is the ack of the last of them.  The maximum message length
    is what the console gave; the server does not check it against the
    range of an ack. *)
Theorem numbered_requests_are_drained (policy : result Z)
    (requests : list MessageHeader) (texts : list str) (lt : local_thread)
    (response : option AckHeader) :
  receiver_invariant lt -> buffer lt = [] ->
  2 <= window_size lt <= 128 -> 0 <= max_message_length lt <= 65535 ->
  requests <> [] ->
  numbered (last_acked lt) (window_size lt) requests ->
  Forall2 (fun request text => data_to_message request = Ok text) requests texts ->
  exists final,
    last requests = Some final
    /\ process_requests policy lt requests response
       = (mk_local_thread true (max_message_length lt) (window_size lt)
                          (package_num final) (message lt ++ concat texts) [],
          Ok (Some (mkAckHeader (max_message_length lt) (package_num final)))).
Proof. exact (process_requests_numbered policy requests texts lt response). Qed.

(** X11.  Once the maximum message length and the window size of a
    connection are decided, [process_request] keeps them, adds to the end
    of the message only, and holds no package in the buffer that was not
    there before or is the request. *)
Theorem process_request_keeps_agreement (policy : result Z) (lt : local_thread)
    (request : MessageHeader) :
  decided_size lt = true ->
  decided_size (fst (process_request policy lt request)) = true
  /\ max_message_length (fst (process_request policy lt request)) = max_message_length lt
  /\ window_size (fst (process_request policy lt request)) = window_size lt
  /\ message lt `prefix_of` message (fst (process_request policy lt request))
  /\ Forall (fun p => p ∈ buffer lt \/ p = request)
            (buffer (fst (process_request policy lt request))).
Proof. exact (process_request_keeps policy lt request). Qed.

(** X12.  A connection whose window holds one package takes no package:
    whatever number a request carries, it counts as already acked, the
    connection stays as it is, and the call raises instead of returning
    an ack, so that no response is ever sent. *)
Theorem window_of_one_takes_nothing (policy : result Z) (mml : Z) (text : str)
    (request : MessageHeader) :
  0 <= package_num request ->
  process_request policy (mk_local_thread true mml 1 (-1) text []) request
  = (mk_local_thread true mml 1 (-1) text [], AckHeader_init (-1) mml)
  /\ is_ok (AckHeader_init (-1) mml) = false.
Proof. exact (process_request_window_1 policy mml text request). Qed.

End Order.

(** The connection of the scenarios is as it should be. *)
Lemma after_handshake_invariant : receiver_invariant after_handshake.
Proof.
  split; [reflexivity|]. split; [vm_compute; discriminate|].
  split; [vm_compute; split; [discriminate | reflexivity]|].
  split; [constructor | constructor].
Qed.

Lemma buffer_stays_in_order_witness :
  valid_segment (size_request 4)
  /\ receiver_invariant
       (fst (Server.process_request (Ok 100) Server.new_local_thread (size_request 4)))
  /\ receiver_invariant
       (fst (Server.process_request console_100 after_handshake (segment 4 2 [x62]))).
Proof.
  assert (Hv : valid_segment (size_request 4)).
  { unfold valid_segment. vm_compute. intuition discriminate. }
  split; [exact Hv|]. split.
  - exact (proj1 buffer_stays_in_order 100 _ Hv).
  - apply (proj2 buffer_stays_in_order console_100 after_handshake (segment 4 2 [x62])).
    + exact after_handshake_invariant.
    + vm_compute. split; [discriminate | reflexivity].
Defined.

Lemma one_package_per_call_witness :
  receiver_invariant after_handshake
  /\ Server.process_request console_100 after_handshake (segment 4 1 [x61])
     = (Server.mk_local_thread true 100 4 1 [97] [], Ok (API.mkAckHeader 100 1))
  /\ ((Server.last_acked
         (fst (Server.process_request console_100 after_handshake (segment 4 1 [x61])))
       = Server.last_acked after_handshake
       /\ Server.message
            (fst (Server.process_request console_100 after_handshake (segment 4 1 [x61])))
          = Server.message after_handshake)
      \/ (exists p text,
            (p ∈ Server.buffer after_handshake \/ p = segment 4 1 [x61])
            /\ API.package_num p
               = (Server.last_acked after_handshake + 1)
                 mod (2 * Server.window_size after_handshake)
            /\ API.data_to_message p = Ok text
            /\ Server.last_acked
                 (fst (Server.process_request console_100 after_handshake
                                              (segment 4 1 [x61])))
               = API.package_num p
            /\ Server.message
                 (fst (Server.process_request console_100 after_handshake
                                              (segment 4 1 [x61])))
               = Server.message after_handshake ++ text)).
Proof.
  split; [exact after_handshake_invariant|]. split; [vm_compute; reflexivity|].
  apply (one_package_per_call console_100 after_handshake (segment 4 1 [x61])).
  - exact after_handshake_invariant.
  - vm_compute. split; [discriminate | reflexivity].
Defined.

Lemma numbered_requests_are_drained_witness :
  numbered 0 4 [segment 4 1 [x61]; segment 4 2 [x62]]
  /\ exists final,
       last [segment 4 1 [x61]; segment 4 2 [x62]] = Some final
       /\ Server.process_requests console_100 after_handshake
            [segment 4 1 [x61]; segment 4 2 [x62]] None
          = (Server.mk_local_thread true 100 4 (API.package_num final)
                                    ([] ++ concat [[97]; [98]]) [],
             Ok (Some (API.mkAckHeader 100 (API.package_num final)))).
Proof.
  assert (Hn : numbered 0 4 [segment 4 1 [x61]; segment 4 2 [x62]]).
  { simpl. split; [reflexivity|]. split; [reflexivity | exact I]. }
  split; [exact Hn|].
  apply (numbered_requests_are_drained console_100
           [segment 4 1 [x61]; segment 4 2 [x62]] [[97]; [98]] after_handshake None).
  - exact after_handshake_invariant.
  - reflexivity.
  - vm_compute. split; discriminate.
  - vm_compute. split; discriminate.
  - discriminate.
  - exact Hn.
  - repeat constructor.
Defined.

Lemma process_request_keeps_agreement_witness :
  Server.decided_size after_handshake = true
  /\ Server.max_message_length
       (fst (Server.process_request console_100 after_handshake (segment 4 2 [x62])))
     = 100
  /\ Server.window_size
       (fst (Server.process_request console_100 after_handshake (segment 4 2 [x62])))
     = 4
  /\ Forall (fun p => p ∈ Server.buffer after_handshake \/ p = segment 4 2 [x62])
            (Server.buffer
               (fst (Server.process_request console_100 after_handshake
                                            (segment 4 2 [x62])))).
Proof.
  split; [reflexivity|].
  destruct (process_request_keeps_agreement console_100 after_handshake
              (segment 4 2 [x62]) eq_refl) as (_ & Hm & Hw & _ & Hb).
  split; [exact Hm|]. split; [exact Hw | exact Hb].
Defined.

Lemma window_of_one_takes_nothing_witness :
  Server.process_request console_100 (Server.mk_local_thread true 100 1 (-1) [] [])
                         (segment 1 0 [x61])
  = (Server.mk_local_thread true 100 1 (-1) [] [], API.AckHeader_init (-1) 100)
  /\ is_ok (API.AckHeader_init (-1) 100) = false.
Proof.
  apply (window_of_one_takes_nothing console_100 100 [] (segment 1 0 [x61])).
  vm_compute. discriminate.
Defined.

(** ** The receiver: admission into the buffer, as a whole *)

Section AdmissionClaims.
Import API Server.



End AdmissionClaims.



(** ** The receiver: a whole read *)

Section Round.
Import API Server.

Lemma mapR_pack_valid (ms : list MessageHeader) :
  Forall valid_segment ms ->
  exists bs,
    mapR MessageHeader_pack ms = Ok bs
    /\ Forall2 (fun m b => MessageHeader_unpack b = (false, Ok m)
                           /\ unpack_total_message_size b = Ok (len b)) ms bs.
Proof.
  induction 1 as [|m ms Hv _ (bs & Hp & Hf)].
  - exists []. split; [reflexivity | constructor].
  - destruct (MessageHeader_round_trip m Hv) as (b & Hb & Hu).
    destruct (MessageHeader_pack_length m b Hb) as (_ & _ & Hl).
    exists (b :: bs). simpl. rewrite Hb, Hp. split; [reflexivity|].
    constructor; [|assumption]. split; [assumption | apply Hl, Hv].
Qed.

Lemma mapR_unpack_packed (ms : list MessageHeader) (bs : list bytes) :
  Forall2 (fun m b => MessageHeader_unpack b = (false, Ok m)
                      /\ unpack_total_message_size b = Ok (len b)) ms bs ->
  mapR (fun separate => snd (MessageHeader_unpack separate)) bs = Ok ms
  /\ Forall (fun b => unpack_total_message_size b = Ok (len b)) bs.
Proof.
  induction 1 as [|m b ms bs [Hu Ht] _ [IH1 IH2]]; [split; [reflexivity | constructor]|].
  simpl. rewrite Hu, IH1. split; [reflexivity | constructor; assumption].
Qed.

Lemma unpack_requests_packed (ms : list MessageHeader) :
  Forall valid_segment ms -> ms <> [] ->
  exists bs,
    mapR MessageHeader_pack ms = Ok bs
    /\ separate_requests (concat bs) = Ok bs
    /\ unpack_requests (concat bs) = Ok ms.
Proof.
  intros Hv Hne. destruct (mapR_pack_valid ms Hv) as (bs & Hp & Hf).
  destruct (mapR_unpack_packed ms bs Hf) as [Hu He].
  assert (Hbs : bs <> []) by (destruct Hf; [contradiction | discriminate]).
  pose proof (separate_requests_whole bs (exact_framed bs Hbs He)) as Hs.
  exists bs. split; [assumption|]. split; [assumption|].
  unfold unpack_requests. rewrite Hs. simpl. rewrite Hu. reflexivity.
Qed.

Lemma process_request_response policy lt request lt' a :
  process_request policy lt request = (lt', Ok a) ->
  AckHeader_init (last_acked lt') (max_message_length lt') = Ok a.
Proof.
  unfold process_request.
  destruct (decide_size policy lt request) as [lt0 [u|e]]; [|discriminate].
  destruct (if 0 <? len (buffer (buffer_request lt0 request))
            then drain_loop (length (buffer (buffer_request lt0 request))) 0
                            (buffer_request lt0 request)
            else (buffer_request lt0 request, Ok ())) as [lt1 [u'|e]]; [|discriminate].
  intros [= <- H]. exact H.
Qed.

Lemma process_requests_response policy : forall requests lt response lt' a,
  process_requests policy lt requests response = (lt', Ok (Some a)) ->
  (requests = [] /\ response = Some a /\ lt' = lt)
  \/ AckHeader_init (last_acked lt') (max_message_length lt') = Ok a.
Proof.
  induction requests as [|request requests IH]; intros lt response lt' a; simpl.
  - intros H. injection H as <- ->. left. auto.
  - destruct (process_request policy lt request) as [lt1 [a1|e]] eqn:E1; [|discriminate].
    intros H. right.
    destruct (IH _ _ _ _ H) as [(_ & Ha & ->)|Hr]; [|assumption].
    injection Ha as <-. exact (process_request_response _ _ _ _ _ E1).
Qed.

Lemma AckHeader_unpack_length b a : AckHeader_unpack b = Ok a -> len b = HEADER_LENGTH.
Proof.
  unfold AckHeader_unpack.
  destruct (len b =? HEADER_LENGTH) eqn:E; prop_of_bool; [auto | discriminate].
Qed.

Lemma client_handler_round_response policy lt data lt' response :
  client_handler_round policy lt data = Served lt' (Some response) ->
  len response = ACK_BUFFER_SIZE
  /\ AckHeader_unpack response = Ok (mkAckHeader (max_message_length lt') (last_acked lt')).
Proof.
  unfold client_handler_round.
  destruct (len data =? 0); [discriminate|].
  destruct (unpack_requests data) as [requests|]; [|discriminate].
  destruct (process_requests policy lt requests None) as [lt1 [[a|]|e]] eqn:Ep;
    try discriminate.
  destruct (AckHeader_pack a) as [packed|] eqn:Ea; [|discriminate].
  intros [= <- <-].
  destruct (process_requests_response _ _ _ _ _ _ Ep) as [(_ & Hn & _)|Hi]; [discriminate|].
  apply AckHeader_init_inv in Hi. destruct Hi as [-> Hv].
  destruct (AckHeader_round_trip _ Hv) as (b & Hb & Hu).
  rewrite Ea in Hb. injection Hb as <-.
  split; [exact (AckHeader_unpack_length _ _ Hu) | exact Hu].
Qed.

(** X13.  Packages that the constructor let through, packed and put
    together into one read in any number, come out of the inner [try] of
    [client_handler] as these very packages, in their order: the read is
    separated into the bytes of each package and each unpacks to its
    package. *)
Theorem coalesced_packages_are_recovered (ms : list MessageHeader) :
  Forall valid_segment ms -> ms <> [] ->
  exists bs,
    mapR MessageHeader_pack ms = Ok bs
    /\ separate_requests (concat bs) = Ok bs
    /\ unpack_requests (concat bs) = Ok ms.
Proof. exact (unpack_requests_packed ms). Qed.

(** X14.  Every response that a round of [client_handler] sends has the
    three bytes of an ack and unpacks to the ack that carries the maximum
    message length and the last ack of the connection as the round left
    it. *)
Theorem response_carries_last_ack (policy : result Z) (lt : local_thread) (data : bytes)
    (lt' : local_thread) (response : bytes) :
  client_handler_round policy lt data = Served lt' (Some response) ->
  len response = ACK_BUFFER_SIZE
  /\ AckHeader_unpack response = Ok (mkAckHeader (max_message_length lt') (last_acked lt')).
Proof. exact (client_handler_round_response policy lt data lt' response). Qed.

End Round.

Lemma coalesced_packages_are_recovered_witness :
  Forall valid_segment [segment 4 1 [x61]; segment 4 2 [x62]]
  /\ exists bs,
       mapR API.MessageHeader_pack [segment 4 1 [x61]; segment 4 2 [x62]] = Ok bs
       /\ Server.separate_requests (concat bs) = Ok bs
       /\ Server.unpack_requests (concat bs) = Ok [segment 4 1 [x61]; segment 4 2 [x62]].
Proof.
  assert (Hv : Forall valid_segment [segment 4 1 [x61]; segment 4 2 [x62]]).
  { repeat constructor; vm_compute; intuition discriminate. }
  split; [exact Hv|].
  apply (coalesced_packages_are_recovered _ Hv). discriminate.
Defined.

Lemma response_carries_last_ack_witness :
  Server.client_handler_round console_100 Server.new_local_thread (wire (size_request 4))
  = Server.Served after_handshake (Some [x00; x64; x00])
  /\ len [x00; x64; x00] = API.ACK_BUFFER_SIZE
  /\ API.AckHeader_unpack [x00; x64; x00]
     = Ok (API.mkAckHeader (Server.max_message_length after_handshake)
                           (Server.last_acked after_handshake)).
Proof.
  assert (H : Server.client_handler_round console_100 Server.new_local_thread
                                           (wire (size_request 4))
              = Server.Served after_handshake (Some [x00; x64; x00]))
    by (vm_compute; reflexivity).
  split; [exact H|]. exact (response_carries_last_ack _ _ _ _ _ H).
Defined.

(** ** The text of a package *)

Section Utf8.

Lemma is_cont_bits v b :
  0 <= v < 64 -> byte_to_Z b = 128 + v -> is_cont b = true /\ cont_bits b = v.
Proof.
  intros Hv Hb. unfold is_cont, cont_bits. rewrite Hb.
  split; [|lia]. apply andb_true_iff. split; [apply Z.leb_le | apply Z.ltb_lt]; lia.
Qed.

Lemma utf8_decode_1 b0 r0 :
  byte_to_Z b0 < 128 ->
  utf8_decode (b0 :: r0) = cons (byte_to_Z b0) <$> utf8_decode r0.
Proof.
  intros H. cbn [utf8_decode]. cbv zeta.
  decide_test (byte_to_Z b0 <? 128). reflexivity.
Qed.

Lemma utf8_decode_2 b0 b1 r1 cp :
  128 <= cp < 2048 ->
  byte_to_Z b0 = 192 + cp / 64 -> byte_to_Z b1 = 128 + cp mod 64 ->
  utf8_decode (b0 :: b1 :: r1) = cons cp <$> utf8_decode r1.
Proof.
  intros Hcp H0 H1.
  destruct (is_cont_bits (cp mod 64) b1 ltac:(lia_div) H1) as [Hc1 Hb1].
  cbn [utf8_decode]. cbv zeta. rewrite H0, Hc1, Hb1.
  decide_test (192 + cp / 64 <? 128); [lia_div|].
  decide_test ((192 <=? 192 + cp / 64) && (192 + cp / 64 <? 224)); try lia_div.
  replace ((192 + cp / 64 - 192) * 64 + cp mod 64) with cp by lia_div.
  decide_test (128 <=? cp). reflexivity.
Qed.


Lemma utf8_decode_3 b0 b1 b2 r2 cp :
  2048 <= cp < 65536 -> is_surrogate cp = false ->
  byte_to_Z b0 = 224 + cp / 4096 ->
  byte_to_Z b1 = 128 + (cp / 64) mod 64 ->
  byte_to_Z b2 = 128 + cp mod 64 ->
  utf8_decode (b0 :: b1 :: b2 :: r2) = cons cp <$> utf8_decode r2.
Proof.
  intros Hcp Hs H0 H1 H2.
  destruct (is_cont_bits ((cp / 64) mod 64) b1 ltac:(lia_div) H1) as [Hc1 Hb1].
  destruct (is_cont_bits (cp mod 64) b2 ltac:(lia_div) H2) as [Hc2 Hb2].
  cbn [utf8_decode]. cbv zeta. rewrite H0, Hc1, Hb1, Hc2, Hb2.
  decide_test (224 + cp / 4096 <? 128); [lia_div|].
  decide_test ((192 <=? 224 + cp / 4096) && (224 + cp / 4096 <? 224)); try lia_div.
  decide_test ((224 <=? 224 + cp / 4096) && (224 + cp / 4096 <? 240)); try lia_div.
  replace ((224 + cp / 4096 - 224) * 4096 + (cp / 64) mod 64 * 64 + cp mod 64)
    with cp by lia_div.
  rewrite Hs. decide_test (2048 <=? cp). reflexivity.
Qed.

Lemma utf8_decode_4 b0 b1 b2 b3 r3 cp :
  65536 <= cp <= 1114111 ->
  byte_to_Z b0 = 240 + cp / 262144 ->
  byte_to_Z b1 = 128 + (cp / 4096) mod 64 ->
  byte_to_Z b2 = 128 + (cp / 64) mod 64 ->
  byte_to_Z b3 = 128 + cp mod 64 ->
  utf8_decode (b0 :: b1 :: b2 :: b3 :: r3) = cons cp <$> utf8_decode r3.
Proof.
  intros Hcp H0 H1 H2 H3.
  destruct (is_cont_bits ((cp / 4096) mod 64) b1 ltac:(lia_div) H1) as [Hc1 Hb1].
  destruct (is_cont_bits ((cp / 64) mod 64) b2 ltac:(lia_div) H2) as [Hc2 Hb2].
  destruct (is_cont_bits (cp mod 64) b3 ltac:(lia_div) H3) as [Hc3 Hb3].
  cbn [utf8_decode]. cbv zeta. rewrite H0, Hc1, Hb1, Hc2, Hb2, Hc3, Hb3.
  decide_test (240 + cp / 262144 <? 128); [lia_div|].
  decide_test ((192 <=? 240 + cp / 262144) && (240 + cp / 262144 <? 224)); try lia_div.
  decide_test ((224 <=? 240 + cp / 262144) && (240 + cp / 262144 <? 240)); try lia_div.
  decide_test ((240 <=? 240 + cp / 262144) && (240 + cp / 262144 <? 248)); try lia_div.
  replace ((240 + cp / 262144 - 240) * 262144 + (cp / 4096) mod 64 * 4096
           + (cp / 64) mod 64 * 64 + cp mod 64) with cp by lia_div.
  decide_test (65536 <=? cp). decide_test (cp <=? 1114111). reflexivity.
Qed.

(** The bytes of one character decode to the character. *)
Lemma utf8_decode_encode_char cp bs rest :
  utf8_encode_char cp = Ok bs ->
  utf8_decode (bs ++ rest) = cons cp <$> utf8_decode rest.
Proof.
  unfold utf8_encode_char.
  destruct ((0 <=? cp) && (cp <? 128)) eqn:E1.
  { prop_of_bool.
    destruct (pack_B_ok cp) as (b & -> & Hb); [lia|]. intros [= <-]. simpl app.
    rewrite utf8_decode_1 by lia. rewrite Hb. reflexivity. }
  destruct ((128 <=? cp) && (cp <? 2048)) eqn:E2.
  { clear E1. prop_of_bool.
    destruct (pack_B_ok (192 + cp / 64)) as (b0 & -> & Hy0); [lia_div|].
    destruct (pack_B_ok (128 + cp mod 64)) as (b1 & -> & Hy1); [lia_div|].
    intros [= <-]. simpl app. apply utf8_decode_2; auto; lia. }
  destruct ((2048 <=? cp) && (cp <? 65536)) eqn:E3.
  { clear E1 E2. prop_of_bool.
    destruct (is_surrogate cp) eqn:Es; [discriminate|].
    destruct (pack_B_ok (224 + cp / 4096)) as (b0 & -> & Hy0); [lia_div|].
    destruct (pack_B_ok (128 + (cp / 64) mod 64)) as (b1 & -> & Hy1); [lia_div|].
    destruct (pack_B_ok (128 + cp mod 64)) as (b2 & -> & Hy2); [lia_div|].
    intros [= <-]. simpl app. apply utf8_decode_3; auto; lia. }
  destruct ((65536 <=? cp) && (cp <=? 1114111)) eqn:E4; [|discriminate].
  clear E1 E2 E3. prop_of_bool.
  destruct (pack_B_ok (240 + cp / 262144)) as (b0 & -> & Hy0); [lia_div|].
  destruct (pack_B_ok (128 + (cp / 4096) mod 64)) as (b1 & -> & Hy1); [lia_div|].
  destruct (pack_B_ok (128 + (cp / 64) mod 64)) as (b2 & -> & Hy2); [lia_div|].
  destruct (pack_B_ok (128 + cp mod 64)) as (b3 & -> & Hy3); [lia_div|].
  intros [= <-]. simpl app. apply utf8_decode_4; auto; lia.
Qed.

Lemma utf8_decode_encode (s : str) (b : bytes) :
  utf8_encode s = Ok b -> utf8_decode b = Ok s.
Proof.
  revert b. induction s as [|cp s IH]; intros b; simpl.
  - intros [= <-]. reflexivity.
  - destruct (utf8_encode_char cp) as [bs|] eqn:Ec; [|discriminate].
    destruct (utf8_encode s) as [bs'|]; [|discriminate].
    simpl. intros [= <-].
    rewrite (utf8_decode_encode_char cp bs bs' Ec), (IH bs' eq_refl). reflexivity.
Qed.

(** The characters that [encode] takes: code points outside the
    surrogates. *)
Lemma utf8_encode_char_ok cp :
  is_ok (utf8_encode_char cp) = true
  <-> 0 <= cp <= 1114111 /\ is_surrogate cp = false.
Proof.
  unfold utf8_encode_char, is_surrogate.
  destruct ((0 <=? cp) && (cp <? 128)) eqn:E1.
  { prop_of_bool.
    destruct (pack_B_ok cp) as (b & -> & Hb); [lia|]. simpl.
    split; [|reflexivity]. intros _. split; [lia|]. apply andb_false_iff. left. lia. }
  destruct ((128 <=? cp) && (cp <? 2048)) eqn:E2.
  { clear E1. prop_of_bool.
    destruct (pack_B_ok (192 + cp / 64)) as (b0 & -> & Hy0); [lia_div|].
    destruct (pack_B_ok (128 + cp mod 64)) as (b1 & -> & Hy1); [lia_div|]. simpl.
    split; [|reflexivity]. intros _. split; [lia|]. apply andb_false_iff. left. lia. }
  destruct ((2048 <=? cp) && (cp <? 65536)) eqn:E3.
  { clear E1 E2. prop_of_bool.
    destruct ((55296 <=? cp) && (cp <=? 57343)) eqn:Es; simpl.
    - split; [discriminate | intros [_ Hn]; discriminate].
    - destruct (pack_B_ok (224 + cp / 4096)) as (b0 & -> & Hy0); [lia_div|].
      destruct (pack_B_ok (128 + (cp / 64) mod 64)) as (b1 & -> & Hy1); [lia_div|].
      destruct (pack_B_ok (128 + cp mod 64)) as (b2 & -> & Hy2); [lia_div|]. simpl.
      split; [|reflexivity]. intros _. split; [lia | reflexivity]. }
  destruct ((65536 <=? cp) && (cp <=? 1114111)) eqn:E4.
  - clear E1 E2 E3. prop_of_bool.
    destruct (pack_B_ok (240 + cp / 262144)) as (b0 & -> & Hy0); [lia_div|].
    destruct (pack_B_ok (128 + (cp / 4096) mod 64)) as (b1 & -> & Hy1); [lia_div|].
    destruct (pack_B_ok (128 + (cp / 64) mod 64)) as (b2 & -> & Hy2); [lia_div|].
    destruct (pack_B_ok (128 + cp mod 64)) as (b3 & -> & Hy3); [lia_div|]. simpl.
    split; [|reflexivity]. intros _. split; [lia|]. apply andb_false_iff. right. lia.
  - simpl. split; [discriminate|]. intros [Hr _]. exfalso. prop_of_bool; lia.
Qed.


Lemma utf8_encode_ok (s : str) : is_ok (utf8_encode s) = true <-> encodable s.
Proof.
  unfold encodable. induction s as [|cp s IH]; simpl.
  - split; [constructor | reflexivity].
  - rewrite Forall_cons, <- IH, <- utf8_encode_char_ok.
    destruct (utf8_encode_char cp); simpl; [|intuition discriminate].
    destruct (utf8_encode s); simpl; intuition discriminate.
Qed.

Lemma utf8_encode_char_length cp bs :
  utf8_encode_char cp = Ok bs -> 1 <= len bs <= 4.
Proof.
  unfold utf8_encode_char.
  repeat match goal with
  | |- context [if ?b then _ else _] => destruct b
  | |- context [pack_B ?v] => let E := fresh in destruct (pack_B v) eqn:E; simpl
  end; try discriminate; intros [= <-]; rewrite ?len_app;
    repeat match goal with
    | H : pack_B _ = Ok _ |- _ => apply pack_B_len in H
    end; lia.
Qed.

Lemma utf8_encode_length (s : str) (b : bytes) :
  utf8_encode s = Ok b -> len s <= len b <= 4 * len s.
Proof.
  revert b. induction s as [|cp s IH]; intros b; simpl.
  - intros [= <-]. unfold len. simpl. lia.
  - destruct (utf8_encode_char cp) as [bs|] eqn:Ec; [|discriminate].
    destruct (utf8_encode s) as [bs'|]; [|discriminate].
    simpl. intros [= <-]. rewrite len_app, len_cons.
    pose proof (utf8_encode_char_length cp bs Ec). pose proof (IH bs' eq_refl). lia.
Qed.

Lemma data_to_message_encoded (s : str) (m : API.MessageHeader) :
  utf8_encode s = Ok (API.data m) -> API.data_to_message m = Ok s.
Proof.
  intros H. unfold API.data_to_message. rewrite (utf8_decode_encode s _ H). reflexivity.
Qed.

(** X15.  [encode] takes a text exactly when each of its characters is a
    code point outside the surrogates; the bytes it gives are between one
    and four for every character, and a package that carries them as its
    data has the text as its message. *)
Theorem encoded_text_is_read_back (s : str) :
  (is_ok (utf8_encode s) = true <-> encodable s)
  /\ (forall b, utf8_encode s = Ok b -> len s <= len b <= 4 * len s)
  /\ (forall m, utf8_encode s = Ok (API.data m) -> API.data_to_message m = Ok s).
Proof.
  split; [exact (utf8_encode_ok s)|].
  split; [exact (utf8_encode_length s) | exact (data_to_message_encoded s)].
Qed.

End Utf8.

Lemma encoded_text_is_read_back_witness :
  utf8_encode [104; 233; 8364] = Ok [x68; xc3; xa9; xe2; x82; xac]
  /\ len [104; 233; 8364] <= len [x68; xc3; xa9; xe2; x82; xac] <= 4 * len [104; 233; 8364]
  /\ API.data_to_message (segment 4 1 [x68; xc3; xa9; xe2; x82; xac])
     = Ok [104; 233; 8364].
Proof.
  assert (H : utf8_encode [104; 233; 8364] = Ok [x68; xc3; xa9; xe2; x82; xac])
    by (vm_compute; reflexivity).
  split; [exact H|]. split.
  - exact (proj1 (proj2 (encoded_text_is_read_back _)) _ H).
  - exact (proj2 (proj2 (encoded_text_is_read_back _)) (segment 4 1 _) H).
Defined.

(** ** The sender: the window and the clock *)

Section Sender.
Import API Client.

Lemma divide_loop_total message : forall max_size done cur,
  exists parts,
    divide_loop message max_size (done ++ [cur]) (length done) = Ok parts
    /\ concat parts = concat done ++ cur ++ message
    /\ parts <> [].
Proof.
  induction message as [|char message IH]; intros max_size done cur.
  - exists (done ++ [cur]). split; [reflexivity|]. split.
    + rewrite concat_app. simpl. reflexivity.
    + destruct done; discriminate.
  - simpl. rewrite list_lookup_middle by reflexivity.
    destruct (len cur <? max_size).
    + rewrite insert_app_r_alt by lia. rewrite Nat.sub_diag. simpl.
      destruct (IH max_size done (cur ++ [char])) as (parts & Hp & Hc & Hn).
      exists parts. rewrite Hp, Hc, <- !app_assoc. auto.
    + replace (S (length done)) with (length (done ++ [cur]))
        by (rewrite length_app; simpl; lia).
      destruct (IH max_size (done ++ [cur]) [char]) as (parts & Hp & Hc & Hn).
      exists parts. rewrite Hp, Hc, concat_app. simpl.
      rewrite <- !app_assoc. simpl. auto.
Qed.

Lemma divide_loop_full message : forall max_size done cur,
  1 <= max_size ->
  Forall (fun part => len part = max_size) done ->
  len cur <= max_size ->
  exists full final,
    divide_loop message max_size (done ++ [cur]) (length done) = Ok (full ++ [final])
    /\ Forall (fun part => len part = max_size) full
    /\ len final <= max_size
    /\ (0 < len cur \/ message <> [] -> 0 < len final).
Proof.
  induction message as [|char message IH]; intros max_size done cur Hmax Hdone Hcur.
  - exists done, cur. split; [reflexivity|]. split; [assumption|]. split; [assumption|].
    intros [H|H]; [assumption | contradiction].
  - simpl. rewrite list_lookup_middle by reflexivity.
    destruct (len cur <? max_size) eqn:E; prop_of_bool.
    + rewrite insert_app_r_alt by lia. rewrite Nat.sub_diag. simpl.
      destruct (IH max_size done (cur ++ [char]) Hmax Hdone)
        as (full & final & Hp & Hf & Hl & Hpos).
      { unfold len in *. rewrite length_app. simpl. lia. }
      exists full, final. rewrite Hp. repeat split; auto. intros _. apply Hpos. left.
      unfold len in *. rewrite length_app. simpl. lia.
    + replace (S (length done)) with (length (done ++ [cur]))
        by (rewrite length_app; simpl; lia).
      destruct (IH max_size (done ++ [cur]) [char] Hmax)
        as (full & final & Hp & Hf & Hl & Hpos).
      { apply Forall_app. split; [assumption|]. apply Forall_singleton. lia. }
      { unfold len. simpl. lia. }
      exists full, final. rewrite Hp. repeat split; auto. intros _. apply Hpos. left.
      unfold len. simpl. lia.
Qed.

(** [retire] drops packages from the front of the window only. *)
Lemma retire_suffix window_size ack : forall window,
  exists gone,
    window = gone ++ fst (retire window_size ack window)
    /\ (snd (retire window_size ack window) = true ->
        fst (retire window_size ack window) <> []
        /\ exists p, last gone = Some p /\ package_num p = ack).
Proof.
  induction window as [|package rest (gone & Hg & Hr)]; simpl.
  - exists []. split; [reflexivity | discriminate].
  - destruct (_ || _).
    { exists []. split; [reflexivity | discriminate]. }
    destruct (package_num package =? ack) eqn:E; prop_of_bool; simpl.
    + exists [package]. split; [reflexivity|]. intros Hl. split.
      * destruct rest; [discriminate Hl | discriminate].
      * exists package. auto.
    + exists (package :: gone). split; [simpl; congruence|]. intros Hs.
      destruct (Hr Hs) as (Hne & p & Hp & Hn). split; [assumption|].
      exists p. split; [|assumption]. destruct gone; [discriminate Hp | exact Hp].
Qed.

(** The ack of the front package takes this package from the window. *)
Lemma retire_front window_size package rest :
  1 <= window_size ->
  retire window_size (package_num package) (package :: rest) = (rest, 0 <? len rest).
Proof.
  intros HW. simpl.
  decide_test ((package_num package - window_size <=? package_num package)
               && (package_num package <? package_num package)
               || (package_num package + window_size <=? package_num package)).
  rewrite Z.eqb_refl. reflexivity.
Qed.


Lemma segment_valid W n b :
  1 <= W <= 128 -> 0 <= n < 2 * W ->
  len b <= DEFAULT_MAX_MSG_SIZE - HEADER_MIN_LENGTH ->
  valid_segment (segment W n b).
Proof.
  intros HW Hn Hb. unfold valid_segment, segment. simpl.
  unfold DEFAULT_MAX_MSG_SIZE, DEFAULT_HEADER_MAX_LENGTH, HEADER_MIN_LENGTH in *.
  pose proof (len_nonneg b). change (2 ^ 16) with 65536 in *. repeat split; lia.
Qed.

(** The package that [client] builds for a part of the message. *)
Lemma MessageHeader_init_segment tl W n b :
  1 <= W <= 128 -> 0 <= n < 2 * W ->
  len b <= DEFAULT_MAX_MSG_SIZE - HEADER_MIN_LENGTH ->
  snd (MessageHeader_init tl W n (-1) b) = Ok (segment W n b).
Proof.
  intros HW Hn Hb. rewrite MessageHeader_init_outcome.
  change ((-1 <=? DEFAULT_MAX_MSG_SIZE) && (0 <? -1)) with false. cbv iota.
  unfold DEFAULT_MAX_WINDOW_SIZE.
  decide_test (negb (HEADER_MIN_LENGTH + len b <=? DEFAULT_MAX_MSG_SIZE)).
  decide_test ((W <? 1) || (2 ^ 7 <? W)).
  decide_test ((n <? 0) || (2 * W <=? n)).
  reflexivity.
Qed.

Lemma mod_range a W : 1 <= W -> 0 <= a mod (2 * W) < 2 * W.
Proof. intros. apply Z.mod_pos_bound. lia. Qed.

(** A round that has room in the window and a part to send. *)
Lemma send_phase_new W env st part rest b :
  1 <= W <= 128 ->
  divided_msgs st = part :: rest ->
  len (sliding_window st) < W ->
  utf8_encode part = Ok b ->
  len b <= DEFAULT_MAX_MSG_SIZE - HEADER_MIN_LENGTH ->
  exists packed,
    MessageHeader_pack (segment W ((package_number st + 1) mod (2 * W)) b) = Ok packed
    /\ send_phase W false env st
       = ([packed],
          Ok (mk_client_state rest
                (sliding_window st ++ [segment W ((package_number st + 1) mod (2 * W)) b])
                ((package_number st + 1) mod (2 * W))
                (if len (sliding_window st
                         ++ [segment W ((package_number st + 1) mod (2 * W)) b]) =? 1
                 then Some (time_first env) else first_msg_sent st))).
Proof.
  intros HW Hd Hroom He Hb.
  pose proof (mod_range (package_number st + 1) W (proj1 HW)) as Hn.
  pose proof (segment_valid W _ b HW Hn Hb) as Hv.
  destruct (MessageHeader_round_trip _ Hv) as (packed & Hp & _).
  exists packed. split; [exact Hp|].
  unfold send_phase. rewrite Hd.
  decide_test ((len (sliding_window st) <? W) && (0 <? len (part :: rest))).
  2: { unfold len in *. simpl in *. lia. }
  decide_test (2 * W =? 0).
  rewrite He, (MessageHeader_init_segment _ W _ b HW Hn Hb). simpl andb. cbv iota.
  rewrite Hp. simpl.
  destruct (len (sliding_window st ++ _) =? 1); reflexivity.
Qed.


(** The last step of [send_phase]: the clock is set when one package
    waits. *)
Lemma clock_step W t st :
  1 <= W <= 128 ->
  Forall (fun p => valid_segment p /\ actual_window_size p = W) (sliding_window st) ->
  len (sliding_window st) <= W ->
  0 <= package_number st < 2 * W ->
  (1 < len (sliding_window st) -> first_msg_sent st <> None) ->
  sender_invariant W
    (if len (sliding_window st) =? 1
     then mk_client_state (divided_msgs st) (sliding_window st) (package_number st) (Some t)
     else st).
Proof.
  intros HW Hv Hl Hn Hc.
  destruct (len (sliding_window st) =? 1) eqn:E; prop_of_bool.
  - split; [exact HW|]. simpl. split; [exact Hv|]. split; [exact Hl|].
    split; [discriminate | exact Hn].
  - split; [exact HW|]. split; [exact Hv|]. split; [exact Hl|]. split; [|exact Hn].
    intros Hne. apply Hc. destruct (sliding_window st); [contradiction|].
    unfold len in *. simpl in *. lia.
Qed.

Lemma send_phase_invariant W send_out_of_order env st sent st1 :
  sender_invariant W st ->
  send_phase W send_out_of_order env st = (sent, Ok st1) ->
  sender_invariant W st1
  /\ (divided_msgs st <> [] \/ sliding_window st <> [] -> first_msg_sent st1 <> None).
Proof.
  intros Hinv. pose proof Hinv as (HW & Hv & Hl & Hc & Hn).
  unfold send_phase.
  destruct ((len (sliding_window st) <? W) && (0 <? len (divided_msgs st))) eqn:Eroom.
  - prop_of_bool.
    destruct (2 * W =? 0); [discriminate|].
    destruct (divided_msgs st) as [|part rest]; [discriminate|].
    destruct (utf8_encode part) as [msg_part|]; [|discriminate].
    destruct (snd (MessageHeader_init _ _ _ _ _)) as [package|] eqn:Ei; [|discriminate].
    pose proof (constructed_valid _ _ _ _ _ _ Ei) as Hpv.
    destruct (MessageHeader_init_inv _ _ _ _ _ _ Ei) as (Hpm & _).
    assert (Hpw : actual_window_size package = W) by (rewrite Hpm; reflexivity).
    set (mid := mk_client_state rest (sliding_window st ++ [package])
                                ((package_number st + 1) mod (2 * W)) (first_msg_sent st)).
    assert (Hstep : forall t,
      sender_invariant W
        (if len (sliding_window mid) =? 1
         then mk_client_state (divided_msgs mid) (sliding_window mid)
                              (package_number mid) (Some t)
         else mid)).
    { intros t. apply clock_step; simpl; try assumption.
      - apply Forall_app. split; [assumption|]. apply Forall_singleton. auto.
      - unfold len in *. rewrite length_app. simpl. lia.
      - apply mod_range. lia.
      - intros Hlen. apply Hc. destruct (sliding_window st); [|discriminate].
        unfold len in Hlen. simpl in Hlen. lia. }
    assert (Hclock : forall t,
      first_msg_sent
        (if len (sliding_window mid) =? 1
         then mk_client_state (divided_msgs mid) (sliding_window mid)
                              (package_number mid) (Some t)
         else mid) <> None).
    { intros t. pose proof (Hstep t) as (_ & _ & _ & Hc' & _).
      apply Hc'. destruct (len (sliding_window mid) =? 1); simpl;
        destruct (sliding_window st); discriminate. }
    pose proof (Hstep (time_first env)) as Hs. pose proof (Hclock (time_first env)) as Hk.
    subst mid. simpl in Hs, Hk.
    destruct (send_out_of_order && (randint env =? 0));
      [|destruct (MessageHeader_pack package); [|discriminate]];
      simpl; destruct (len (sliding_window st ++ [package]) =? 1);
      intros [= <- <-]; (split; [exact Hs | intros _; exact Hk]).
  - assert (Hstep : sender_invariant W
      (if len (sliding_window st) =? 1
       then mk_client_state (divided_msgs st) (sliding_window st)
                            (package_number st) (Some (time_first env))
       else st)).
    { apply clock_step; try assumption. intros Hlen. apply Hc.
      destruct (sliding_window st); [|discriminate]. unfold len in Hlen. simpl in Hlen. lia. }
    assert (Hclock : divided_msgs st <> [] \/ sliding_window st <> [] ->
      first_msg_sent
        (if len (sliding_window st) =? 1
         then mk_client_state (divided_msgs st) (sliding_window st)
                              (package_number st) (Some (time_first env))
         else st) <> None).
    { intros Hloop.
      assert (Hw : sliding_window st <> []).
      { destruct Hloop as [Hd|Hw]; [|assumption].
        intros Hw. rewrite Hw in Eroom. destruct (divided_msgs st); [contradiction|].
        unfold len in Eroom. simpl in Eroom. prop_of_bool; lia. }
      pose proof Hstep as (_ & _ & _ & Hc' & _). apply Hc'.
      destruct (len (sliding_window st) =? 1); simpl; assumption. }
    simpl. destruct (len (sliding_window st) =? 1); intros [= <- <-]; auto.
Qed.


Lemma await_ack_invariant W timeout env st st' :
  sender_invariant W st ->
  await_ack W timeout env st = Ok st' ->
  sender_invariant W st'
  /\ divided_msgs st' = divided_msgs st
  /\ package_number st' = package_number st
  /\ sliding_window st' `suffix_of` sliding_window st.
Proof.
  intros (HW & Hv & Hl & Hc & Hn). unfold await_ack.
  destruct (first_msg_sent st) as [first|] eqn:Ef; [|discriminate]. simpl.
  destruct (timeout <? int_of (time_check env - first)%Q); [discriminate|].
  destruct (recv env) as [response|]; [|discriminate]. simpl.
  destruct (AckHeader_unpack response) as [ack|]; [|discriminate]. simpl.
  destruct (retire_suffix W (ack_number ack) (sliding_window st)) as (gone & Hg & _).
  destruct (retire W (ack_number ack) (sliding_window st)) as [window reset].
  simpl in Hg. intros [= <-]. simpl.
  rewrite Hg in Hv, Hl. apply Forall_app in Hv. destruct Hv as [_ Hv].
  repeat split; simpl; try assumption; try lia.
  - unfold len in *. rewrite length_app in Hl. lia.
  - intros _. destruct reset; discriminate.
  - exists gone. exact Hg.
Qed.

Lemma ack_phase_invariant W timeout env st sent st' :
  sender_invariant W st ->
  ack_phase W timeout env st = (sent, Ok st') ->
  sender_invariant W st'.
Proof.
  intros Hinv. unfold ack_phase.
  destruct (await_ack W timeout env st) as [st2|e] eqn:Ea.
  - intros [= _ <-]. exact (proj1 (await_ack_invariant _ _ _ _ _ Hinv Ea)).
  - destruct Hinv as (HW & Hv & Hl & Hc & Hn).
    destruct e; try discriminate. simpl.
    destruct (resend (sliding_window st)) as [resent [u|e]]; [|discriminate].
    intros [= _ <-]. split; [exact HW|]. simpl.
    split; [exact Hv|]. split; [exact Hl|]. split; [discriminate | exact Hn].
Qed.

Lemma client_round_invariant W timeout send_out_of_order env st sent st' :
  sender_invariant W st ->
  client_round W timeout send_out_of_order env st = (sent, Ok st') ->
  sender_invariant W st'.
Proof.
  intros Hinv. unfold client_round.
  destruct (send_phase W send_out_of_order env st) as [sent1 [st1|e]] eqn:Es;
    [|discriminate].
  destruct (send_phase_invariant _ _ _ _ _ _ Hinv Es) as [Hinv1 _].
  destruct (ack_phase W timeout env st1) as [resent r] eqn:Ea.
  intros [= _ ->]. exact (ack_phase_invariant _ _ _ _ _ _ Hinv1 Ea).
Qed.

(** The opening leaves a sender with parts to send and an empty window. *)
Lemma client_connect_invariant message W size_response st :
  snd (client_connect message W size_response) = Ok st ->
  sender_invariant W st
  /\ sliding_window st = [] /\ package_number st = 0 /\ first_msg_sent st = None
  /\ divided_msgs st <> []
  /\ concat (divided_msgs st) = message.
Proof.
  unfold client_connect.
  destruct (snd (MessageHeader_init None W 0 (-1) [])) as [size_request|] eqn:Ei;
    [|discriminate].
  apply MessageHeader_init_inv in Ei. destruct Ei as (_ & HW & _).
  destruct (MessageHeader_pack size_request); [|discriminate]. simpl.
  destruct size_response as [response|]; [|discriminate]. simpl.
  destruct (AckHeader_unpack response) as [ack|]; [|discriminate]. simpl.
  destruct (divide_loop_total message (ack_max_msg_size ack) [] []) as (parts & Hp & Hc & Hn).
  unfold divide_msg. simpl in Hp. rewrite Hp. simpl. intros [= <-]. simpl.
  split; [|auto].
  split; [lia|]. simpl. split; [constructor|]. split; [unfold len; simpl; lia|].
  split; [intros H; contradiction | lia].
Qed.

Lemma client_loop_invariant W timeout send_out_of_order : forall envs st,
  sender_invariant W st ->
  match snd (client_loop W timeout send_out_of_order envs st) with
  | Finished st' =>
    sender_invariant W st' /\ divided_msgs st' = [] /\ sliding_window st' = []
  | Pending st' =>
    sender_invariant W st' /\ (divided_msgs st' <> [] \/ sliding_window st' <> [])
  | Aborted _ => True
  end.
Proof.
  induction envs as [|env envs IH]; intros st Hinv; simpl.
  - destruct ((0 <? len (divided_msgs st)) || (0 <? len (sliding_window st))) eqn:E; simpl.
    + split; [assumption|]. prop_of_bool.
      * left. intros Hd. rewrite Hd in *. unfold len in *. simpl in *. lia.
      * right. intros Hd. rewrite Hd in *. unfold len in *. simpl in *. lia.
    + prop_of_bool. split; [assumption|].
      split; [destruct (divided_msgs st) | destruct (sliding_window st)];
        try reflexivity; unfold len in *; simpl in *; lia.
  - destruct ((0 <? len (divided_msgs st)) || (0 <? len (sliding_window st))) eqn:E; simpl.
    + destruct (client_round W timeout send_out_of_order env st) as [sent [st'|e]] eqn:Er;
        [|exact I].
      pose proof (client_round_invariant _ _ _ _ _ _ _ Hinv Er) as Hinv'.
      specialize (IH st' Hinv').
      destruct (client_loop W timeout send_out_of_order envs st') as [more o].
      exact IH.
    + prop_of_bool. split; [assumption|].
      split; [destruct (divided_msgs st) | destruct (sliding_window st)];
        try reflexivity; unfold len in *; simpl in *; lia.
Qed.

(** No part of a division is longer than the size asked for, a size below
    1 counting as 1. *)
Lemma divide_loop_bound message : forall max_size done cur parts,
  Forall (fun part => len part <= Z.max 1 max_size) done ->
  len cur <= Z.max 1 max_size ->
  divide_loop message max_size (done ++ [cur]) (length done) = Ok parts ->
  Forall (fun part => len part <= Z.max 1 max_size) parts.
Proof.
  induction message as [|char message IH]; intros max_size done cur parts Hdone Hcur.
  - simpl. intros [= <-]. apply Forall_app. split; [assumption|].
    apply Forall_singleton. assumption.
  - simpl. rewrite list_lookup_middle by reflexivity.
    destruct (len cur <? max_size) eqn:E; prop_of_bool.
    + rewrite insert_app_r_alt by lia. rewrite Nat.sub_diag. simpl.
      apply IH; [assumption|]. unfold len in *. rewrite length_app. simpl. lia.
    + replace (S (length done)) with (length (done ++ [cur]))
        by (rewrite length_app; simpl; lia).
      apply IH.
      * apply Forall_app. split; [assumption|]. apply Forall_singleton. assumption.
      * unfold len. simpl. lia.
Qed.

(** With a size below 1 every test of the length fails: the part at hand
    is closed and every character opens a part of its own. *)
Lemma divide_loop_below_one message : forall max_size done cur,
  max_size <= 0 ->
  divide_loop message max_size (done ++ [cur]) (length done)
  = Ok (done ++ cur :: map (fun char => [char]) message).
Proof.
  induction message as [|char message IH]; intros max_size done cur Hmax; [reflexivity|].
  simpl. rewrite list_lookup_middle by reflexivity.
  pose proof (len_nonneg cur).
  decide_test (len cur <? max_size).
  replace (S (length done)) with (length (done ++ [cur]))
    by (rewrite length_app; simpl; lia).
  rewrite IH by assumption. rewrite <- app_assoc. reflexivity.
Qed.

Lemma divide_msg_full message max_size :
  1 <= max_size ->
  exists full final,
    divide_msg message max_size = Ok (full ++ [final])
    /\ Forall (fun part => len part = max_size) full
    /\ len final <= max_size
    /\ (message <> [] -> 0 < len final)
    /\ concat (full ++ [final]) = message.
Proof.
  intros Hmax.
  destruct (divide_loop_full message max_size [] [] Hmax) as (full & final & Hp & Hf & Hl & Hn).
  { constructor. }
  { unfold len. simpl. lia. }
  destruct (divide_loop_total message max_size [] []) as (parts & Hp' & Hc & _).
  rewrite Hp in Hp'. injection Hp' as <-.
  exists full, final. split; [exact Hp|]. split; [exact Hf|]. split; [exact Hl|].
  split; [|exact Hc]. intros Hm. apply Hn. right. exact Hm.
Qed.

Lemma utf8_encode_char_raises cp e :
  utf8_encode_char cp = Raise e -> e = UnicodeError.
Proof.
  unfold utf8_encode_char, is_surrogate.
  destruct ((0 <=? cp) && (cp <? 128)) eqn:E1.
  { prop_of_bool. destruct (pack_B_ok cp) as (b & -> & _); [lia | discriminate]. }
  destruct ((128 <=? cp) && (cp <? 2048)) eqn:E2.
  { clear E1. prop_of_bool.
    destruct (pack_B_ok (192 + cp / 64)) as (b0 & -> & _); [lia_div|].
    destruct (pack_B_ok (128 + cp mod 64)) as (b1 & -> & _); [lia_div|]. discriminate. }
  destruct ((2048 <=? cp) && (cp <? 65536)) eqn:E3.
  { clear E1 E2. prop_of_bool.
    destruct ((55296 <=? cp) && (cp <=? 57343)); [congruence|].
    destruct (pack_B_ok (224 + cp / 4096)) as (b0 & -> & _); [lia_div|].
    destruct (pack_B_ok (128 + (cp / 64) mod 64)) as (b1 & -> & _); [lia_div|].
    destruct (pack_B_ok (128 + cp mod 64)) as (b2 & -> & _); [lia_div|]. discriminate. }
  destruct ((65536 <=? cp) && (cp <=? 1114111)) eqn:E4; [|congruence].
  clear E1 E2 E3. prop_of_bool.
  destruct (pack_B_ok (240 + cp / 262144)) as (b0 & -> & _); [lia_div|].
  destruct (pack_B_ok (128 + (cp / 4096) mod 64)) as (b1 & -> & _); [lia_div|].
  destruct (pack_B_ok (128 + (cp / 64) mod 64)) as (b2 & -> & _); [lia_div|].
  destruct (pack_B_ok (128 + cp mod 64)) as (b3 & -> & _); [lia_div|]. discriminate.
Qed.

Lemma utf8_encode_raises (s : str) e : utf8_encode s = Raise e -> e = UnicodeError.
Proof.
  induction s as [|cp s IH]; simpl; [discriminate|].
  destruct (utf8_encode_char cp) as [b|e'] eqn:Ec; simpl.
  - destruct (utf8_encode s) as [bs|e']; simpl; [discriminate|].
    intros [= <-]. apply IH. reflexivity.
  - intros [= <-]. exact (utf8_encode_char_raises cp e' Ec).
Qed.

(** The packages of a window that the constructor let through are all
    sent again. *)
Lemma resend_packs (window : list MessageHeader) :
  Forall valid_segment window ->
  exists sent, resend window = (sent, Ok ()) /\ mapR MessageHeader_pack window = Ok sent.
Proof.
  induction 1 as [|package rest Hv _ (sent & Hs & Hm)]; simpl.
  - exists []. auto.
  - destruct (MessageHeader_round_trip package Hv) as (packed & -> & _).
    rewrite Hs. simpl. rewrite Hm. simpl. exists (packed :: sent). auto.
Qed.

Lemma AckHeader_unpack_raises response e :
  AckHeader_unpack response = Raise e ->
  e = ValueError "data is not the correct length".
Proof.
  unfold AckHeader_unpack, HEADER_LENGTH.
  destruct (negb (len response =? 3)) eqn:E; [congruence|].
  prop_of_bool.
  destruct response as [|m1 [|m0 [|a [|]]]]; unfold len in E; simpl in E; try lia.
  pose proof (byte_to_Z_range m1). pose proof (byte_to_Z_range m0).
  pose proof (byte_to_Z_range a).
  rewrite AckHeader_init_valid by (unfold unpack_H; lia). discriminate.
Qed.

Lemma send_phase_raises W send_out_of_order env st sent e :
  sender_invariant W st ->
  send_phase W send_out_of_order env st = (sent, Raise e) ->
  sent = []
  /\ (e = UnicodeError \/ e = ValueError "invalid total length").
Proof.
  intros (HW & Hv & Hl & Hc & Hn). unfold send_phase.
  destruct ((len (sliding_window st) <? W) && (0 <? len (divided_msgs st))) eqn:Eroom.
  - prop_of_bool.
    decide_test (2 * W =? 0).
    destruct (divided_msgs st) as [|part rest]; [unfold len in *; simpl in *; lia|].
    destruct (utf8_encode part) as [msg_part|e'] eqn:Ee.
    2: { intros [= <- <-]. split; [reflexivity|]. left.
         exact (utf8_encode_raises part e' Ee). }
    rewrite MessageHeader_init_outcome.
    change ((-1 <=? DEFAULT_MAX_MSG_SIZE) && (0 <? -1)) with false. cbv iota.
    destruct (negb (HEADER_MIN_LENGTH + len msg_part <=? DEFAULT_MAX_MSG_SIZE)) eqn:Et.
    { intros [= <- <-]. auto. }
    unfold DEFAULT_MAX_WINDOW_SIZE.
    decide_test ((W <? 1) || (2 ^ 7 <? W)).
    pose proof (mod_range (package_number st + 1) W (proj1 HW)) as Hr.
    decide_test (((package_number st + 1) mod (2 * W) <? 0)
                 || (2 * W <=? (package_number st + 1) mod (2 * W))).
    set (package := mkMessageHeader _ _ _ _ _ _).
    assert (Hpv : valid_segment package).
    { subst package. prop_of_bool. 
      replace (mkMessageHeader _ _ _ _ _ _)
        with (segment W ((package_number st + 1) mod (2 * W)) msg_part) by reflexivity.
      apply segment_valid; [assumption | assumption |]. lia. }
    destruct (MessageHeader_round_trip package Hpv) as (packed & -> & _).
    destruct (send_out_of_order && (randint env =? 0)); simpl;
      destruct (len (sliding_window st ++ [package]) =? 1); discriminate.
  - simpl. destruct (len (sliding_window st) =? 1); discriminate.
Qed.

Lemma ack_phase_raises W timeout env st sent e :
  sender_invariant W st -> first_msg_sent st <> None ->
  ack_phase W timeout env st = (sent, Raise e) ->
  sent = []
  /\ (e = ValueError "data is not the correct length"
      \/ (recv env = Raise e /\ e <> socket_timeout)).
Proof.
  intros (HW & Hv & Hl & Hc & Hn) Hf. unfold ack_phase.
  assert (Hre : forall t,
            (let st0 := mk_client_state (divided_msgs st) (sliding_window st)
                                        (package_number st) (Some t) in
             let '(sent0, r) := resend (sliding_window st0) in
             (sent0, match r with Ok _ => Ok st0 | Raise e0 => Raise e0 end))
            = (sent, Raise e) -> False).
  { intros t. simpl.
    destruct (resend_packs (sliding_window st)) as (sent0 & -> & _); [|discriminate].
    eapply Forall_impl; [exact Hv|]. simpl. tauto. }
  unfold await_ack.
  destruct (first_msg_sent st) as [first|]; [|contradiction]. simpl.
  destruct (timeout <? int_of (time_check env - first)%Q).
  { intros H. destruct (Hre _ H). }
  destruct (recv env) as [response|e'] eqn:Er; simpl.
  - destruct (AckHeader_unpack response) as [ack|e'] eqn:Eu; simpl.
    + destruct (retire W (ack_number ack) (sliding_window st)). discriminate.
    + pose proof (AckHeader_unpack_raises response e' Eu) as ->.
      intros [= <- <-]. auto.
  - destruct e'; try (intros [= <- <-]; split; [reflexivity|]; right; split;
                      [reflexivity | discriminate]).
    intros H. destruct (Hre _ H).
Qed.

(** A round of the loop raises only for a part that cannot be encoded or
    is too long for a package, for a response that is no ack, or when
    [recv] raises something else than its timeout. *)
Lemma client_round_raises W timeout send_out_of_order env st sent e :
  sender_invariant W st ->
  divided_msgs st <> [] \/ sliding_window st <> [] ->
  client_round W timeout send_out_of_order env st = (sent, Raise e) ->
  e = UnicodeError \/ e = ValueError "invalid total length"
  \/ e = ValueError "data is not the correct length"
  \/ (recv env = Raise e /\ e <> socket_timeout).
Proof.
  intros Hinv Hloop. unfold client_round.
  destruct (send_phase W send_out_of_order env st) as [sent1 [st1|e1]] eqn:Es.
  - destruct (send_phase_invariant _ _ _ _ _ _ Hinv Es) as [Hinv1 Hclock].
    destruct (ack_phase W timeout env st1) as [resent r] eqn:Ea.
    intros [= _ ->].
    destruct (ack_phase_raises _ _ _ _ _ _ Hinv1 (Hclock Hloop) Ea) as (_ & [H|H]); auto.
  - intros [= _ <-].
    destruct (send_phase_raises _ _ _ _ _ _ Hinv Es) as (_ & [H|H]); auto.
Qed.

(** A whole run of [client]. *)
Lemma client_invariant message W timeout send_out_of_order size_response envs :
  match snd (client message W timeout send_out_of_order size_response envs) with
  | Finished st =>
    sender_invariant W st /\ divided_msgs st = [] /\ sliding_window st = []
  | Pending st =>
    sender_invariant W st /\ (divided_msgs st <> [] \/ sliding_window st <> [])
  | Aborted _ => True
  end.
Proof.
  unfold client.
  destruct (client_connect message W size_response) as [sent [st|e]] eqn:Ec; [|exact I].
  assert (Hs : snd (client_connect message W size_response) = Ok st) by (rewrite Ec; reflexivity).
  destruct (client_connect_invariant message W size_response st Hs) as (Hinv & _).
  destruct (timeout <? 0); [exact I|].
  pose proof (client_loop_invariant W timeout send_out_of_order envs st Hinv) as Hl.
  destruct (client_loop W timeout send_out_of_order envs st) as [more o]. exact Hl.
Qed.

(** X16.  For a size of at least 1 [divide_msg] fills every part but the
    last with exactly this many characters; the last part has at most
    this many, and at least one when the message is not empty.  The parts
    put together are the message. *)
Theorem division_fills_parts (message : str) (max_size : Z) :
  1 <= max_size ->
  exists full final,
    divide_msg message max_size = Ok (full ++ [final])
    /\ Forall (fun part => len part = max_size) full
    /\ len final <= max_size
    /\ (message <> [] -> 0 < len final)
    /\ concat (full ++ [final]) = message.
Proof. exact (divide_msg_full message max_size). Qed.

(** X17.  For a size of 0 or below [divide_msg] does not raise: it gives
    an empty first part and then one part for every character of the
    message. *)
Theorem division_below_one (message : str) (max_size : Z) :
  max_size <= 0 ->
  divide_msg message max_size = Ok ([] :: map (fun char => [char]) message).
Proof. exact (divide_loop_below_one message max_size [] []). Qed.

(** X18.  An ack takes packages from the front of the window only, and
    the clock is reset only when the last package taken carries the
    number of the ack and a package is left.  The ack of the front
    package takes this one package. *)
Theorem ack_takes_from_the_front (window_size ack : Z) (window : list MessageHeader) :
  (exists gone,
     window = gone ++ fst (retire window_size ack window)
     /\ (snd (retire window_size ack window) = true ->
         fst (retire window_size ack window) <> []
         /\ exists p, last gone = Some p /\ package_num p = ack))
  /\ (1 <= window_size ->
      forall package rest,
        window = package :: rest -> package_num package = ack ->
        retire window_size ack window = (rest, 0 <? len rest)).
Proof.
  split; [exact (retire_suffix window_size ack window)|].
  intros HW package rest -> <-. exact (retire_front window_size package rest HW).
Qed.

(** X19.  A round of the loop of [client] that does not raise keeps the
    sender as it should be: the window holds at most as many packages as
    the window size, each of them let through by the constructor, the
    clock is set while a package waits, and the last number lies in the
    cycle of the numbers. *)
Theorem round_keeps_the_window (W timeout : Z) (send_out_of_order : bool)
    (env : environment) (st : client_state) (sent : list bytes) (st' : client_state) :
  sender_invariant W st ->
  client_round W timeout send_out_of_order env st = (sent, Ok st') ->
  sender_invariant W st'.
Proof. exact (client_round_invariant W timeout send_out_of_order env st sent st'). Qed.

(** X20.  In a round that the loop of [client] runs, the clock has a
    value when the [try] reads it: after the first part of the round the
    variable [first_msg_sent] is bound. *)
Theorem clock_is_set_before_it_is_read (W : Z) (send_out_of_order : bool)
    (env : environment) (st : client_state) (sent : list bytes) (st1 : client_state) :
  sender_invariant W st ->
  divided_msgs st <> [] \/ sliding_window st <> [] ->
  send_phase W send_out_of_order env st = (sent, Ok st1) ->
  first_msg_sent st1 <> None.
Proof.
  intros Hinv Hloop Hs.
  exact (proj2 (send_phase_invariant W send_out_of_order env st sent st1 Hinv Hs) Hloop).
Qed.

(** X21.  A round that the loop of [client] runs raises only for a part
    that cannot be encoded, for a part whose bytes are too many for a
    package, for a response that has not the three bytes of an ack, or
    with what [recv] raised when this is not its timeout.  It does not
    divide by zero, take a part from an empty list or read an unset
    clock.  A [send] of the socket is taken not to raise. *)
Theorem round_raises_only (W timeout : Z) (send_out_of_order : bool)
    (env : environment) (st : client_state) (sent : list bytes) (e : exn) :
  sender_invariant W st ->
  divided_msgs st <> [] \/ sliding_window st <> [] ->
  client_round W timeout send_out_of_order env st = (sent, Raise e) ->
  e = UnicodeError \/ e = ValueError "invalid total length"
  \/ e = ValueError "data is not the correct length"
  \/ (recv env = Raise e /\ e <> socket_timeout).
Proof. exact (client_round_raises W timeout send_out_of_order env st sent e). Qed.

(** X22.  An opening of [client] that does not raise was made with a
    window size from 1 to 128; it leaves an empty window, the number 0,
    an unset clock and at least one part, and the parts put together are
    the message. *)
Theorem opening_leaves_the_parts (message : str) (W : Z) (size_response : result bytes)
    (st : client_state) :
  snd (client_connect message W size_response) = Ok st ->
  sender_invariant W st
  /\ sliding_window st = [] /\ package_number st = 0 /\ first_msg_sent st = None
  /\ divided_msgs st <> []
  /\ concat (divided_msgs st) = message.
Proof. exact (client_connect_invariant message W size_response st). Qed.

(** X23.  However the world answers, a run of [client] that leaves its
    loop has sent every part and holds no package in the window, and a
    run that is still in its loop holds at most as many packages as the
    window size, each let through by the constructor. *)
Theorem run_of_client_keeps_the_window (message : str) (W timeout : Z)
    (send_out_of_order : bool) (size_response : result bytes) (envs : list environment) :
  match snd (client message W timeout send_out_of_order size_response envs) with
  | Finished st =>
    sender_invariant W st /\ divided_msgs st = [] /\ sliding_window st = []
  | Pending st =>
    sender_invariant W st /\ (divided_msgs st <> [] \/ sliding_window st <> [])
  | Aborted _ => True
  end.
Proof. exact (client_invariant message W timeout send_out_of_order size_response envs). Qed.

End Sender.

(** The senders of the scenarios are as they should be. *)
Lemma two_outstanding_invariant : sender_invariant 2 two_outstanding.
Proof.
  split; [lia|].
  split; [repeat constructor; vm_compute; intuition discriminate|].
  split; [vm_compute; discriminate|].
  split; [discriminate | simpl; lia].
Qed.

Lemma connected_invariant (parts : list str) :
  sender_invariant 2 (Client.mk_client_state parts [] 0 None).
Proof.
  split; [lia|]. split; [constructor|]. split; [vm_compute; discriminate|].
  split; [intros H; contradiction | simpl; lia].
Qed.

Lemma division_fills_parts_witness :
  Client.divide_msg abcdefgh 3 = Ok [[97; 98; 99]; [100; 101; 102]; [103; 104]]
  /\ exists full final,
       Client.divide_msg abcdefgh 3 = Ok (full ++ [final])
       /\ Forall (fun part => len part = 3) full
       /\ len final <= 3
       /\ (abcdefgh <> [] -> 0 < len final)
       /\ concat (full ++ [final]) = abcdefgh.
Proof.
  split; [vm_compute; reflexivity|].
  apply (division_fills_parts abcdefgh 3). lia.
Defined.

Lemma division_below_one_witness :
  Client.divide_msg abcdefgh 0
  = Ok ([] :: map (fun char => [char]) abcdefgh).
Proof. apply (division_below_one abcdefgh 0). lia. Defined.

Lemma ack_takes_from_the_front_witness :
  Client.retire 2 1 (Client.sliding_window two_outstanding)
  = ([segment 2 2 [x62]], 0 <? len [segment 2 2 [x62]]).
Proof.
  apply (proj2 (ack_takes_from_the_front 2 1 (Client.sliding_window two_outstanding))
           ltac:(lia) (segment 2 1 [x61]) [segment 2 2 [x62]]); reflexivity.
Defined.

Lemma round_keeps_the_window_witness :
  sender_invariant 2 two_outstanding
  /\ Client.client_round 2 5 false silence two_outstanding
     = ([wire (segment 2 1 [x61]); wire (segment 2 2 [x62])],
        Ok (Client.mk_client_state [] [segment 2 1 [x61]; segment 2 2 [x62]] 2
                                   (Some (13 # 1)%Q)))
  /\ sender_invariant 2
       (Client.mk_client_state [] [segment 2 1 [x61]; segment 2 2 [x62]] 2
                               (Some (13 # 1)%Q)).
Proof.
  assert (H : Client.client_round 2 5 false silence two_outstanding
              = ([wire (segment 2 1 [x61]); wire (segment 2 2 [x62])],
                 Ok (Client.mk_client_state [] [segment 2 1 [x61]; segment 2 2 [x62]] 2
                                            (Some (13 # 1)%Q))))
    by (vm_compute; reflexivity).
  split; [exact two_outstanding_invariant|]. split; [exact H|].
  exact (round_keeps_the_window 2 5 false silence two_outstanding _ _
           two_outstanding_invariant H).
Defined.

Lemma clock_is_set_before_it_is_read_witness :
  sender_invariant 2 connected
  /\ Client.send_phase 2 false silence connected
     = ([wire (segment 2 1 abcdefgh_bytes)],
        Ok (Client.mk_client_state [] [segment 2 1 abcdefgh_bytes] 1 (Some (11 # 1)%Q)))
  /\ Client.first_msg_sent
       (Client.mk_client_state [] [segment 2 1 abcdefgh_bytes] 1 (Some (11 # 1)%Q))
     <> None.
Proof.
  assert (H : Client.send_phase 2 false silence connected
              = ([wire (segment 2 1 abcdefgh_bytes)],
                 Ok (Client.mk_client_state [] [segment 2 1 abcdefgh_bytes] 1
                                            (Some (11 # 1)%Q))))
    by (vm_compute; reflexivity).
  split; [exact (connected_invariant [abcdefgh])|]. split; [exact H|].
  eapply (clock_is_set_before_it_is_read 2 false silence connected);
    [exact (connected_invariant [abcdefgh]) | left; discriminate | exact H].
Defined.

Lemma round_raises_only_witness :
  Client.client_round 2 5 false silence (Client.mk_client_state [[55296]] [] 0 None)
  = ([], Raise UnicodeError)
  /\ (UnicodeError = UnicodeError \/ UnicodeError = ValueError "invalid total length"
      \/ UnicodeError = ValueError "data is not the correct length"
      \/ (Client.recv silence = Raise UnicodeError /\ UnicodeError <> socket_timeout)).
Proof.
  assert (H : Client.client_round 2 5 false silence
                (Client.mk_client_state [[55296]] [] 0 None)
              = ([], Raise UnicodeError)) by (vm_compute; reflexivity).
  split; [exact H|].
  eapply (round_raises_only 2 5 false silence);
    [exact (connected_invariant [[55296]]) | left; discriminate | exact H].
Defined.

Lemma opening_leaves_the_parts_witness :
  snd (Client.client_connect abcdefgh 2 (Ok ack_ceiling_8)) = Ok connected
  /\ sender_invariant 2 connected
  /\ Client.sliding_window connected = [] /\ Client.package_number connected = 0
  /\ Client.first_msg_sent connected = None
  /\ Client.divided_msgs connected <> []
  /\ concat (Client.divided_msgs connected) = abcdefgh.
Proof.
  assert (H : snd (Client.client_connect abcdefgh 2 (Ok ack_ceiling_8)) = Ok connected)
    by (vm_compute; reflexivity).
  split; [exact H|]. exact (opening_leaves_the_parts _ _ _ _ H).
Defined.

(** ** The sender: the chunks of a run *)

Section Chunks.
Import API Client.

Lemma send_phase_parts parts W send_out_of_order env st :
  sends_parts parts st ->
  Forall (segment_of parts) (fst (send_phase W send_out_of_order env st))
  /\ forall st', snd (send_phase W send_out_of_order env st) = Ok st' -> sends_parts parts st'.
Proof.
  intros [Hsuf Hwin]. unfold send_phase.
  assert (Hclock : forall (sent : list bytes) (mid : client_state),
            Forall (segment_of parts) sent -> sends_parts parts mid ->
            Forall (segment_of parts)
              (fst (if len (sliding_window mid) =? 1
                    then (sent, Ok (mk_client_state (divided_msgs mid) (sliding_window mid)
                                      (package_number mid) (Some (time_first env))))
                    else (sent, Ok mid)))
            /\ forall st',
                 snd (if len (sliding_window mid) =? 1
                      then (sent, Ok (mk_client_state (divided_msgs mid) (sliding_window mid)
                                        (package_number mid) (Some (time_first env))))
                      else (sent, Ok mid)) = Ok st' -> sends_parts parts st').
  { intros sent mid Hs Hm. destruct (len (sliding_window mid) =? 1); simpl.
    - split; [exact Hs|]. intros st' [= <-]. exact Hm.
    - split; [exact Hs|]. intros st' [= <-]. exact Hm. }
  assert (Hnone : forall e : exn,
            Forall (segment_of parts) (fst (@nil bytes, @Raise client_state e))
            /\ forall st', snd (@nil bytes, @Raise client_state e) = Ok st' ->
                           sends_parts parts st').
  { intros e. split; [constructor | discriminate]. }
  destruct ((len (sliding_window st) <? W) && (0 <? len (divided_msgs st))).
  2: { apply Hclock; [constructor | split; assumption]. }
  destruct (2 * W =? 0); [apply Hnone|].
  destruct (divided_msgs st) as [|part rest] eqn:Hd; [apply Hnone|].
  destruct (utf8_encode part) as [msg_part|] eqn:He; [|apply Hnone].
  destruct (snd (MessageHeader_init _ _ _ _ _)) as [package|] eqn:Ei; [|apply Hnone].
  destruct (MessageHeader_init_default _ _ _ _ _ Ei) as [Hm Hl].
  destruct (MessageHeader_init_inv _ _ _ _ _ _ Ei) as (Hpm & _).
  assert (Hdata : data package = msg_part) by (rewrite Hpm; reflexivity).
  assert (Hpart : part ∈ parts).
  { destruct Hsuf as [done ->]. apply elem_of_app. right. apply elem_of_cons. by left. }
  assert (Hcar : carries_part parts package).
  { split; [|split; assumption]. exists part. rewrite Hdata. auto. }
  assert (Hmid : sends_parts parts
            (mk_client_state rest (sliding_window st ++ [package])
                             ((package_number st + 1) mod (2 * W)) (first_msg_sent st))).
  { split; simpl.
    - destruct Hsuf as [done ->]. exists (done ++ [part]). rewrite <- app_assoc. reflexivity.
    - apply Forall_app. split; [assumption|]. apply Forall_singleton. assumption. }
  destruct (send_out_of_order && (randint env =? 0)).
  { apply Hclock; [constructor | exact Hmid]. }
  destruct (MessageHeader_pack package) as [packed|] eqn:Ep; [|apply Hnone].
  apply Hclock; [|exact Hmid].
  apply Forall_singleton. exists package. auto.
Qed.

Lemma resend_parts parts (window : list MessageHeader) :
  Forall (carries_part parts) window ->
  Forall (segment_of parts) (fst (resend window)).
Proof.
  induction 1 as [|package rest Hc _ IH]; simpl; [constructor|].
  destruct (MessageHeader_pack package) as [packed|] eqn:Ep; [|constructor].
  destruct (resend rest) as [sent r]. simpl in *.
  constructor; [|exact IH]. exists package. auto.
Qed.

Lemma ack_phase_parts parts W timeout env st :
  sends_parts parts st ->
  Forall (segment_of parts) (fst (ack_phase W timeout env st))
  /\ forall st', snd (ack_phase W timeout env st) = Ok st' -> sends_parts parts st'.
Proof.
  intros [Hsuf Hwin]. unfold ack_phase.
  destruct (await_ack W timeout env st) as [st2|e] eqn:Ea.
  - split; [constructor|]. simpl. intros st' [= <-].
    revert Ea. unfold await_ack.
    destruct (first_msg_sent st) as [first|]; [|discriminate]. simpl.
    destruct (timeout <? int_of (time_check env - first)%Q); [discriminate|].
    destruct (recv env) as [response|]; [|discriminate]. simpl.
    destruct (AckHeader_unpack response) as [ack|]; [|discriminate]. simpl.
    destruct (retire_suffix W (ack_number ack) (sliding_window st)) as (gone & Hg & _).
    destruct (retire W (ack_number ack) (sliding_window st)) as [window reset].
    simpl in Hg. intros [= <-]. split; simpl; [exact Hsuf|].
    rewrite Hg in Hwin. apply Forall_app in Hwin. tauto.
  - assert (Hre : Forall (segment_of parts) (fst (resend (sliding_window st))))
      by (apply resend_parts; exact Hwin).
    destruct e; try (split; [constructor | discriminate]).
    simpl. destruct (resend (sliding_window st)) as [resent [u|e]]; simpl in *.
    + split; [exact Hre|]. intros st' [= <-]. split; assumption.
    + split; [exact Hre | discriminate].
Qed.

Lemma client_round_parts parts W timeout send_out_of_order env st :
  sends_parts parts st ->
  Forall (segment_of parts) (fst (client_round W timeout send_out_of_order env st))
  /\ forall st', snd (client_round W timeout send_out_of_order env st) = Ok st' ->
                 sends_parts parts st'.
Proof.
  intros Hinv. unfold client_round.
  destruct (send_phase_parts parts W send_out_of_order env st Hinv) as [Hs Hn].
  destruct (send_phase W send_out_of_order env st) as [sent [st1|e]]; simpl in *.
  - destruct (ack_phase_parts parts W timeout env st1 (Hn st1 eq_refl)) as [Ha Hn'].
    destruct (ack_phase W timeout env st1) as [resent r]. simpl in *.
    split; [apply Forall_app; auto | exact Hn'].
  - split; [exact Hs | discriminate].
Qed.

Lemma client_loop_parts parts W timeout send_out_of_order : forall envs st,
  sends_parts parts st ->
  Forall (segment_of parts) (fst (client_loop W timeout send_out_of_order envs st)).
Proof.
  induction envs as [|env envs IH]; intros st Hinv; simpl.
  - destruct (_ || _); constructor.
  - destruct (_ || _); [|constructor].
    destruct (client_round_parts parts W timeout send_out_of_order env st Hinv) as [Hs Hn].
    destruct (client_round W timeout send_out_of_order env st) as [sent [st'|e]];
      simpl in *; [|exact Hs].
    specialize (IH st' (Hn st' eq_refl)).
    destruct (client_loop W timeout send_out_of_order envs st') as [more o]. simpl in *.
    apply Forall_app. auto.
Qed.

(** The chunks of a run of [client]. *)
Lemma client_chunks message W timeout send_out_of_order response ack envs st :
  AckHeader_unpack response = Ok ack -> 1 <= ack_max_msg_size ack ->
  snd (client_connect message W (Ok response)) = Ok st ->
  divide_msg message (ack_max_msg_size ack) = Ok (divided_msgs st)
  /\ Forall (fun part => len part <= ack_max_msg_size ack) (divided_msgs st)
  /\ concat (divided_msgs st) = message
  /\ exists request segments,
       fst (client message W timeout send_out_of_order (Ok response) envs)
       = request :: segments
       /\ MessageHeader_unpack request = (false, Ok (size_request W))
       /\ Forall (segment_of (divided_msgs st)) segments.
Proof.
  intros Hu Hc. unfold client, client_connect.
  destruct (snd (MessageHeader_init None W 0 (-1) [])) as [request|] eqn:Ei; [|discriminate].
  pose proof (constructed_valid _ _ _ _ _ _ Ei) as Hv.
  destruct (MessageHeader_round_trip request Hv) as (packed & Hp & Hup). rewrite Hp.
  simpl. rewrite Hu. simpl.
  destruct (divide_msg_chunks message (ack_max_msg_size ack) Hc) as (parts & Hd & Hf & Hcat).
  rewrite Hd. simpl. intros [= <-]. simpl.
  split; [reflexivity|]. split; [exact Hf|]. split; [exact Hcat|].
  assert (Hreq : request = size_request W).
  { destruct (MessageHeader_init_inv _ _ _ _ _ _ Ei) as (Hm & _).
    destruct (MessageHeader_init_default _ _ _ _ _ Ei) as (Hmax & _).
    rewrite Hm, Hmax. reflexivity. }
  rewrite <- Hreq.
  destruct (timeout <? 0).
  { exists packed, []. simpl. split; [reflexivity|]. split; [exact Hup | constructor]. }
  assert (Hinv : sends_parts parts (mk_client_state parts [] 0 None)).
  { split; simpl; [exists []; reflexivity | constructor]. }
  pose proof (client_loop_parts parts W timeout send_out_of_order envs _ Hinv) as Hl.
  destruct (client_loop W timeout send_out_of_order envs _) as [more o]. simpl in *.
  exists packed, more. auto.
Qed.

(** C7, as the code has it.  When the ack that answers the size request
    carries a ceiling of at least 1 and the opening does not raise,
    [client] cuts the message by this ceiling: every part has at most
    that many characters, the header length not being subtracted, and the
    parts put together give the message.  What a run of [client] sends is
    the size request and then data packages only, and each of these
    carries the bytes of one of the parts, the default maximum message
    size, and in data at most this size minus the header length. *)
Theorem chunks_within_ceiling (message : str) (W timeout : Z) (send_out_of_order : bool)
    (response : bytes) (ack : AckHeader) (envs : list environment) (st : client_state) :
  AckHeader_unpack response = Ok ack -> 1 <= ack_max_msg_size ack ->
  snd (client_connect message W (Ok response)) = Ok st ->
  divide_msg message (ack_max_msg_size ack) = Ok (divided_msgs st)
  /\ Forall (fun part => len part <= ack_max_msg_size ack) (divided_msgs st)
  /\ concat (divided_msgs st) = message
  /\ exists request segments,
       fst (client message W timeout send_out_of_order (Ok response) envs)
       = request :: segments
       /\ MessageHeader_unpack request = (false, Ok (size_request W))
       /\ Forall (segment_of (divided_msgs st)) segments.
Proof.
  exact (client_chunks message W timeout send_out_of_order response ack envs st).
Qed.

End Chunks.

Lemma chunks_within_ceiling_witness :
  API.AckHeader_unpack ack_ceiling_3 = Ok (API.mkAckHeader 3 0)
  /\ snd (Client.client_connect abcdefgh 2 (Ok ack_ceiling_3))
     = Ok (Client.mk_client_state [[97; 98; 99]; [100; 101; 102]; [103; 104]] [] 0 None)
  /\ Client.divide_msg abcdefgh 3 = Ok [[97; 98; 99]; [100; 101; 102]; [103; 104]]
  /\ Forall (fun part => len part <= 3) [[97; 98; 99]; [100; 101; 102]; [103; 104]]
  /\ concat [[97; 98; 99]; [100; 101; 102]; [103; 104]] = abcdefgh
  /\ fst (Client.client abcdefgh 2 5 false (Ok ack_ceiling_3) [silence])
     = [wire (size_request 2); wire (segment 2 1 [x61; x62; x63]);
        wire (segment 2 1 [x61; x62; x63])]
  /\ exists request segments,
       fst (Client.client abcdefgh 2 5 false (Ok ack_ceiling_3) [silence])
       = request :: segments
       /\ API.MessageHeader_unpack request = (false, Ok (size_request 2))
       /\ Forall (segment_of [[97; 98; 99]; [100; 101; 102]; [103; 104]]) segments.
Proof.
  assert (Hu : API.AckHeader_unpack ack_ceiling_3 = Ok (API.mkAckHeader 3 0))
    by (vm_compute; reflexivity).
  assert (Hc : snd (Client.client_connect abcdefgh 2 (Ok ack_ceiling_3))
               = Ok (Client.mk_client_state [[97; 98; 99]; [100; 101; 102]; [103; 104]]
                                            [] 0 None))
    by (vm_compute; reflexivity).
  split; [exact Hu|]. split; [exact Hc|].
  destruct (chunks_within_ceiling abcdefgh 2 5 false ack_ceiling_3 (API.mkAckHeader 3 0)
              [silence] _ Hu ltac:(simpl; lia) Hc) as (Hd & Hf & Hcat & Hs).
  split; [exact Hd|]. split; [exact Hf|]. split; [exact Hcat|].
  split; [vm_compute; reflexivity | exact Hs].
Defined.

(** C7, as stated: with the ceiling 8 the message [abcdefgh] stays in one
    part of 8 characters, more than the ceiling minus the header length,
    and the package that is sent carries these 8 bytes. *)
Lemma part_longer_than_ceiling_minus_header :
  API.AckHeader_unpack ack_ceiling_8 = Ok (API.mkAckHeader 8 0)
  /\ snd (Client.client_connect abcdefgh 2 (Ok ack_ceiling_8)) = Ok connected
  /\ Client.divide_msg abcdefgh 8 = Ok [abcdefgh]
  /\ 8 - API.HEADER_MIN_LENGTH < len abcdefgh
  /\ fst (Client.send_phase 2 false silence connected) = [wire (segment 2 1 abcdefgh_bytes)]
  /\ 8 - API.HEADER_MIN_LENGTH < len (API.data (segment 2 1 abcdefgh_bytes)).
Proof. repeat split; vm_compute; reflexivity. Qed.

(** ** The two sides together *)

Section Session.
Import API Server Client.

(** A read that holds one package. *)
Lemma client_handler_round_single policy lt package packed lt' a response :
  valid_segment package ->
  MessageHeader_pack package = Ok packed ->
  process_request policy lt package = (lt', Ok a) ->
  AckHeader_pack a = Ok response ->
  client_handler_round policy lt packed = Served lt' (Some response).
Proof.
  intros Hv Hp Hr Ha.
  destruct (unpack_requests_packed [package]) as (bs & Hbs & _ & Hu);
    [by apply Forall_singleton | discriminate |].
  simpl in Hbs. rewrite Hp in Hbs. simpl in Hbs. injection Hbs as <-.
  simpl in Hu. rewrite app_nil_r in Hu.
  destruct (MessageHeader_pack_length package packed Hp) as (Hl & _).
  unfold client_handler_round. pose proof (len_nonneg (data package)).
  unfold HEADER_MIN_LENGTH in Hl.
  decide_test (len packed =? 0).
  rewrite Hu. simpl. rewrite Hr, Ha. reflexivity.
Qed.

(** The ack that the receiver builds for a number of the cycle. *)
Lemma ack_valid mml n W :
  1 <= W <= 128 -> 0 <= n < 2 * W -> 0 <= mml <= 65535 ->
  exists response,
    AckHeader_init n mml = Ok (mkAckHeader mml n)
    /\ AckHeader_pack (mkAckHeader mml n) = Ok response
    /\ AckHeader_unpack response = Ok (mkAckHeader mml n).
Proof.
  intros HW Hn Hm.
  destruct (AckHeader_round_trip (mkAckHeader mml n)) as (response & Hp & Hu).
  { unfold valid_ack. simpl. lia. }
  exists response. rewrite AckHeader_init_valid by lia. auto.
Qed.


(** The acknowledgement of the one package in flight, read at once. *)
Lemma await_ack_front W timeout response a package divided n :
  1 <= W -> 0 <= timeout ->
  AckHeader_unpack response = Ok a -> ack_number a = package_num package ->
  await_ack W timeout (prompt response)
            (mk_client_state divided [package] n (Some (0 # 1)%Q))
  = Ok (mk_client_state divided [] n (Some (0 # 1)%Q)).
Proof.
  intros HW Ht Hu Ha. unfold await_ack. cbn [first_msg_sent mbind result_bind].
  change (int_of (time_check (prompt response) - 0)%Q) with 0.
  decide_test (timeout <? 0).
  cbn [recv prompt mbind result_bind]. rewrite Hu. cbn [mbind result_bind sliding_window].
  rewrite Ha, (retire_front W package [] HW). reflexivity.
Qed.

(** One round over the channel: the first part of the message goes from
    the sender to the message of the receiver. *)
Lemma exchange_round_part W timeout policy st lt part rest b :
  2 <= W <= 128 -> 0 <= timeout ->
  0 <= max_message_length lt <= 65535 ->
  divided_msgs st = part :: rest -> sliding_window st = [] ->
  0 <= package_number st < 2 * W ->
  decided_size lt = true -> window_size lt = W ->
  last_acked lt = package_number st -> buffer lt = [] ->
  utf8_encode part = Ok b ->
  len b <= DEFAULT_MAX_MSG_SIZE - HEADER_MIN_LENGTH ->
  exchange_round W timeout policy st lt
  = Some (mk_client_state rest [] ((package_number st + 1) mod (2 * W)) (Some (0 # 1)%Q),
          mk_local_thread true (max_message_length lt) W
                          ((package_number st + 1) mod (2 * W)) (message lt ++ part) []).
Proof.
  intros HW Ht Hm Hd Hw Hn Hdec HlW Hla Hb He Hlen.
  set (n := (package_number st + 1) mod (2 * W)).
  assert (HW1 : 1 <= W <= 128) by lia.
  assert (Hroom : len (sliding_window st) < W) by (rewrite Hw; unfold len; simpl; lia).
  pose proof (mod_range (package_number st + 1) W (proj1 HW1)) as Hnr. fold n in Hnr.
  pose proof (segment_valid W n b HW1 Hnr Hlen) as Hv.
  assert (Hsend : forall env, exists packed,
            MessageHeader_pack (segment W n b) = Ok packed
            /\ send_phase W false env st
               = ([packed], Ok (mk_client_state rest [segment W n b] n
                                                (Some (time_first env))))).
  { intros env.
    destruct (send_phase_new W env st part rest b HW1 Hd Hroom He Hlen) as (packed & Hp & Hs).
    exists packed. split; [exact Hp|]. rewrite Hs, Hw. reflexivity. }
  destruct (Hsend (prompt [])) as (packed & Hp & Hs).
  assert (Hinv : receiver_invariant lt).
  { split; [exact Hdec|]. rewrite HlW, Hla. split; [lia|]. split; [lia|].
    unfold in_order. rewrite Hb. split; constructor. }
  assert (Hnum : package_num (segment W n b)
                 = (last_acked lt + 1) mod (2 * window_size lt))
    by (rewrite HlW, Hla; reflexivity).
  assert (Htext : data_to_message (segment W n b) = Ok part)
    by (apply data_to_message_encoded; exact He).
  pose proof (process_request_next policy lt (segment W n b) part Hinv Hb
                ltac:(lia) Hnum Htext) as Hpr.
  destruct (ack_valid (max_message_length lt) n W HW1 Hnr Hm) as (response & Hai & Hap & Hau).
  simpl package_num in Hpr. rewrite Hai, HlW in Hpr.
  pose proof (client_handler_round_single policy lt _ packed _ _ response Hv Hp Hpr Hap)
    as Hround.
  unfold exchange_round. rewrite Hs. cbn [fst]. rewrite Hround.
  destruct (Hsend (prompt response)) as (packed' & Hp' & Hs').
  unfold client_round. rewrite Hs'. unfold ack_phase.
  change (time_first (prompt response)) with (0 # 1)%Q.
  rewrite (await_ack_front W timeout response (mkAckHeader (max_message_length lt) n)
             (segment W n b) rest n (proj1 HW1) Ht Hau eq_refl).
  reflexivity.
Qed.

(** The parts of a text that [encode] takes. *)
Lemma encodable_concat (parts : list str) :
  encodable (concat parts) -> Forall encodable parts.
Proof.
  unfold encodable. induction parts as [|part parts IH]; simpl; intros H.
  - constructor.
  - apply Forall_app in H as [H1 H2]. constructor; auto.
Qed.

(** The rounds over the channel, one for every part. *)
Lemma exchange_parts W timeout policy : forall parts st lt,
  2 <= W <= 128 -> 0 <= timeout ->
  0 <= max_message_length lt <= 65535 ->
  divided_msgs st = parts -> sliding_window st = [] ->
  0 <= package_number st < 2 * W ->
  decided_size lt = true -> window_size lt = W ->
  last_acked lt = package_number st -> buffer lt = [] ->
  Forall (fun part => encodable part
                      /\ 4 * len part <= DEFAULT_MAX_MSG_SIZE - HEADER_MIN_LENGTH) parts ->
  exists st' lt',
    exchange (length parts) W timeout policy st lt = Some (st', lt')
    /\ divided_msgs st' = [] /\ sliding_window st' = []
    /\ message lt' = message lt ++ concat parts /\ buffer lt' = []
    /\ last_acked lt' = package_number st'.
Proof.
  induction parts as [|part rest IH]; intros st lt HW Ht Hm Hd Hw Hn Hdec HlW Hla Hb Hparts.
  - exists st, lt. simpl. rewrite app_nil_r. auto 10.
  - apply Forall_cons in Hparts as [[Henc Hlen] Hrest].
    apply utf8_encode_ok in Henc.
    destruct (utf8_encode part) as [b|] eqn:He; [|discriminate].
    pose proof (utf8_encode_length part b He) as Hbl.
    edestruct (IH (mk_client_state rest [] ((package_number st + 1) mod (2 * W))
                                   (Some (0 # 1)%Q))
                  (mk_local_thread true (max_message_length lt) W
                     ((package_number st + 1) mod (2 * W)) (message lt ++ part) []))
      as (st' & lt' & Hex & H1 & H2 & H3 & H4 & H5);
      try reflexivity; try assumption.
    { apply mod_range. lia. }
    exists st', lt'. simpl in H3. simpl. rewrite <- app_assoc in H3. 
    cbn [exchange]. 
    rewrite (exchange_round_part W timeout policy st lt part rest b) by (auto; lia).
    auto 10.
Qed.

(** The opening: the size request is answered with the size that the
    receiver decided on, and the sender divides its message by it. *)
Lemma open_session_divides message W mml :
  2 <= W <= 128 -> 0 <= mml <= 65535 ->
  exists parts,
    divide_msg message mml = Ok parts
    /\ open_session message W (Ok mml)
       = Some (mk_client_state parts [] 0 None, mk_local_thread true mml W 0 [] []).
Proof.
  intros HW Hm.
  destruct (divide_loop_total message mml [] []) as (parts & Hp & _).
  exists parts. split; [exact Hp|].
  assert (HW1 : 1 <= W <= 128) by lia.
  assert (Hl : len (@nil byte) <= DEFAULT_MAX_MSG_SIZE - HEADER_MIN_LENGTH)
    by (vm_compute; discriminate).
  pose proof (MessageHeader_init_segment None W 0 [] HW1 ltac:(lia) Hl) as Hi.
  pose proof (segment_valid W 0 [] HW1 ltac:(lia) Hl) as Hv.
  destruct (MessageHeader_round_trip _ Hv) as (packed & Hpk & _).
  destruct (ack_valid mml 0 W HW1 ltac:(lia) Hm) as (response & Hai & Hap & Hau).
  pose proof (size_request_drained W mml HW) as Hpr. rewrite Hai in Hpr.
  pose proof (client_handler_round_single (Ok mml) new_local_thread _ packed _ _ response
                Hv Hpk Hpr Hap) as Hround.
  unfold open_session, client_connect. rewrite Hi. fold (size_request W).
  unfold size_request. rewrite Hpk. cbn [fst snd]. rewrite Hround.
  cbn [mbind result_bind]. rewrite Hau. cbn [mbind result_bind ack_max_msg_size].
  fold (divide_msg message mml). unfold divide_msg. 
  change (divide_loop message mml [[]] 0) with (divide_loop message mml ([] ++ [[]]) (length (@nil str))).
  rewrite Hp. reflexivity.
Qed.

(** The opening and then one round for every part. *)
Lemma session_transfers message W timeout mml :
  2 <= W <= 128 -> 0 <= timeout -> 0 <= mml <= 16381 -> encodable message ->
  exists st lt st' lt',
    open_session message W (Ok mml) = Some (st, lt)
    /\ exchange (length (divided_msgs st)) W timeout (Ok mml) st lt = Some (st', lt')
    /\ divided_msgs st' = [] /\ sliding_window st' = []
    /\ Server.message lt' = message /\ buffer lt' = [].
Proof.
  intros HW Ht Hm Henc.
  destruct (open_session_divides message W mml HW ltac:(lia)) as (parts & Hp & Ho).
  destruct (divide_loop_total message mml [] []) as (parts' & Hp' & Hc & _).
  change (divide_loop message mml ([] ++ [[]]) (length (@nil str))) with (divide_msg message mml) in Hp'.
  rewrite Hp in Hp'. injection Hp' as <-. simpl in Hc.
  assert (Hb : Forall (fun part => len part <= Z.max 1 mml) parts).
  { apply (divide_loop_bound message mml [] [] parts); [constructor | unfold len; simpl; lia |].
    exact Hp. }
  destruct (exchange_parts W timeout (Ok mml) parts
              (mk_client_state parts [] 0 None) (mk_local_thread true mml W 0 [] []))
    as (st' & lt' & Hex & H1 & H2 & H3 & H4 & _); try reflexivity; try assumption;
    try (simpl; lia).
  { rewrite <- Hc in Henc. apply encodable_concat in Henc.
    apply Forall_and. split; [assumption|].
    eapply Forall_impl; [exact Hb|]. simpl. intros part Hl.
    unfold DEFAULT_MAX_MSG_SIZE, DEFAULT_HEADER_MAX_LENGTH, HEADER_MIN_LENGTH.
    change (2 ^ 16) with 65536. lia. }
  eexists _, _, st', lt'. split; [exact Ho|]. split; [exact Hex|].
  simpl in H3. rewrite Hc in H3. auto.
Qed.

(** X24.  Over a channel that loses nothing, the opening of [client]
    with a window size from 2 to 128 meets a receiver that decides on a
    maximum message length from 0 to 65535: the receiver answers the size
    request with this length and waits for package 1, and the sender
    divides its message by this length. *)
Theorem opening_agrees_on_the_size (message : str) (W mml : Z) :
  2 <= W <= 128 -> 0 <= mml <= 65535 ->
  exists parts,
    divide_msg message mml = Ok parts
    /\ open_session message W (Ok mml)
       = Some (mk_client_state parts [] 0 None, mk_local_thread true mml W 0 [] []).
Proof. exact (open_session_divides message W mml). Qed.

(** X25.  Over a channel that loses nothing and answers at once, with a
    window size from 2 to 128, a maximum message length from 0 to 16381
    and a text that [encode] takes, the opening and one round for every
    part go through: the sender ends with no part and an empty window,
    and the message that the receiver has put together is the message of
    the sender. *)
Theorem message_arrives_whole (message : str) (W timeout mml : Z) :
  2 <= W <= 128 -> 0 <= timeout -> 0 <= mml <= 16381 -> encodable message ->
  exists st lt st' lt',
    open_session message W (Ok mml) = Some (st, lt)
    /\ exchange (length (divided_msgs st)) W timeout (Ok mml) st lt = Some (st', lt')
    /\ divided_msgs st' = [] /\ sliding_window st' = []
    /\ Server.message lt' = message /\ buffer lt' = [].
Proof. exact (session_transfers message W timeout mml). Qed.

End Session.

Lemma opening_agrees_on_the_size_witness :
  exists parts,
    Client.divide_msg abcdefgh 3 = Ok parts
    /\ open_session abcdefgh 2 (Ok 3)
       = Some (Client.mk_client_state parts [] 0 None,
               Server.mk_local_thread true 3 2 0 [] []).
Proof. apply (opening_agrees_on_the_size abcdefgh 2 3); lia. Defined.

Lemma message_arrives_whole_witness :
  encodable abcdefgh
  /\ exists st lt st' lt',
       open_session abcdefgh 2 (Ok 3) = Some (st, lt)
       /\ exchange (length (Client.divided_msgs st)) 2 5 (Ok 3) st lt = Some (st', lt')
       /\ Client.divided_msgs st' = [] /\ Client.sliding_window st' = []
       /\ Server.message lt' = abcdefgh /\ Server.buffer lt' = [].
Proof.
  assert (He : encodable abcdefgh).
  { unfold encodable, abcdefgh. repeat constructor; vm_compute; discriminate. }
  split; [exact He|].
  apply (message_arrives_whole abcdefgh 2 5 3); [lia | lia | lia | exact He].
Defined.
